(** * Command relay, tool dispatch and agent loop of the AI server

  A shallow embedding of the server side of the robot-control bridge:
  - [Relay]: the WebSocket relay of the server file (the connection
    handlers and [sendCommandToSim]);
  - [Tools]: [executeTool] of the tool file;
  - [Controller]: [AIController] and the chat route;
  and of the two parts of the page that talk to it:
  - [Browser]: [SimulationAPI.executeCommand], [_observeScene] and the
    [WebSocketClient];
  - [Panel]: the loop of [ChatPanel._onSend] that reads the reply of the
    chat route.

  JavaScript values are modelled by [JsVal]; promises, timers and sockets
  are objects of the runtime and are modelled by their identity (a
  natural number handed out in allocation order). *)

From Stdlib Require Import List ZArith QArith String Ascii Bool Lia Arith.
From Stdlib Require Import DecimalString Sorted.
Import ListNotations.

Set Warnings "-register-all".
Local Close Scope Q_scope.
Local Open Scope Z_scope.
Local Open Scope list_scope.

(** ** JavaScript values *)

Module Js.

(** JSON-shaped values plus [undefined].  A number is modelled by the
    rational it denotes; the code only tests numbers for truthiness and
    uses integers as map keys. *)
Inductive JsVal : Type :=
| JUndefined
| JNull
| JBool (b : bool)
| JNum (q : Q)
| JStr (s : string)
| JArr (items : list JsVal)
| JObj (fields : list (string * JsVal)).

(** A plain object: its own enumerable properties in key order, each key
    once. *)
Definition JsObject : Type := list (string * JsVal).

Definition JInt (z : Z) : JsVal := JNum (inject_Z z).

(** [o.k] on an object: the value of the property, or [undefined]. *)
Fixpoint get (k : string) (o : JsObject) : JsVal :=
  match o with
  | [] => JUndefined
  | (k', v) :: rest => if String.eqb k k' then v else get k rest
  end.

(** [delete o.k]. *)
Definition delete (k : string) (o : JsObject) : JsObject :=
  filter (fun kv => negb (String.eqb k (fst kv))) o.

Definition has (k : string) (o : JsObject) : bool :=
  existsb (fun kv => String.eqb k (fst kv)) o.

(** ToBoolean. *)
Definition truthy (v : JsVal) : bool :=
  match v with
  | JUndefined | JNull => false
  | JBool b => b
  | JNum q => negb (Qeq_bool q 0)
  | JStr s => negb (String.eqb s EmptyString)
  | JArr _ | JObj _ => true
  end.

(** [v === null || v === undefined], the test of [??] and [?.]. *)
Definition nullish (v : JsVal) : bool :=
  match v with
  | JUndefined | JNull => true
  | _ => false
  end.

(** [a ?? b]. *)
Definition coalesce (a b : JsVal) : JsVal := if nullish a then b else a.

(** [v.k] for the property names the code reads (none of them is a
    property of a primitive wrapper or of [Array.prototype]): [None] is
    the [TypeError] of a property read on [null] or [undefined]. *)
Definition prop (v : JsVal) (k : string) : option JsVal :=
  match v with
  | JUndefined | JNull => None
  | JObj o => Some (get k o)
  | _ => Some JUndefined
  end.

(** [v?.k]. *)
Definition optprop (v : JsVal) (k : string) : JsVal :=
  match prop v k with
  | Some x => x
  | None => JUndefined
  end.

(** The integer a number denotes, if it is one: the only numbers that can
    be equal (SameValueZero) to a key of the pending-command map. *)
Definition as_integer (v : JsVal) : option Z :=
  match v with
  | JNum q =>
      if (Qnum q mod Zpos (Qden q) =? 0)%Z then Some (Qnum q / Zpos (Qden q))%Z
      else None
  | _ => None
  end.

(** Decimal rendering of an integer, as in a template literal. *)
Definition decimal (z : Z) : string := NilZero.string_of_int (Z.to_int z).

Definition dquote : string := String (ascii_of_nat 34) EmptyString.

End Js.
Import Js.

(** ** Insertion-ordered maps

  A JavaScript [Map] iterates in insertion order; [set] on a present key
  replaces the value in place. *)

Section AssocMap.
Context {K V : Type} (eqb : K -> K -> bool).
Hypothesis eqb_spec : forall x y, reflect (x = y) (eqb x y).

Fixpoint map_get (k : K) (m : list (K * V)) : option V :=
  match m with
  | [] => None
  | (k', v) :: rest => if eqb k k' then Some v else map_get k rest
  end.

Fixpoint map_set (k : K) (v : V) (m : list (K * V)) : list (K * V) :=
  match m with
  | [] => [(k, v)]
  | (k', v') :: rest =>
      if eqb k k' then (k, v) :: rest else (k', v') :: map_set k v rest
  end.

Fixpoint map_delete (k : K) (m : list (K * V)) : list (K * V) :=
  match m with
  | [] => []
  | (k', v') :: rest =>
      if eqb k k' then map_delete k rest else (k', v') :: map_delete k rest
  end.

Definition keys (m : list (K * V)) : list K := map fst m.

Lemma map_get_set_eq k v m : map_get k (map_set k v m) = Some v.
Proof.
  induction m as [|[k' v'] m IH]; simpl.
  - destruct (eqb_spec k k); congruence.
  - destruct (eqb_spec k k') as [->|N]; simpl.
    + destruct (eqb_spec k' k'); congruence.
    + destruct (eqb_spec k k'); [contradiction|exact IH].
Qed.

Lemma map_get_set_neq k k' v m :
  k' <> k -> map_get k' (map_set k v m) = map_get k' m.
Proof.
  intros N. induction m as [|[k0 v0] m IH]; simpl.
  - destruct (eqb_spec k' k); congruence.
  - destruct (eqb_spec k k0) as [->|N0]; simpl.
    + destruct (eqb_spec k' k0); congruence.
    + destruct (eqb_spec k' k0); [reflexivity|exact IH].
Qed.

Lemma map_get_delete_eq k m : map_get k (map_delete k m) = None.
Proof.
  induction m as [|[k' v'] m IH]; simpl; [reflexivity|].
  destruct (eqb_spec k k') as [->|N]; simpl; [exact IH|].
  destruct (eqb_spec k k'); [contradiction|exact IH].
Qed.

Lemma map_get_delete_neq k k' m :
  k' <> k -> map_get k' (map_delete k m) = map_get k' m.
Proof.
  intros N. induction m as [|[k0 v0] m IH]; simpl; [reflexivity|].
  destruct (eqb_spec k k0) as [->|N0]; simpl.
  - destruct (eqb_spec k' k0); [contradiction|exact IH].
  - destruct (eqb_spec k' k0); [reflexivity|exact IH].
Qed.

Lemma map_get_In k v m : map_get k m = Some v -> In (k, v) m.
Proof.
  induction m as [|[k' v'] m IH]; simpl; [discriminate|].
  destruct (eqb_spec k k') as [->|N]; intros H.
  - left. congruence.
  - right. auto.
Qed.

Lemma In_map_get k v m : NoDup (keys m) -> In (k, v) m -> map_get k m = Some v.
Proof.
  induction m as [|[k' v'] m IH]; simpl; [contradiction|].
  intros ND [E|I]; inversion ND as [|? ? NI ND']; subst.
  - inversion E; subst. destruct (eqb_spec k k); congruence.
  - destruct (eqb_spec k k') as [->|N]; [|auto].
    exfalso. apply NI. change k' with (fst (k', v)). now apply in_map.
Qed.

Lemma map_get_None_keys k m : map_get k m = None <-> ~ In k (keys m).
Proof.
  induction m as [|[k' v'] m IH]; simpl; [tauto|].
  destruct (eqb_spec k k') as [->|N]; split; intros H.
  - discriminate.
  - exfalso. apply H. now left.
  - intros [E|I]; [congruence|]. now apply IH in H.
  - apply IH. intros I. apply H. now right.
Qed.

Lemma keys_set_In k v m x : In x (keys (map_set k v m)) <-> x = k \/ In x (keys m).
Proof.
  induction m as [|[k' v'] m IH]; simpl.
  - intuition congruence.
  - destruct (eqb_spec k k') as [->|N]; simpl; [intuition congruence|].
    rewrite IH. intuition congruence.
Qed.

Lemma NoDup_keys_set k v m : NoDup (keys m) -> NoDup (keys (map_set k v m)).
Proof.
  induction m as [|[k' v'] m IH]; simpl; intros ND.
  - constructor; [intros []|constructor].
  - inversion ND as [|? ? NI ND']; subst.
    destruct (eqb_spec k k') as [->|N]; simpl; constructor; auto.
    rewrite keys_set_In. intros [E|I]; [congruence|contradiction].
Qed.

Lemma keys_delete_In k m x : In x (keys (map_delete k m)) -> In x (keys m).
Proof.
  induction m as [|[k' v'] m IH]; simpl; [tauto|].
  destruct (eqb_spec k k'); simpl; intuition.
Qed.

Lemma NoDup_keys_delete k m : NoDup (keys m) -> NoDup (keys (map_delete k m)).
Proof.
  induction m as [|[k' v'] m IH]; simpl; intros ND; [constructor|].
  inversion ND as [|? ? NI ND']; subst.
  destruct (eqb_spec k k'); simpl; auto.
  constructor; auto. intros I. apply NI. eapply keys_delete_In; eauto.
Qed.

End AssocMap.

Lemma Z_eqb_reflect (x y : Z) : reflect (x = y) (Z.eqb x y).
Proof. apply Z.eqb_spec. Qed.

Lemma nat_eqb_reflect (x y : nat) : reflect (x = y) (Nat.eqb x y).
Proof. apply Nat.eqb_spec. Qed.

(** ** The command relay (server file) *)

Module Relay.

(** [ws.readyState]. *)
Inductive ReadyState : Type := CONNECTING | OPEN | CLOSING | CLOSED.

(** An entry [{ resolve, reject, timer }] of [pendingCommands]: [resolve]
    and [reject] are the two settle functions of promise [promise]. *)
Record PendingCommand : Type := {
  promise : nat;
  timer : nat
}.

(** What the callback given to [setTimeout] closes over, and the earliest
    time the runtime may run it when the delay is one it takes as given
    (from 1 to 2^31 - 1 ms). *)
Record TimeoutCallback : Type := {
  cb_id : Z;
  cb_promise : nat;
  cb_action : string;
  cb_timeout : Z;
  cb_due : Z
}.

(** The three module-level variables of the relay, followed by the part of
    the runtime they refer to: the sockets with their [readyState], the
    armed timers, the next fresh object identity and the clock (ms).

    [commandIdCounter] is a JavaScript number holding a non-negative
    integer; it is modelled by that integer (the range in which [++] on a
    number is exact). *)
Record State : Type := {
  simulationSocket : option nat;
  pendingCommands : list (Z * PendingCommand);
  commandIdCounter : Z;
  sockets : list (nat * ReadyState);
  timers : list (nat * TimeoutCallback);
  nextObject : nat;
  now : Z
}.

Definition init : State := {|
  simulationSocket := None;
  pendingCommands := [];
  commandIdCounter := 0;
  sockets := [];
  timers := [];
  nextObject := 0%nat;
  now := 0
|}.

(** What a handler does to the outside: settling a promise, arming or
    cancelling a timer, writing a frame to a socket.  ([console] output is
    left out.) *)
Inductive Effect : Type :=
| Resolve (p : nat) (value : JsVal)
| Reject (p : nat) (message : string)
| SetTimeout (t : nat) (delay : Z)
| ClearTimeout (t : nat)
| WsSend (ws : nat) (frame : JsObject).

Definition NOT_CONNECTED : string :=
  "Simulation not connected. Please open the simulation in a browser.".

Definition DISCONNECTED : string := "Simulation disconnected".

(** The largest delay [setTimeout] takes as given, 2^31 - 1 ms: the
    runtime replaces a larger delay, or one below 1, by 1 ms. *)
Definition TIMEOUT_MAX : Z := 2147483647.

(** [`Command "${action}" timed out after ${timeout}ms`]; the digits are
    those of the template literal for an integer below 10^21. *)
Definition timed_out (action : string) (timeout : Z) : string :=
  ("Command " ++ dquote ++ action ++ dquote ++ " timed out after "
     ++ decimal timeout ++ "ms")%string.

Definition readyState (ws : nat) (s : State) : option ReadyState :=
  map_get Nat.eqb ws (sockets s).

(** [simulationSocket && simulationSocket.readyState === WebSocket.OPEN]. *)
Definition connected (s : State) : bool :=
  match simulationSocket s with
  | None => false
  | Some ws =>
      match readyState ws s with
      | Some OPEN => true
      | _ => false
      end
  end.

(** The frame [{ type: 'command', id, action, params }]. *)
Definition command_frame (id : Z) (action : string) (params : JsVal) : JsObject :=
  [("type", JStr "command"); ("id", JInt id); ("action", JStr action);
   ("params", params)]%string.

(** [sendCommandToSim(action, params, timeout)]: the promise it returns is
    object [nextObject s]; its executor runs at once. *)
Definition sendCommandToSim (action : string) (params : JsVal) (timeout : Z)
    (s : State) : State * list Effect :=
  let p := nextObject s in
  match simulationSocket s with
  | Some ws =>
      match readyState ws s with
      | Some OPEN =>
          let id := commandIdCounter s in
          let t := S p in
          let cb := {| cb_id := id; cb_promise := p; cb_action := action;
                       cb_timeout := timeout; cb_due := now s + timeout |} in
          ({| simulationSocket := simulationSocket s;
              pendingCommands :=
                map_set Z.eqb id {| promise := p; timer := t |} (pendingCommands s);
              commandIdCounter := id + 1;
              sockets := sockets s;
              timers := map_set Nat.eqb t cb (timers s);
              nextObject := S t;
              now := now s |},
           [SetTimeout t timeout; WsSend ws (command_frame id action params)])
      | _ =>
          ({| simulationSocket := simulationSocket s;
              pendingCommands := pendingCommands s;
              commandIdCounter := commandIdCounter s;
              sockets := sockets s;
              timers := timers s;
              nextObject := S p;
              now := now s |},
           [Reject p NOT_CONNECTED])
      end
  | None =>
      ({| simulationSocket := simulationSocket s;
          pendingCommands := pendingCommands s;
          commandIdCounter := commandIdCounter s;
          sockets := sockets s;
          timers := timers s;
          nextObject := S p;
          now := now s |},
       [Reject p NOT_CONNECTED])
  end.

(** The callback of the timer armed by [sendCommandToSim]. *)
Definition on_timeout (t : nat) (cb : TimeoutCallback) (s : State)
    : State * list Effect :=
  ({| simulationSocket := simulationSocket s;
      pendingCommands := map_delete Z.eqb (cb_id cb) (pendingCommands s);
      commandIdCounter := commandIdCounter s;
      sockets := sockets s;
      timers := map_delete Nat.eqb t (timers s);
      nextObject := nextObject s;
      now := now s |},
   [Reject (cb_promise cb) (timed_out (cb_action cb) (cb_timeout cb))]).

(** [wss.on('connection')]: the new socket is object [nextObject s]. *)
Definition on_connection (s : State) : State * list Effect :=
  let ws := nextObject s in
  ({| simulationSocket := Some ws;
      pendingCommands := pendingCommands s;
      commandIdCounter := commandIdCounter s;
      sockets := map_set Nat.eqb ws OPEN (sockets s);
      timers := timers s;
      nextObject := S ws;
      now := now s |},
   []).

(** [ws.on('message')] on the parsed frame ([None]: [JSON.parse] throws,
    which the handler catches, as it does the [TypeError] of reading a
    property of [null]). *)
Definition on_message (data : option JsVal) (s : State) : State * list Effect :=
  match data with
  | None => (s, [])
  | Some msg =>
      match prop msg "type", prop msg "id", prop msg "result" with
      | Some (JStr ty), Some id, Some result =>
          if String.eqb ty "command_result" && negb (match id with JUndefined => true | _ => false end)
          then
            match as_integer id with
            | Some k =>
                match map_get Z.eqb k (pendingCommands s) with
                | Some pending =>
                    ({| simulationSocket := simulationSocket s;
                        pendingCommands := map_delete Z.eqb k (pendingCommands s);
                        commandIdCounter := commandIdCounter s;
                        sockets := sockets s;
                        timers := map_delete Nat.eqb (timer pending) (timers s);
                        nextObject := nextObject s;
                        now := now s |},
                     [ClearTimeout (timer pending); Resolve (promise pending) result])
                | None => (s, [])
                end
            | None => (s, [])
            end
          else (s, [])
      | _, _, _ => (s, [])
      end
  end.

(** The loop of [ws.on('close')] over the entries of [pendingCommands]. *)
Definition reject_all (pending : list (Z * PendingCommand)) : list Effect :=
  flat_map (fun e => [ClearTimeout (timer (snd e)); Reject (promise (snd e)) DISCONNECTED])
           pending.

Definition clear_timers (pending : list (Z * PendingCommand))
    (tm : list (nat * TimeoutCallback)) : list (nat * TimeoutCallback) :=
  fold_left (fun acc e => map_delete Nat.eqb (timer (snd e)) acc) pending tm.

(** [ws.on('close')] for socket [ws], after the runtime has set its
    [readyState] to [CLOSED]. *)
Definition on_close (ws : nat) (s : State) : State * list Effect :=
  ({| simulationSocket :=
        match simulationSocket s with
        | Some cur => if Nat.eqb cur ws then None else Some cur
        | None => None
        end;
      pendingCommands := [];
      commandIdCounter := commandIdCounter s;
      sockets := map_set Nat.eqb ws CLOSED (sockets s);
      timers := clear_timers (pendingCommands s) (timers s);
      nextObject := nextObject s;
      now := now s |},
   reject_all (pendingCommands s)).

(** What can happen to the relay.  The runtime delivers [WsMessage],
    [WsClosing], [WsClose] and [WsError] only for a socket it has created
    and not yet closed, runs a timer only while it is armed and not before
    its delay has elapsed (for a delay from 1 to 2^31 - 1 ms; what is
    proved about the time a timer runs is stated for such delays), and
    time does not run backwards. *)
Inductive Event : Type :=
| Connection
| WsMessage (ws : nat) (data : option JsVal)
| WsClosing (ws : nat)
| WsClose (ws : nat)
| WsError (ws : nat)
| TimerFires (t : nat)
| Elapse (ms : N)
| SendCommand (action : string) (params : JsVal) (timeout : Z).

Definition live (ws : nat) (s : State) : bool :=
  match readyState ws s with
  | Some OPEN | Some CLOSING => true
  | _ => false
  end.

Definition set_readyState (ws : nat) (r : ReadyState) (s : State) : State :=
  {| simulationSocket := simulationSocket s;
     pendingCommands := pendingCommands s;
     commandIdCounter := commandIdCounter s;
     sockets := map_set Nat.eqb ws r (sockets s);
     timers := timers s;
     nextObject := nextObject s;
     now := now s |}.

Definition advance (ms : N) (s : State) : State :=
  {| simulationSocket := simulationSocket s;
     pendingCommands := pendingCommands s;
     commandIdCounter := commandIdCounter s;
     sockets := sockets s;
     timers := timers s;
     nextObject := nextObject s;
     now := now s + Z.of_N ms |}.

Definition step (e : Event) (s : State) : State * list Effect :=
  match e with
  | Connection => on_connection s
  | WsMessage ws data => if live ws s then on_message data s else (s, [])
  | WsClosing ws =>
      match readyState ws s with
      | Some OPEN => (set_readyState ws CLOSING s, [])
      | _ => (s, [])
      end
  | WsClose ws => if live ws s then on_close ws s else (s, [])
  | WsError ws => (s, [])
  | TimerFires t =>
      match map_get Nat.eqb t (timers s) with
      | Some cb => if cb_due cb <=? now s then on_timeout t cb s else (s, [])
      | None => (s, [])
      end
  | Elapse ms => (advance ms s, [])
  | SendCommand action params timeout => sendCommandToSim action params timeout s
  end.

(** A run: the effects of every event, stamped with the time they happen. *)
Definition Log : Type := list (Z * Effect).

Definition stamp (s : State) (effs : list Effect) : Log :=
  map (fun e => (now s, e)) effs.

Fixpoint run (evs : list Event) (s : State) : State * Log :=
  match evs with
  | [] => (s, [])
  | e :: rest =>
      let (s1, effs) := step e s in
      let (s2, log) := run rest s1 in
      (s2, stamp s effs ++ log)
  end.

(** *** The pending table and the armed timers agree

    Every entry of [pendingCommands] holds the timer that was armed for it
    and every armed timer belongs to the entry of its id; ids in the table
    are below the counter. *)

Definition wf_parts (pending : list (Z * PendingCommand))
    (tm : list (nat * TimeoutCallback)) (counter : Z) (next : nat) : Prop :=
  (forall k pc, map_get Z.eqb k pending = Some pc ->
     k < counter /\ timer pc = S (promise pc) /\ (timer pc < next)%nat /\
     exists cb, map_get Nat.eqb (timer pc) tm = Some cb /\
                cb_id cb = k /\ cb_promise cb = promise pc) /\
  (forall t cb, map_get Nat.eqb t tm = Some cb ->
     (t < next)%nat /\
     map_get Z.eqb (cb_id cb) pending =
       Some {| promise := cb_promise cb; timer := t |}) /\
  NoDup (keys pending).

Definition wf (s : State) : Prop :=
  wf_parts (pendingCommands s) (timers s) (commandIdCounter s) (nextObject s).

(** The settlements of promise [p] among some effects. *)
Definition settles (p : nat) (e : Effect) : bool :=
  match e with
  | Resolve q _ | Reject q _ => Nat.eqb q p
  | _ => false
  end.

Definition settlements (p : nat) (log : Log) : Log :=
  filter (fun te => settles p (snd te)) log.

(** The correlation ids written to the wire, in order. *)
Definition frame_id (e : Effect) : list Z :=
  match e with
  | WsSend _ frame =>
      match as_integer (get "id" frame) with
      | Some k => [k]
      | None => []
      end
  | _ => []
  end.

Definition allocated_ids (log : Log) : list Z :=
  flat_map (fun te => frame_id (snd te)) log.

Definition is_close (e : Event) : bool :=
  match e with
  | WsClose _ => true
  | _ => false
  end.

(** A frame that carries correlation id [k]. *)
Definition carries_id (k : Z) (e : Event) : bool :=
  match e with
  | WsMessage _ (Some msg) =>
      match prop msg "id" with
      | Some v =>
          match as_integer v with
          | Some k' => Z.eqb k' k
          | None => false
          end
      | None => false
      end
  | _ => false
  end.

Lemma wf_init : wf init.
Proof.
  unfold wf, wf_parts; simpl. repeat split; try discriminate. constructor.
Qed.

Lemma wf_parts_next pending tm counter next next' :
  (next <= next')%nat ->
  wf_parts pending tm counter next -> wf_parts pending tm counter next'.
Proof.
  intros L (W1 & W2 & W3). repeat split; auto.
  - now apply W1 in H.
  - now apply W1 in H.
  - apply W1 in H. lia.
  - now apply W1 in H.
  - apply W2 in H. lia.
  - now apply W2 in H.
Qed.

Lemma wf_parts_remove pending tm counter next k pc :
  wf_parts pending tm counter next ->
  map_get Z.eqb k pending = Some pc ->
  wf_parts (map_delete Z.eqb k pending) (map_delete Nat.eqb (timer pc) tm)
           counter next.
Proof.
  intros (W1 & W2 & W3) G. split; [|split].
  - intros k' pc' G'.
    destruct (Z.eq_dec k' k) as [->|N].
    { rewrite (map_get_delete_eq Z.eqb Z_eqb_reflect) in G'. discriminate. }
    rewrite (map_get_delete_neq Z.eqb Z_eqb_reflect) in G' by exact N.
    destruct (W1 _ _ G') as (L & T & F & cb & C & I & P).
    repeat split; auto. exists cb. repeat split; auto.
    rewrite (map_get_delete_neq Nat.eqb nat_eqb_reflect); [exact C|].
    intros E. destruct (W1 _ _ G) as (_ & _ & _ & cb0 & C0 & I0 & _).
    rewrite E in C. congruence.
  - intros t cb G'.
    destruct (Nat.eq_dec t (timer pc)) as [->|N].
    { rewrite (map_get_delete_eq Nat.eqb nat_eqb_reflect) in G'. discriminate. }
    rewrite (map_get_delete_neq Nat.eqb nat_eqb_reflect) in G' by exact N.
    destruct (W2 _ _ G') as (L & B). split; [exact L|].
    rewrite (map_get_delete_neq Z.eqb Z_eqb_reflect); [exact B|].
    intros E. rewrite E, G in B. inversion B; subst. simpl in N. congruence.
  - now apply (NoDup_keys_delete Z.eqb Z_eqb_reflect).
Qed.

Lemma wf_parts_add pending tm counter p cb :
  wf_parts pending tm counter p ->
  cb_id cb = counter -> cb_promise cb = p ->
  wf_parts (map_set Z.eqb counter {| promise := p; timer := S p |} pending)
           (map_set Nat.eqb (S p) cb tm) (counter + 1) (S (S p)).
Proof.
  intros (W1 & W2 & W3) I P. split; [|split].
  - intros k pc G.
    destruct (Z.eq_dec k counter) as [->|N].
    + rewrite (map_get_set_eq Z.eqb Z_eqb_reflect) in G. inversion G; subst pc; simpl.
      repeat split; try lia. exists cb.
      rewrite (map_get_set_eq Nat.eqb nat_eqb_reflect). auto.
    + rewrite (map_get_set_neq Z.eqb Z_eqb_reflect) in G by exact N.
      destruct (W1 _ _ G) as (L & T & F & cb0 & C & I0 & P0).
      repeat split; try lia. exists cb0. repeat split; auto.
      rewrite (map_get_set_neq Nat.eqb nat_eqb_reflect); [exact C|lia].
  - intros t cb0 G.
    destruct (Nat.eq_dec t (S p)) as [->|N].
    + rewrite (map_get_set_eq Nat.eqb nat_eqb_reflect) in G. inversion G; subst cb0.
      split; [lia|]. rewrite I, P.
      apply (map_get_set_eq Z.eqb Z_eqb_reflect).
    + rewrite (map_get_set_neq Nat.eqb nat_eqb_reflect) in G by exact N.
      destruct (W2 _ _ G) as (L & B). split; [lia|].
      rewrite (map_get_set_neq Z.eqb Z_eqb_reflect); [exact B|].
      apply W1 in B. lia.
  - now apply (NoDup_keys_set Z.eqb Z_eqb_reflect).
Qed.

Lemma clear_timers_keys pending tm t :
  In t (keys (clear_timers pending tm)) ->
  In t (keys tm) /\ forall e, In e pending -> timer (snd e) <> t.
Proof.
  unfold clear_timers. revert tm.
  induction pending as [|e pending IH]; simpl; intros tm H.
  - split; [exact H|intros e []].
  - apply IH in H. destruct H as (I & F). split.
    + eapply keys_delete_In; [apply nat_eqb_reflect|exact I].
    + intros e' [<-|I']; [|now apply F].
      intros E. subst t.
      apply (proj1 (map_get_None_keys Nat.eqb nat_eqb_reflect _ _)
                   (map_get_delete_eq Nat.eqb nat_eqb_reflect (timer (snd e)) tm)).
      exact I.
Qed.

Lemma clear_timers_all pending tm counter next :
  wf_parts pending tm counter next -> clear_timers pending tm = [].
Proof.
  intros (W1 & W2 & W3).
  destruct (clear_timers pending tm) as [|[t cb] rest] eqn:E; [reflexivity|].
  exfalso.
  assert (I : In t (keys (clear_timers pending tm))) by (rewrite E; now left).
  apply clear_timers_keys in I. destruct I as (I & F).
  destruct (map_get Nat.eqb t tm) as [cb0|] eqn:G.
  - destruct (W2 _ _ G) as (_ & B).
    apply (map_get_In Z.eqb Z_eqb_reflect) in B.
    apply F in B. simpl in B. congruence.
  - apply (map_get_None_keys Nat.eqb nat_eqb_reflect) in G. contradiction.
Qed.

Lemma wf_step e s : wf s -> wf (fst (step e s)).
Proof.
  intros W. unfold wf in *.
  destruct e as [|ws data|ws|ws|ws|t|ms|action params timeout]; simpl.
  - eapply wf_parts_next; [|exact W]. lia.
  - destruct (live ws s); [|exact W].
    unfold on_message.
    destruct data as [msg|]; [|exact W].
    destruct (prop msg "type") as [[| | | |ty| |]|]; try exact W.
    destruct (prop msg "id") as [id|]; [|exact W].
    destruct (prop msg "result") as [result|]; [|exact W].
    destruct (_ && _); [|exact W].
    destruct (as_integer id) as [k|]; [|exact W].
    destruct (map_get Z.eqb k (pendingCommands s)) as [pc|] eqn:G; [|exact W].
    simpl. now apply wf_parts_remove.
  - destruct (readyState ws s) as [[]|]; exact W.
  - destruct (live ws s); [|exact W]. simpl.
    rewrite (clear_timers_all _ _ _ _ W).
    repeat split; try discriminate. constructor.
  - exact W.
  - destruct (map_get Nat.eqb t (timers s)) as [cb|] eqn:G; [|exact W].
    destruct (cb_due cb <=? now s); [|exact W]. simpl.
    destruct W as (W1 & W2 & W3). destruct (W2 _ _ G) as (_ & B).
    change t with (timer {| promise := cb_promise cb; timer := t |}) at 1.
    apply wf_parts_remove; [exact (conj W1 (conj W2 W3))|exact B].
  - exact W.
  - unfold sendCommandToSim.
    destruct (simulationSocket s) as [ws|].
    + destruct (readyState ws s) as [[]|]; simpl;
        try (eapply wf_parts_next; [|exact W]; lia).
      now apply wf_parts_add.
    + simpl. eapply wf_parts_next; [|exact W]. lia.
Qed.

Lemma run_cons e evs s :
  run (e :: evs) s =
    (fst (run evs (fst (step e s))),
     stamp s (snd (step e s)) ++ snd (run evs (fst (step e s)))).
Proof.
  simpl. destruct (step e s) as [s1 effs]. simpl.
  destruct (run evs s1) as [s2 log]. reflexivity.
Qed.

Lemma run_app evs1 evs2 s :
  run (evs1 ++ evs2) s =
    (fst (run evs2 (fst (run evs1 s))),
     snd (run evs1 s) ++ snd (run evs2 (fst (run evs1 s)))).
Proof.
  revert s. induction evs1 as [|e evs1 IH]; intros s.
  - simpl. now destruct (run evs2 s).
  - rewrite <- app_comm_cons, !run_cons, IH. simpl. now rewrite app_assoc.
Qed.

Lemma wf_run evs s : wf s -> wf (fst (run evs s)).
Proof.
  revert s. induction evs as [|e evs IH]; intros s W; [exact W|].
  rewrite run_cons. simpl. apply IH. now apply wf_step.
Qed.

(** *** Correlation ids *)

Lemma as_integer_JInt k : as_integer (JInt k) = Some k.
Proof.
  unfold as_integer, JInt, inject_Z; simpl.
  now rewrite Z.mod_1_r, Z.div_1_r.
Qed.

Lemma frame_id_command ws id action params :
  frame_id (WsSend ws (command_frame id action params)) = [id].
Proof.
  unfold frame_id.
  change (get "id" (command_frame id action params)) with (JInt id).
  now rewrite as_integer_JInt.
Qed.

Lemma allocated_ids_app l1 l2 :
  allocated_ids (l1 ++ l2) = allocated_ids l1 ++ allocated_ids l2.
Proof. unfold allocated_ids. apply flat_map_app. Qed.

Lemma allocated_ids_reject_all s pending :
  allocated_ids (stamp s (reject_all pending)) = [].
Proof. induction pending as [|e pending IH]; simpl; auto. Qed.

Lemma step_ids e s :
  (allocated_ids (stamp s (snd (step e s))) = [] /\
   commandIdCounter (fst (step e s)) = commandIdCounter s) \/
  (allocated_ids (stamp s (snd (step e s))) = [commandIdCounter s] /\
   commandIdCounter (fst (step e s)) = commandIdCounter s + 1).
Proof.
  destruct e as [|ws data|ws|ws|ws|t|ms|action params timeout]; simpl.
  - now left.
  - left. destruct (live ws s); [|now split].
    unfold on_message.
    destruct data as [msg|]; [|now split].
    destruct (prop msg "type") as [[| | | |ty| |]|]; try now split.
    destruct (prop msg "id") as [id|]; [|now split].
    destruct (prop msg "result") as [result|]; [|now split].
    destruct (_ && _); [|now split].
    destruct (as_integer id) as [k|]; [|now split].
    destruct (map_get Z.eqb k (pendingCommands s)); now split.
  - left. destruct (readyState ws s) as [[]|]; now split.
  - left. destruct (live ws s); [|now split]. simpl.
    split; [apply allocated_ids_reject_all|reflexivity].
  - now left.
  - left. destruct (map_get Nat.eqb t (timers s)) as [cb|]; [|now split].
    destruct (cb_due cb <=? now s); now split.
  - now left.
  - unfold sendCommandToSim.
    destruct (simulationSocket s) as [ws|]; [|now left].
    destruct (readyState ws s) as [[]|]; try now left.
    right. unfold allocated_ids, stamp. cbn [map flat_map snd fst app].
    rewrite frame_id_command. split; reflexivity.
Qed.

Lemma ids_sorted evs : forall s,
  StronglySorted Z.lt (allocated_ids (snd (run evs s))) /\
  Forall (fun k => commandIdCounter s <= k < commandIdCounter (fst (run evs s)))
         (allocated_ids (snd (run evs s))) /\
  commandIdCounter s <= commandIdCounter (fst (run evs s)).
Proof.
  induction evs as [|e evs IH]; intros s.
  - simpl. repeat split; try constructor. lia.
  - rewrite run_cons. cbn [fst snd]. rewrite allocated_ids_app.
    destruct (IH (fst (step e s))) as (S1 & F1 & L1).
    destruct (step_ids e s) as [(E & C)|(E & C)]; rewrite E, C in *; simpl.
    + auto.
    + repeat split; try lia.
      * constructor; [exact S1|].
        eapply Forall_impl; [|exact F1]. simpl. intros; lia.
      * constructor; [lia|].
        eapply Forall_impl; [|exact F1]. simpl. intros; lia.
Qed.

Lemma sorted_NoDup (l : list Z) : StronglySorted Z.lt l -> NoDup l.
Proof.
  induction 1 as [|a l S IH F]; constructor; auto.
  intros I. rewrite Forall_forall in F. apply F in I. lia.
Qed.

(** C9: the correlation ids written to the wire during any run of the
    relay, from any state, are strictly increasing, hence never reused,
    and lie between the counter before and the counter after the run,
    whatever connections, timeouts and disconnects the run contains. *)
Theorem correlation_ids_strictly_increasing (evs : list Event) (s : State) :
  StronglySorted Z.lt (allocated_ids (snd (run evs s))) /\
  NoDup (allocated_ids (snd (run evs s))) /\
  Forall (fun k => commandIdCounter s <= k < commandIdCounter (fst (run evs s)))
         (allocated_ids (snd (run evs s))).
Proof.
  destruct (ids_sorted evs s) as (S1 & F1 & _).
  split; [exact S1|]. split; [|exact F1].
  now apply sorted_NoDup.
Qed.

(** *** Sending while not connected *)

(** C10: with no socket stored, or with a stored socket whose readyState is
    not OPEN, sendCommandToSim rejects the promise it returns at once with
    the not-connected error and leaves the relay as it was: no id is
    allocated, no timer armed, nothing added to the pending table. *)
Theorem sendCommandToSim_not_connected
    (action : string) (params : JsVal) (timeout : Z) (s : State) :
  (simulationSocket s = None \/
   exists ws, simulationSocket s = Some ws /\ readyState ws s <> Some OPEN) ->
  snd (sendCommandToSim action params timeout s)
    = [Reject (nextObject s) NOT_CONNECTED] /\
  simulationSocket (fst (sendCommandToSim action params timeout s))
    = simulationSocket s /\
  pendingCommands (fst (sendCommandToSim action params timeout s))
    = pendingCommands s /\
  commandIdCounter (fst (sendCommandToSim action params timeout s))
    = commandIdCounter s /\
  timers (fst (sendCommandToSim action params timeout s)) = timers s /\
  sockets (fst (sendCommandToSim action params timeout s)) = sockets s.
Proof.
  intros H. unfold sendCommandToSim.
  destruct H as [E|(ws & E & R)]; rewrite E.
  - simpl. repeat split.
  - destruct (readyState ws s) as [[]|]; simpl; try (repeat split; fail).
    now contradiction R.
Qed.

(** A relay whose registered socket has started closing. *)
Definition closing_relay : State := fst (run [Connection; WsClosing 0%nat] init).

Lemma sendCommandToSim_not_connected_witness :
  snd (sendCommandToSim "move_base" (JObj []) 30000 closing_relay)
    = [Reject (nextObject closing_relay) NOT_CONNECTED] /\
  simulationSocket (fst (sendCommandToSim "move_base" (JObj []) 30000 closing_relay))
    = simulationSocket closing_relay /\
  pendingCommands (fst (sendCommandToSim "move_base" (JObj []) 30000 closing_relay))
    = pendingCommands closing_relay /\
  commandIdCounter (fst (sendCommandToSim "move_base" (JObj []) 30000 closing_relay))
    = commandIdCounter closing_relay /\
  timers (fst (sendCommandToSim "move_base" (JObj []) 30000 closing_relay))
    = timers closing_relay /\
  sockets (fst (sendCommandToSim "move_base" (JObj []) 30000 closing_relay))
    = sockets closing_relay.
Proof.
  apply (sendCommandToSim_not_connected "move_base" (JObj []) 30000 closing_relay).
  right. exists 0%nat. split; [reflexivity|]. vm_compute. discriminate.
Defined.

(** *** Settlements *)

(** No entry of the pending table holds promise [p]. *)
Definition gone (p : nat) (s : State) : Prop :=
  forall k pc, map_get Z.eqb k (pendingCommands s) = Some pc -> promise pc <> p.

Definition promise_of (e : Z * PendingCommand) : nat := promise (snd e).

Definition is_settlement (e : Effect) : bool :=
  match e with
  | Resolve _ _ | Reject _ _ => true
  | _ => false
  end.

(** The registered socket, if any, has not been closed. *)
Definition registered_live (s : State) : Prop :=
  forall ws, simulationSocket s = Some ws -> live ws s = true.

Lemma map_get_delete_Some k k' (pc : PendingCommand) m :
  map_get Z.eqb k' (map_delete Z.eqb k m) = Some pc ->
  k' <> k /\ map_get Z.eqb k' m = Some pc.
Proof.
  intros G. destruct (Z.eq_dec k' k) as [->|N].
  - rewrite (map_get_delete_eq Z.eqb Z_eqb_reflect) in G. discriminate.
  - rewrite (map_get_delete_neq Z.eqb Z_eqb_reflect) in G by exact N. now split.
Qed.

Lemma promise_unique pending tm counter next k1 k2 pc1 pc2 :
  wf_parts pending tm counter next ->
  map_get Z.eqb k1 pending = Some pc1 -> map_get Z.eqb k2 pending = Some pc2 ->
  promise pc1 = promise pc2 -> k1 = k2.
Proof.
  intros (W1 & W2 & W3) G1 G2 E.
  destruct (W1 _ _ G1) as (_ & T1 & _ & cb1 & C1 & I1 & _).
  destruct (W1 _ _ G2) as (_ & T2 & _ & cb2 & C2 & I2 & _).
  rewrite T1, E, <- T2 in C1. rewrite C1 in C2. inversion C2. congruence.
Qed.

Lemma promises_NoDup pending tm counter next :
  wf_parts pending tm counter next -> NoDup (map promise_of pending).
Proof.
  intros W. pose proof W as (W1 & W2 & W3).
  apply NoDup_map_NoDup_ForallPairs; [|eapply NoDup_map_inv; exact W3].
  intros [k1 pc1] [k2 pc2] I1 I2 E. unfold promise_of in E; simpl in E.
  apply (In_map_get Z.eqb Z_eqb_reflect _ _ _ W3) in I1, I2.
  assert (k1 = k2) by (eapply promise_unique; eauto). subst k2.
  congruence.
Qed.

Lemma settles_reject_all_none p pending :
  ~ In p (map promise_of pending) ->
  filter (settles p) (reject_all pending) = [].
Proof.
  induction pending as [|e pending IH]; simpl; intros H; [reflexivity|].
  destruct (Nat.eqb_spec (promise (snd e)) p) as [E|N].
  - exfalso. apply H. now left.
  - apply IH. intros I. apply H. now right.
Qed.

Lemma settles_reject_all_one p pending :
  NoDup (map promise_of pending) -> In p (map promise_of pending) ->
  filter (settles p) (reject_all pending) = [Reject p DISCONNECTED].
Proof.
  induction pending as [|e pending IH]; simpl; intros ND I; [contradiction|].
  inversion ND as [|? ? NI ND']; subst.
  destruct (Nat.eqb_spec (promise (snd e)) p) as [E|N].
  - unfold promise_of in NI. rewrite E in *.
    now rewrite settles_reject_all_none.
  - destruct I as [E|I]; [contradiction|]. now apply IH.
Qed.

Lemma reject_all_count pending :
  List.length (filter is_settlement (reject_all pending)) = List.length pending.
Proof. induction pending as [|e pending IH]; simpl; congruence. Qed.

Lemma reject_all_clears e pending :
  In e pending ->
  In (ClearTimeout (timer (snd e))) (reject_all pending) /\
  In (Reject (promise (snd e)) DISCONNECTED) (reject_all pending).
Proof.
  induction pending as [|e' pending IH]; simpl; [contradiction|].
  intros [->|I]; [now auto|]. destruct (IH I). auto.
Qed.

Lemma gone_In p s :
  gone p s -> NoDup (keys (pendingCommands s)) ->
  ~ In p (map promise_of (pendingCommands s)).
Proof.
  intros G ND I. apply in_map_iff in I. destruct I as ([k pc] & E & I).
  apply (In_map_get Z.eqb Z_eqb_reflect _ _ _ ND) in I.
  now apply G in I.
Qed.

Lemma nextObject_mono e s : (nextObject s <= nextObject (fst (step e s)))%nat.
Proof.
  destruct e as [|ws data|ws|ws|ws|t|ms|action params timeout]; simpl; try (simpl; lia).
  - destruct (live ws s); [|simpl; lia]. unfold on_message.
    destruct data as [msg|]; [|simpl; lia].
    destruct (prop msg "type") as [[| | | |ty| |]|]; try (simpl; lia).
    destruct (prop msg "id") as [id|]; [|simpl; lia].
    destruct (prop msg "result") as [result|]; [|simpl; lia].
    destruct (_ && _); [|simpl; lia].
    destruct (as_integer id) as [k|]; [|simpl; lia].
    destruct (map_get Z.eqb k (pendingCommands s)); simpl; lia.
  - destruct (readyState ws s) as [[]|]; simpl; lia.
  - destruct (live ws s); simpl; lia.
  - destruct (map_get Nat.eqb t (timers s)) as [cb|]; [|simpl; lia].
    destruct (cb_due cb <=? now s); simpl; lia.
  - unfold sendCommandToSim. destruct (simulationSocket s) as [ws|]; [|simpl; lia].
    destruct (readyState ws s) as [[]|]; simpl; lia.
Qed.

Lemma step_gone e s p :
  wf s -> (p < nextObject s)%nat -> gone p s ->
  filter (settles p) (snd (step e s)) = [] /\ gone p (fst (step e s)).
Proof.
  intros W L G. pose proof W as (W1 & W2 & W3).
  destruct e as [|ws data|ws|ws|ws|t|ms|action params timeout]; simpl.
  - now split.
  - destruct (live ws s); [|now split]. unfold on_message.
    destruct data as [msg|]; [|now split].
    destruct (prop msg "type") as [[| | | |ty| |]|]; try now split.
    destruct (prop msg "id") as [id|]; [|now split].
    destruct (prop msg "result") as [result|]; [|now split].
    destruct (_ && _); [|now split].
    destruct (as_integer id) as [k|]; [|now split].
    destruct (map_get Z.eqb k (pendingCommands s)) as [pc|] eqn:Gk; [|now split].
    simpl. split.
    + destruct (Nat.eqb_spec (promise pc) p) as [E|N]; [|reflexivity].
      now apply G in Gk.
    + intros k' pc' G'. apply map_get_delete_Some in G'. now apply (G k').
  - destruct (readyState ws s) as [[]|]; now split.
  - destruct (live ws s); [|now split]. simpl. split.
    + apply settles_reject_all_none. now apply gone_In.
    + intros k pc. discriminate.
  - now split.
  - destruct (map_get Nat.eqb t (timers s)) as [cb|] eqn:Gt; [|now split].
    destruct (cb_due cb <=? now s); [|now split]. simpl.
    destruct (W2 _ _ Gt) as (_ & B). split.
    + destruct (Nat.eqb_spec (cb_promise cb) p) as [E|N]; [|reflexivity].
      now apply G in B.
    + intros k' pc' G'. apply map_get_delete_Some in G'. now apply (G k').
  - now split.
  - unfold sendCommandToSim.
    assert (NE : Nat.eqb (nextObject s) p = false) by (apply Nat.eqb_neq; lia).
    destruct (simulationSocket s) as [ws|]; [|simpl; now rewrite NE].
    destruct (readyState ws s) as [[]|]; simpl; try (now rewrite NE).
    split; [reflexivity|].
    intros k pc G'. simpl in G'.
    destruct (Z.eq_dec k (commandIdCounter s)) as [->|N].
    + rewrite (map_get_set_eq Z.eqb Z_eqb_reflect) in G'.
      inversion G'; subst pc; simpl. lia.
    + rewrite (map_get_set_neq Z.eqb Z_eqb_reflect) in G' by exact N.
      now apply (G k).
Qed.

Lemma settlements_app p l1 l2 :
  settlements p (l1 ++ l2) = settlements p l1 ++ settlements p l2.
Proof. unfold settlements. apply filter_app. Qed.

Lemma settlements_stamp p s effs :
  settlements p (stamp s effs) = stamp s (filter (settles p) effs).
Proof.
  unfold settlements, stamp.
  induction effs as [|e effs IH]; simpl; [reflexivity|].
  destruct (settles p e); simpl; now rewrite IH.
Qed.

Lemma run_gone p evs : forall s,
  wf s -> (p < nextObject s)%nat -> gone p s ->
  settlements p (snd (run evs s)) = [].
Proof.
  induction evs as [|e evs IH]; intros s W L G; [reflexivity|].
  rewrite run_cons. cbn [snd]. rewrite settlements_app, settlements_stamp.
  destruct (step_gone e s p W L G) as (E & G').
  rewrite E. simpl. apply IH; auto using wf_step.
  pose proof (nextObject_mono e s). lia.
Qed.

Lemma step_once e s p :
  wf s -> (p < nextObject s)%nat ->
  filter (settles p) (snd (step e s)) = [] \/
  exists eff, filter (settles p) (snd (step e s)) = [eff] /\
              gone p (fst (step e s)).
Proof.
  intros W L. pose proof W as (W1 & W2 & W3).
  destruct e as [|ws data|ws|ws|ws|t|ms|action params timeout]; simpl.
  - now left.
  - destruct (live ws s); [|now left]. unfold on_message.
    destruct data as [msg|]; [|now left].
    destruct (prop msg "type") as [[| | | |ty| |]|]; try now left.
    destruct (prop msg "id") as [id|]; [|now left].
    destruct (prop msg "result") as [result|]; [|now left].
    destruct (_ && _); [|now left].
    destruct (as_integer id) as [k|]; [|now left].
    destruct (map_get Z.eqb k (pendingCommands s)) as [pc|] eqn:Gk; [|now left].
    simpl. destruct (Nat.eqb_spec (promise pc) p) as [E|N]; [|now left].
    right. eexists. split; [reflexivity|].
    intros k' pc' G' E'. apply map_get_delete_Some in G'. destruct G' as (N & G').
    apply N. eapply promise_unique; eauto. congruence.
  - destruct (readyState ws s) as [[]|]; now left.
  - destruct (live ws s); [|now left]. simpl.
    destruct (in_dec Nat.eq_dec p (map promise_of (pendingCommands s))) as [I|NI].
    + right. eexists. split.
      * apply settles_reject_all_one; [eapply promises_NoDup; exact W|exact I].
      * intros k pc. discriminate.
    + left. now apply settles_reject_all_none.
  - now left.
  - destruct (map_get Nat.eqb t (timers s)) as [cb|] eqn:Gt; [|now left].
    destruct (cb_due cb <=? now s); [|now left]. simpl.
    destruct (W2 _ _ Gt) as (_ & B).
    destruct (Nat.eqb_spec (cb_promise cb) p) as [E|N]; [|now left].
    right. eexists. split; [reflexivity|].
    intros k' pc' G' E'. apply map_get_delete_Some in G'. destruct G' as (N & G').
    apply N. eapply promise_unique; eauto. simpl. congruence.
  - now left.
  - left. unfold sendCommandToSim.
    assert (NE : Nat.eqb (nextObject s) p = false) by (apply Nat.eqb_neq; lia).
    destruct (simulationSocket s) as [ws|]; [|simpl; now rewrite NE].
    destruct (readyState ws s) as [[]|]; simpl; try (now rewrite NE).
    reflexivity.
Qed.

(** In any run, a promise is settled at most once. *)
Lemma settled_at_most_once p evs : forall s,
  wf s -> (p < nextObject s)%nat ->
  (List.length (settlements p (snd (run evs s))) <= 1)%nat.
Proof.
  induction evs as [|e evs IH]; intros s W L; [simpl; lia|].
  rewrite run_cons. cbn [snd]. rewrite settlements_app, settlements_stamp.
  pose proof (nextObject_mono e s) as M.
  destruct (step_once e s p W L) as [E|(eff & E & G)]; rewrite E.
  - simpl. apply IH; [now apply wf_step|lia].
  - rewrite run_gone; [simpl; lia|now apply wf_step|lia|exact G].
Qed.

Lemma pending_promise_allocated s k pc :
  wf s -> map_get Z.eqb k (pendingCommands s) = Some pc ->
  (promise pc < nextObject s)%nat.
Proof.
  intros (W1 & _) G. destruct (W1 _ _ G) as (_ & T & L & _). lia.
Qed.

(** A promise that is not allocated yet is settled by no event except the
    [sendCommandToSim] that allocates it and rejects it at once. *)
Lemma step_future e s p :
  wf s -> (nextObject s <= p)%nat ->
  filter (settles p) (snd (step e s)) = [] \/
  exists eff, filter (settles p) (snd (step e s)) = [eff] /\
              gone p (fst (step e s)) /\ (p < nextObject (fst (step e s)))%nat.
Proof.
  intros W L. pose proof W as (W1 & W2 & W3).
  assert (G : gone p s).
  { intros k pc Gk E. pose proof (pending_promise_allocated s k pc W Gk). lia. }
  destruct e as [|ws data|ws|ws|ws|t|ms|action params timeout];
    try (left; apply (step_gone _ s p W); [|exact G]; fail).
  - now left.
  - left. simpl. destruct (live ws s); [|reflexivity]. unfold on_message.
    destruct data as [msg|]; [|reflexivity].
    destruct (prop msg "type") as [[| | | |ty| |]|]; try reflexivity.
    destruct (prop msg "id") as [id|]; [|reflexivity].
    destruct (prop msg "result") as [result|]; [|reflexivity].
    destruct (_ && _); [|reflexivity].
    destruct (as_integer id) as [k|]; [|reflexivity].
    destruct (map_get Z.eqb k (pendingCommands s)) as [pc|] eqn:Gk; [|reflexivity].
    simpl. destruct (Nat.eqb_spec (promise pc) p); [|reflexivity].
    now apply G in Gk.
  - left. simpl. destruct (readyState ws s) as [[]|]; reflexivity.
  - left. simpl. destruct (live ws s); [|reflexivity]. simpl.
    apply settles_reject_all_none. now apply gone_In.
  - now left.
  - left. simpl.
    destruct (map_get Nat.eqb t (timers s)) as [cb|] eqn:Gt; [|reflexivity].
    destruct (cb_due cb <=? now s); [|reflexivity]. simpl.
    destruct (W2 _ _ Gt) as (_ & B).
    destruct (Nat.eqb_spec (cb_promise cb) p); [|reflexivity].
    now apply G in B.
  - now left.
  - simpl. unfold sendCommandToSim.
    destruct (simulationSocket s) as [ws|].
    + destruct (readyState ws s) as [[]|]; simpl; try (now left);
        (destruct (Nat.eqb_spec (nextObject s) p) as [E|N]; [|now left]);
        right; eexists; (split; [reflexivity|]); (split; [exact G|simpl; lia]).
    + simpl. destruct (Nat.eqb_spec (nextObject s) p) as [E|N]; [|now left].
      right. eexists. split; [reflexivity|]. split; [exact G|simpl; lia].
Qed.

(** In any run from a state the relay can be in, every promise is settled
    at most once. *)
Lemma never_settled_twice p evs : forall s,
  wf s -> (List.length (settlements p (snd (run evs s))) <= 1)%nat.
Proof.
  induction evs as [|e evs IH]; intros s W; [simpl; lia|].
  destruct (lt_dec p (nextObject s)) as [L|L].
  { now apply settled_at_most_once. }
  rewrite run_cons. cbn [snd]. rewrite settlements_app, settlements_stamp.
  destruct (step_future e s p W) as [E|(eff & E & G & L')]; [lia| |]; rewrite E.
  - simpl. apply IH. now apply wf_step.
  - rewrite run_gone; [simpl; lia|now apply wf_step|exact L'|exact G].
Qed.

Lemma registered_live_same s s' :
  simulationSocket s' = simulationSocket s -> sockets s' = sockets s ->
  registered_live s -> registered_live s'.
Proof.
  unfold registered_live, live, readyState. intros E1 E2 R ws.
  rewrite E1, E2. apply R.
Qed.

Lemma registered_live_step e s :
  registered_live s -> registered_live (fst (step e s)).
Proof.
  intros R.
  destruct e as [|ws data|ws|ws|ws|t|ms|action params timeout]; simpl.
  - intros ws E. simpl in E. inversion E; subst.
    unfold live, readyState; simpl.
    now rewrite (map_get_set_eq Nat.eqb nat_eqb_reflect).
  - destruct (live ws s); [|exact R]. unfold on_message.
    destruct data as [msg|]; [|exact R].
    destruct (prop msg "type") as [[| | | |ty| |]|]; try exact R.
    destruct (prop msg "id") as [id|]; [|exact R].
    destruct (prop msg "result") as [result|]; [|exact R].
    destruct (_ && _); [|exact R].
    destruct (as_integer id) as [k|]; [|exact R].
    destruct (map_get Z.eqb k (pendingCommands s)); [|exact R].
    now apply (registered_live_same s).
  - destruct (readyState ws s) as [[]|] eqn:G; try exact R.
    simpl. intros ws' E. simpl in E. apply R in E.
    unfold live, readyState in *; simpl.
    destruct (Nat.eq_dec ws' ws) as [->|N].
    + now rewrite (map_get_set_eq Nat.eqb nat_eqb_reflect).
    + now rewrite (map_get_set_neq Nat.eqb nat_eqb_reflect) by exact N.
  - destruct (live ws s); [|exact R].
    simpl. intros ws' E. simpl in E.
    destruct (simulationSocket s) as [cur|] eqn:C; [|discriminate].
    destruct (Nat.eqb_spec cur ws) as [->|N]; [discriminate|].
    inversion E; subst. apply R in C.
    unfold live, readyState in *; simpl.
    now rewrite (map_get_set_neq Nat.eqb nat_eqb_reflect) by exact N.
  - exact R.
  - destruct (map_get Nat.eqb t (timers s)) as [cb|]; [|exact R].
    destruct (cb_due cb <=? now s); [|exact R].
    now apply (registered_live_same s).
  - now apply (registered_live_same s).
  - unfold sendCommandToSim. destruct (simulationSocket s) as [ws|] eqn:C.
    + destruct (readyState ws s) as [[]|]; now apply (registered_live_same s).
    + now apply (registered_live_same s).
Qed.

Lemma registered_live_run evs : forall s,
  registered_live s -> registered_live (fst (run evs s)).
Proof.
  induction evs as [|e evs IH]; intros s R; [exact R|].
  rewrite run_cons. simpl. apply IH. now apply registered_live_step.
Qed.

Lemma registered_live_init : registered_live init.
Proof. intros ws. discriminate. Qed.

(** *** Connection replacement and close *)

(** Two sockets have connected, the second replacing the first as the
    registered one, and one command has been sent (over the second). *)
Definition replaced_relay : State :=
  fst (run [Connection; Connection; SendCommand "move_base" (JObj []) 30000] init).

(** C1 fails as stated: the close of the replaced socket 0, while socket 1
    is the registered one, rejects the pending command and empties the
    table. *)
Lemma stale_close_rejects_pending :
  simulationSocket replaced_relay = Some 1%nat /\
  live 0%nat replaced_relay = true /\
  snd (run [Connection; Connection; SendCommand "move_base" (JObj []) 30000] init)
    = [(0, SetTimeout 3 30000);
       (0, WsSend 1 (command_frame 0 "move_base" (JObj [])))] /\
  pendingCommands replaced_relay = [(0, {| promise := 2; timer := 3 |})] /\
  snd (step (WsClose 0%nat) replaced_relay)
    = [ClearTimeout 3; Reject 2 DISCONNECTED] /\
  pendingCommands (fst (step (WsClose 0%nat) replaced_relay)) = [] /\
  simulationSocket (fst (step (WsClose 0%nat) replaced_relay)) = Some 1%nat.
Proof.
  unfold replaced_relay. vm_compute. repeat split; reflexivity.
Qed.

Lemma timed_out_not_DISCONNECTED action timeout :
  timed_out action timeout <> DISCONNECTED.
Proof. unfold timed_out, DISCONNECTED. simpl. discriminate. Qed.

Lemma In_reject_all p msg pending :
  In (Reject p msg) (reject_all pending) -> msg = DISCONNECTED.
Proof.
  induction pending as [|e pending IH]; simpl; [contradiction|].
  intros [H|[H|H]]; [discriminate|congruence|auto].
Qed.

(** C1, amended: a new connection, replacing the registered one or not,
    settles nothing and leaves the pending table and the timers as they
    were; the close of any live socket, registered or not, rejects every
    pending waiter with the disconnect error and empties the table; and
    nothing but such a close rejects with the disconnect error. *)
Theorem connection_replace_and_close (s : State) :
  (snd (step Connection s) = [] /\
   pendingCommands (fst (step Connection s)) = pendingCommands s /\
   timers (fst (step Connection s)) = timers s /\
   simulationSocket (fst (step Connection s)) = Some (nextObject s)) /\
  (forall ws, live ws s = true ->
     pendingCommands (fst (step (WsClose ws) s)) = [] /\
     (forall k pc, In (k, pc) (pendingCommands s) ->
        In (Reject (promise pc) DISCONNECTED) (snd (step (WsClose ws) s))) /\
     List.length (filter is_settlement (snd (step (WsClose ws) s)))
       = List.length (pendingCommands s)) /\
  (forall e p, In (Reject p DISCONNECTED) (snd (step e s)) ->
     exists ws, e = WsClose ws /\ live ws s = true).
Proof.
  split; [|split].
  - simpl. repeat split.
  - intros ws Lv. simpl. rewrite Lv. simpl. split; [reflexivity|]. split.
    + intros k pc I. now apply (reject_all_clears (k, pc)).
    + apply reject_all_count.
  - intros e p I.
    destruct e as [|ws data|ws|ws|ws|t|ms|action params timeout]; simpl in I.
    + contradiction.
    + exfalso. destruct (live ws s); [|contradiction]. unfold on_message in I.
      destruct data as [msg|]; [|contradiction].
      destruct (prop msg "type") as [[| | | |ty| |]|]; try contradiction.
      destruct (prop msg "id") as [id|]; [|contradiction].
      destruct (prop msg "result") as [result|]; [|contradiction].
      destruct (_ && _); [|contradiction].
      destruct (as_integer id) as [k|]; [|contradiction].
      destruct (map_get Z.eqb k (pendingCommands s)); [|contradiction].
      destruct I as [H|[H|[]]]; discriminate.
    + exfalso. destruct (readyState ws s) as [[]|]; contradiction.
    + exists ws. destruct (live ws s); [now split|contradiction].
    + contradiction.
    + exfalso. destruct (map_get Nat.eqb t (timers s)) as [cb|]; [|contradiction].
      destruct (cb_due cb <=? now s); [|contradiction].
      destruct I as [H|[]].
      apply (timed_out_not_DISCONNECTED (cb_action cb) (cb_timeout cb)).
      exact (f_equal (fun e => match e with
                               | Reject _ m => m
                               | _ => EmptyString
                               end) H).
    + contradiction.
    + exfalso. unfold sendCommandToSim in I.
      destruct (simulationSocket s) as [ws|].
      * destruct (readyState ws s) as [[]|]; simpl in I;
          repeat (destruct I as [I|I]; try discriminate; try contradiction).
      * destruct I as [H|[]]. discriminate.
Qed.

Lemma connection_replace_and_close_witness :
  pendingCommands (fst (step (WsClose 0%nat) replaced_relay)) = [] /\
  In (Reject 2 DISCONNECTED) (snd (step (WsClose 0%nat) replaced_relay)).
Proof.
  destruct (connection_replace_and_close replaced_relay) as (_ & C & _).
  destruct (C 0%nat) as (E & R & _); [reflexivity|].
  split; [exact E|].
  apply (R 0 {| promise := 2; timer := 3 |}). now left.
Defined.

(** *** Close of the registered connection *)

(** C2: in any state the relay can reach, when the registered socket closes
    the pending table and the set of armed timers are empty afterwards and
    no socket is registered; each of the K waiters that were pending is
    rejected with the disconnect error exactly once by the handler, its
    timer having been armed and now cancelled; the handler settles exactly
    K promises; and in the whole run, before and after, that rejection is
    the only settlement of each of them. *)
Theorem registered_close_rejects_all (evs : list Event) (ws : nat) :
  simulationSocket (fst (run evs init)) = Some ws ->
  live ws (fst (run evs init)) = true /\
  pendingCommands (fst (step (WsClose ws) (fst (run evs init)))) = [] /\
  timers (fst (step (WsClose ws) (fst (run evs init)))) = [] /\
  simulationSocket (fst (step (WsClose ws) (fst (run evs init)))) = None /\
  List.length (filter is_settlement (snd (step (WsClose ws) (fst (run evs init)))))
    = List.length (pendingCommands (fst (run evs init))) /\
  (forall k pc, In (k, pc) (pendingCommands (fst (run evs init))) ->
     filter (settles (promise pc)) (snd (step (WsClose ws) (fst (run evs init))))
       = [Reject (promise pc) DISCONNECTED] /\
     map_get Nat.eqb (timer pc) (timers (fst (run evs init))) <> None /\
     In (ClearTimeout (timer pc)) (snd (step (WsClose ws) (fst (run evs init)))) /\
     forall later,
       settlements (promise pc) (snd (run (evs ++ WsClose ws :: later) init))
         = [(now (fst (run evs init)), Reject (promise pc) DISCONNECTED)]).
Proof.
  intros Reg.
  set (s := fst (run evs init)) in *.
  assert (W : wf s) by (apply wf_run, wf_init).
  assert (Lv : live ws s = true)
    by (apply (registered_live_run evs init registered_live_init), Reg).
  split; [exact Lv|].
  pose proof (wf_step (WsClose ws) s W) as W'.
  simpl in *. rewrite Lv in *. simpl in *.
  split; [reflexivity|]. split; [eapply clear_timers_all; exact W|].
  split; [rewrite Reg, Nat.eqb_refl; reflexivity|].
  split; [apply reject_all_count|].
  intros k pc I. pose proof W as (W1 & W2 & W3).
  pose proof (In_map_get Z.eqb Z_eqb_reflect _ _ _ W3 I) as G.
  destruct (W1 _ _ G) as (_ & T & Lt & cb & C & _).
  split; [|split; [|split]].
  - apply settles_reject_all_one; [eapply promises_NoDup; exact W|].
    apply in_map_iff. now exists (k, pc).
  - congruence.
  - now apply (reject_all_clears (k, pc)).
  - intros later.
    pose proof (never_settled_twice (promise pc) (evs ++ WsClose ws :: later)
                  init wf_init) as Once.
    rewrite run_app, run_cons in *. cbn [fst snd] in *. fold s in Once |- *.
    rewrite !settlements_app, settlements_stamp in *.
    simpl in Once |- *. rewrite Lv in *. simpl in Once |- *.
    rewrite settles_reject_all_one in *;
      try (eapply promises_NoDup; exact W);
      try (apply in_map_iff; now exists (k, pc)).
    rewrite !length_app in Once. simpl in Once.
    destruct (settlements (promise pc) (snd (run evs init))); [|simpl in Once; lia].
    simpl.
    destruct (settlements (promise pc) _); [reflexivity|simpl in Once; lia].
Qed.

(** One socket connected, two commands pending on it. *)
Definition two_pending : list Event :=
  [Connection; SendCommand "move_base" (JObj []) 30000;
   SendCommand "navigate_to" (JObj []) 60000].

Lemma registered_close_rejects_all_witness :
  pendingCommands (fst (step (WsClose 0%nat) (fst (run two_pending init)))) = [] /\
  timers (fst (step (WsClose 0%nat) (fst (run two_pending init)))) = [] /\
  List.length (filter is_settlement
                 (snd (step (WsClose 0%nat) (fst (run two_pending init))))) = 2%nat.
Proof.
  destruct (registered_close_rejects_all two_pending 0%nat)
    as (_ & P & T & _ & K & _); [reflexivity|].
  split; [exact P|]. split; [exact T|exact K].
Defined.

(** *** Timeouts *)

(** The command with id [k], promise [p] and timer [S p] is in the pending
    table and its timer is armed. *)
Definition awaiting (k : Z) (p : nat) (action : string) (timeout due : Z)
    (s : State) : Prop :=
  map_get Z.eqb k (pendingCommands s) = Some {| promise := p; timer := S p |} /\
  map_get Nat.eqb (S p) (timers s) =
    Some {| cb_id := k; cb_promise := p; cb_action := action;
            cb_timeout := timeout; cb_due := due |}.

(** Neither a close nor a frame carrying id [k]. *)
Definition quiet (k : Z) (e : Event) : bool :=
  negb (is_close e) && negb (carries_id k e).

Lemma step_awaiting e s k p action timeout due :
  wf s -> awaiting k p action timeout due s -> quiet k e = true ->
  (filter (settles p) (snd (step e s)) = [] /\
   awaiting k p action timeout due (fst (step e s))) \/
  (due <= now s /\
   filter (settles p) (snd (step e s)) = [Reject p (timed_out action timeout)] /\
   gone p (fst (step e s))).
Proof.
  intros W A Q. pose proof A as (A1 & A2). pose proof W as (W1 & W2 & W3).
  apply andb_prop in Q. destruct Q as (NC & NR).
  apply negb_true_iff in NC, NR.
  destruct (W1 _ _ A1) as (Lk & _ & Lp & _). simpl in Lp.
  destruct e as [|ws data|ws|ws|ws|t|ms|action' params timeout']; simpl.
  - left. now split.
  - left. destruct (live ws s); [|now split]. unfold on_message.
    destruct data as [msg|]; [|now split]. simpl in NR.
    destruct (prop msg "type") as [[| | | |ty| |]|]; try now split.
    destruct (prop msg "id") as [id|]; [|now split].
    destruct (prop msg "result") as [result|]; [|now split].
    destruct (_ && _); [|now split].
    destruct (as_integer id) as [k'|]; [|now split].
    apply Z.eqb_neq in NR.
    destruct (map_get Z.eqb k' (pendingCommands s)) as [pc|] eqn:Gk; [|now split].
    assert (NP : promise pc <> p).
    { intros E. apply NR. eapply promise_unique; [exact W|exact Gk|exact A1|exact E]. }
    simpl. split.
    + destruct (Nat.eqb_spec (promise pc) p); [contradiction|reflexivity].
    + split; simpl.
      * now rewrite (map_get_delete_neq Z.eqb Z_eqb_reflect) by congruence.
      * destruct (W1 _ _ Gk) as (_ & T & _).
        rewrite (map_get_delete_neq Nat.eqb nat_eqb_reflect); [exact A2|lia].
  - left. destruct (readyState ws s) as [[]|]; now split.
  - discriminate.
  - left. now split.
  - destruct (map_get Nat.eqb t (timers s)) as [cb|] eqn:Gt; [|left; now split].
    destruct (cb_due cb <=? now s) eqn:D; [|left; now split]. simpl.
    destruct (W2 _ _ Gt) as (_ & B).
    destruct (Nat.eq_dec t (S p)) as [->|N].
    + rewrite A2 in Gt. inversion Gt; subst cb; simpl in *. right.
      split; [now apply Z.leb_le|]. split; [now rewrite Nat.eqb_refl|].
      intros k' pc' G' E. apply map_get_delete_Some in G'. destruct G' as (N & G').
      apply N. eapply promise_unique; [exact W|exact G'|exact A1|exact E].
    + left.
      assert (NP : cb_promise cb <> p).
      { intros E.
        assert (K : cb_id cb = k)
          by (eapply promise_unique; [exact W|exact B|exact A1|exact E]).
        rewrite K, A1 in B. inversion B. congruence. }
      assert (NK : k <> cb_id cb).
      { intros E. rewrite <- E, A1 in B. inversion B. congruence. }
      split.
      * destruct (Nat.eqb_spec (cb_promise cb) p); [contradiction|reflexivity].
      * split; simpl.
        -- now rewrite (map_get_delete_neq Z.eqb Z_eqb_reflect) by exact NK.
        -- rewrite (map_get_delete_neq Nat.eqb nat_eqb_reflect); [exact A2|congruence].
  - left. now split.
  - left. unfold sendCommandToSim.
    assert (NE : Nat.eqb (nextObject s) p = false) by (apply Nat.eqb_neq; lia).
    destruct (simulationSocket s) as [ws|]; [|simpl; rewrite NE; now split].
    destruct (readyState ws s) as [[]|]; simpl; try (rewrite NE; now split).
    split; [reflexivity|]. split; simpl.
    + rewrite (map_get_set_neq Z.eqb Z_eqb_reflect); [exact A1|lia].
    + rewrite (map_get_set_neq Nat.eqb nat_eqb_reflect); [exact A2|lia].
Qed.

Lemma run_awaiting k p action timeout due post : forall s,
  wf s -> awaiting k p action timeout due s ->
  forallb (quiet k) post = true ->
  (settlements p (snd (run post s)) = [] /\
   awaiting k p action timeout due (fst (run post s))) \/
  (exists t, settlements p (snd (run post s))
               = [(t, Reject p (timed_out action timeout))] /\ due <= t).
Proof.
  induction post as [|e post IH]; intros s W A Q; [left; now split|].
  simpl in Q. apply andb_prop in Q. destruct Q as (Qe & Q).
  rewrite run_cons. cbn [fst snd]. rewrite settlements_app, settlements_stamp.
  pose proof (wf_step e s W) as W'.
  destruct (step_awaiting e s k p action timeout due W A Qe)
    as [(E & A')|(D & E & G)]; rewrite E.
  - simpl. now apply IH.
  - right. exists (now s). split; [|exact D].
    rewrite run_gone; [reflexivity|exact W'| |exact G].
    destruct A as (A1 & _). destruct W as (W1 & _).
    destruct (W1 _ _ A1) as (_ & _ & Lp & _). simpl in Lp.
    pose proof (nextObject_mono e s). lia.
Qed.

Lemma timer_of_awaiting k p action timeout due s :
  awaiting k p action timeout due s ->
  (now s < due -> step (TimerFires (S p)) s = (s, [])) /\
  (due <= now s ->
   snd (step (TimerFires (S p)) s) = [Reject p (timed_out action timeout)] /\
   map_get Z.eqb k (pendingCommands (fst (step (TimerFires (S p)) s))) = None).
Proof.
  intros (A1 & A2). simpl. rewrite A2. simpl. split; intros H.
  - apply Z.leb_gt in H. now rewrite H.
  - apply Z.leb_le in H. rewrite H. simpl. split; [reflexivity|].
    apply (map_get_delete_eq Z.eqb Z_eqb_reflect).
Qed.

Lemma sendCommandToSim_awaiting action params timeout s :
  wf s -> connected s = true ->
  awaiting (commandIdCounter s) (nextObject s) action timeout (now s + timeout)
           (fst (sendCommandToSim action params timeout s)).
Proof.
  intros W C. unfold connected in C. unfold sendCommandToSim.
  destruct (simulationSocket s) as [ws|]; [|discriminate].
  destruct (readyState ws s) as [[]|]; try discriminate.
  split; simpl.
  - apply (map_get_set_eq Z.eqb Z_eqb_reflect).
  - apply (map_get_set_eq Nat.eqb nat_eqb_reflect).
Qed.

(** A frame whose id is not a key of the pending table is ignored. *)
Lemma unmatched_result_ignored s ws msg :
  (forall v j, prop msg "id" = Some v -> as_integer v = Some j ->
     map_get Z.eqb j (pendingCommands s) = None) ->
  step (WsMessage ws (Some msg)) s = (s, []).
Proof.
  intros H. simpl. destruct (live ws s); [|reflexivity]. unfold on_message.
  destruct (prop msg "type") as [[| | | |ty| |]|]; try reflexivity.
  destruct (prop msg "id") as [id|]; [|reflexivity].
  destruct (prop msg "result") as [result|]; [|reflexivity].
  destruct (_ && _); [|reflexivity].
  destruct (as_integer id) as [j|] eqn:E; [|reflexivity].
  now rewrite (H id j eq_refl E).
Qed.

Lemma never_issued_not_pending s j :
  wf s -> commandIdCounter s <= j -> map_get Z.eqb j (pendingCommands s) = None.
Proof.
  intros (W1 & _) L.
  destruct (map_get Z.eqb j (pendingCommands s)) as [pc|] eqn:G; [|reflexivity].
  apply W1 in G. lia.
Qed.

Lemma map_get_delete_None k j (m : list (Z * PendingCommand)) :
  map_get Z.eqb j m = None -> map_get Z.eqb j (map_delete Z.eqb k m) = None.
Proof.
  intros H. destruct (Z.eq_dec j k) as [->|N].
  - apply (map_get_delete_eq Z.eqb Z_eqb_reflect).
  - now rewrite (map_get_delete_neq Z.eqb Z_eqb_reflect) by exact N.
Qed.

Lemma settled_stays_out_step e s j :
  j < commandIdCounter s -> map_get Z.eqb j (pendingCommands s) = None ->
  map_get Z.eqb j (pendingCommands (fst (step e s))) = None.
Proof.
  intros L G.
  destruct e as [|ws data|ws|ws|ws|t|ms|action params timeout]; simpl; auto.
  - destruct (live ws s); [|exact G]. unfold on_message.
    destruct data as [msg|]; [|exact G].
    destruct (prop msg "type") as [[| | | |ty| |]|]; try exact G.
    destruct (prop msg "id") as [id|]; [|exact G].
    destruct (prop msg "result") as [result|]; [|exact G].
    destruct (_ && _); [|exact G].
    destruct (as_integer id) as [k|]; [|exact G].
    destruct (map_get Z.eqb k (pendingCommands s)); [|exact G].
    simpl. now apply map_get_delete_None.
  - destruct (readyState ws s) as [[]|]; exact G.
  - destruct (live ws s); [reflexivity|exact G].
  - destruct (map_get Nat.eqb t (timers s)) as [cb|]; [|exact G].
    destruct (cb_due cb <=? now s); [|exact G].
    simpl. now apply map_get_delete_None.
  - unfold sendCommandToSim. destruct (simulationSocket s) as [ws|]; [|exact G].
    destruct (readyState ws s) as [[]|]; simpl; try exact G.
    rewrite (map_get_set_neq Z.eqb Z_eqb_reflect); [exact G|lia].
Qed.

Lemma settled_stays_out evs j : forall s,
  j < commandIdCounter s -> map_get Z.eqb j (pendingCommands s) = None ->
  map_get Z.eqb j (pendingCommands (fst (run evs s))) = None.
Proof.
  induction evs as [|e evs IH]; intros s L G; [exact G|].
  rewrite run_cons. cbn [fst]. apply IH.
  - destruct (step_ids e s) as [(_ & C)|(_ & C)]; rewrite C; lia.
  - now apply settled_stays_out_step.
Qed.

(** One command sent, then the connection closes after 5 ms. *)
Definition dropped : list Event :=
  [Connection; SendCommand "move_base" (JObj []) 30000; Elapse 5; WsClose 0%nat].

(** C3 fails as stated: the result of the command never arrives, yet its
    future is settled after 5 ms, long before its 30000 ms have elapsed,
    and with the disconnect error rather than the timeout error. *)
Lemma disconnect_settles_before_timeout :
  forallb (fun e => negb (carries_id 0 e)) dropped = true /\
  snd (run [Connection; SendCommand "move_base" (JObj []) 30000] init)
    = [(0, SetTimeout 2 30000);
       (0, WsSend 0 (command_frame 0 "move_base" (JObj [])))] /\
  settlements 1 (snd (run dropped init)) = [(5, Reject 1 DISCONNECTED)] /\
  5 < 0 + 30000 /\
  DISCONNECTED <> timed_out "move_base" 30000.
Proof.
  split; [reflexivity|]. split; [reflexivity|]. split; [reflexivity|].
  split; [lia|]. intros E. now apply (timed_out_not_DISCONNECTED "move_base" 30000).
Qed.

(** C3, amended: take a command sent while connected, in any state the
    relay can reach, and any events after it among which no socket closes
    and no frame carries its id.  If its timeout is a whole number of
    milliseconds from 1 to 2^31 - 1, the delays the timer of the runtime
    takes as given, then either its promise is still unsettled, its
    timer does nothing before the timeout has elapsed and, run after
    that, rejects the promise with the timeout error naming the action
    and the timeout and removes the entry; or the promise has been
    settled exactly once, by that rejection, at a time not before the
    timeout elapsed.  Whatever events follow (closes and results
    included), the promise is never settled twice.  A command_result whose
    id is not a key of the pending table changes nothing and settles
    nothing; an id never issued is not a key, and an id that has left the
    table never becomes a key again. *)
Theorem timeout_rejects_exactly_once
    (pre post later : list Event) (action : string) (params : JsVal)
    (timeout : Z) :
  connected (fst (run pre init)) = true ->
  forallb (quiet (commandIdCounter (fst (run pre init)))) post = true ->
  let s0 := fst (run pre init) in
  let p := nextObject s0 in
  let s1 := fst (sendCommandToSim action params timeout s0) in
  let s2 := fst (run post s1) in
  (1 <= timeout <= TIMEOUT_MAX ->
   (settlements p (snd (run post s1)) = [] /\
    (now s2 < now s0 + timeout -> step (TimerFires (S p)) s2 = (s2, [])) /\
    (now s0 + timeout <= now s2 ->
     snd (step (TimerFires (S p)) s2) = [Reject p (timed_out action timeout)] /\
     map_get Z.eqb (commandIdCounter s0)
             (pendingCommands (fst (step (TimerFires (S p)) s2))) = None)) \/
   (exists t,
      settlements p (snd (run post s1))
        = [(t, Reject p (timed_out action timeout))] /\
      now s0 + timeout <= t)) /\
  (List.length (settlements p (snd (run (post ++ later) s1))) <= 1)%nat /\
  (forall ws msg,
     (forall v j, prop msg "id" = Some v -> as_integer v = Some j ->
        map_get Z.eqb j (pendingCommands s2) = None) ->
     step (WsMessage ws (Some msg)) s2 = (s2, [])) /\
  (forall j, commandIdCounter s2 <= j ->
     map_get Z.eqb j (pendingCommands s2) = None) /\
  (forall j, j < commandIdCounter s2 ->
     map_get Z.eqb j (pendingCommands s2) = None ->
     map_get Z.eqb j (pendingCommands (fst (run later s2))) = None).
Proof.
  intros C Q s0 p s1 s2.
  assert (W0 : wf s0) by (apply wf_run, wf_init).
  assert (W1 : wf s1) by (apply (wf_step (SendCommand action params timeout)), W0).
  assert (W2 : wf s2) by (apply wf_run, W1).
  pose proof (sendCommandToSim_awaiting action params timeout s0 W0 C) as A.
  fold s1 p in A.
  split; [|split; [|split; [|split]]].
  - intros _.
    destruct (run_awaiting _ _ _ _ _ post s1 W1 A Q) as [(E & A')|(t & E & D)].
    + left. split; [exact E|]. now apply timer_of_awaiting.
    + right. now exists t.
  - apply settled_at_most_once; [exact W1|].
    destruct A as (A1 & _). destruct W1 as (W1 & _).
    destruct (W1 _ _ A1) as (_ & _ & Lp & _). simpl in Lp. lia.
  - intros ws msg H. now apply unmatched_result_ignored.
  - intros j L. now apply never_issued_not_pending.
  - intros j L G. now apply settled_stays_out.
Qed.

Lemma timeout_rejects_exactly_once_witness :
  (exists t,
     settlements 1 (snd (run [Elapse 30000; TimerFires 2%nat]
                             (fst (sendCommandToSim "move_base" (JObj []) 30000
                                     (fst (run [Connection] init))))))
       = [(t, Reject 1 (timed_out "move_base" 30000))] /\
     0 + 30000 <= t) /\
  (List.length
     (settlements 1
        (snd (run ([Elapse 30000; TimerFires 2%nat] ++ [TimerFires 2%nat; WsClose 0%nat])
                  (fst (sendCommandToSim "move_base" (JObj []) 30000
                          (fst (run [Connection] init))))))) <= 1)%nat.
Proof.
  pose proof (timeout_rejects_exactly_once
                [Connection] [Elapse 30000; TimerFires 2%nat]
                [TimerFires 2%nat; WsClose 0%nat] "move_base" (JObj []) 30000
                eq_refl eq_refl) as H.
  cbv zeta in H. destruct H as (T & H & _). split; [|exact H].
  destruct T as [(E & _)|T]; [unfold TIMEOUT_MAX; lia|discriminate E|exact T].
Defined.

(** ** Further properties of the relay *)

Section MapLength.
Context {K V : Type} (eqb : K -> K -> bool).
Hypothesis eqb_spec : forall x y, reflect (x = y) (eqb x y).

Lemma map_delete_absent (k : K) (m : list (K * V)) :
  ~ In k (keys m) -> map_delete eqb k m = m.
Proof.
  induction m as [|[k' v'] m IH]; simpl; intros NI; [reflexivity|].
  destruct (eqb_spec k k') as [->|N]; [exfalso; apply NI; now left|].
  rewrite IH; [reflexivity|]. intros I. apply NI. now right.
Qed.

Lemma length_map_set_absent (k : K) (v : V) (m : list (K * V)) :
  map_get eqb k m = None ->
  List.length (map_set eqb k v m) = S (List.length m).
Proof.
  induction m as [|[k' v'] m IH]; simpl; intros G; [reflexivity|].
  destruct (eqb k k'); [discriminate|]. simpl. now rewrite IH.
Qed.

Lemma length_map_delete_present (k : K) (v : V) (m : list (K * V)) :
  NoDup (keys m) -> map_get eqb k m = Some v ->
  S (List.length (map_delete eqb k m)) = List.length m.
Proof.
  induction m as [|[k' v'] m IH]; simpl; intros ND G; [discriminate|].
  inversion ND as [|? ? NI ND']; subst.
  destruct (eqb_spec k k') as [->|N].
  - now rewrite map_delete_absent.
  - simpl. now rewrite (IH ND' G).
Qed.

End MapLength.

(** [app.get('/api/status')]. *)
Definition status (s : State) : JsObject :=
  [("simulation_connected", JBool (connected s));
   ("pending_commands", JInt (Z.of_nat (List.length (pendingCommands s))))]%string.

(** A frame [{ type: 'command_result', id, result }] as the handler reads it. *)
Definition is_result_frame (msg : JsVal) (k : Z) : Prop :=
  prop msg "type" = Some (JStr "command_result") /\
  exists id, prop msg "id" = Some id /\ as_integer id = Some k.

Lemma result_for_awaiting k p action timeout due s ws msg :
  awaiting k p action timeout due s -> live ws s = true ->
  is_result_frame msg k ->
  step (WsMessage ws (Some msg)) s =
    ({| simulationSocket := simulationSocket s;
        pendingCommands := map_delete Z.eqb k (pendingCommands s);
        commandIdCounter := commandIdCounter s;
        sockets := sockets s;
        timers := map_delete Nat.eqb (S p) (timers s);
        nextObject := nextObject s;
        now := now s |},
     [ClearTimeout (S p); Resolve p (optprop msg "result")]).
Proof.
  intros (A1 & A2) Lv (Ty & id & Id & Int). simpl. rewrite Lv.
  unfold on_message, optprop. rewrite Ty, Id.
  destruct (prop msg "result") as [result|] eqn:R.
  - simpl. assert (U : match id with JUndefined => true | _ => false end = false)
      by (destruct id; simpl in *; try reflexivity; discriminate).
    rewrite U, Int, A1. reflexivity.
  - destruct msg; simpl in *; discriminate.
Qed.

(** X1: a command sent while connected and still unsettled after any
    events without a close or a frame for its id is resolved by the first
    command_result frame that carries its id, whichever live socket
    delivers it: its timer is cancelled, its promise is resolved with the
    result property of the frame, its entry leaves the table, and its
    timer, if the runtime still ran it, would do nothing. *)
Theorem result_resolves_pending
    (pre post : list Event) (action : string) (params : JsVal) (timeout : Z)
    (ws : nat) (msg : JsVal) :
  connected (fst (run pre init)) = true ->
  forallb (quiet (commandIdCounter (fst (run pre init)))) post = true ->
  let s0 := fst (run pre init) in
  let p := nextObject s0 in
  let s1 := fst (sendCommandToSim action params timeout s0) in
  let s2 := fst (run post s1) in
  let s3 := fst (step (WsMessage ws (Some msg)) s2) in
  settlements p (snd (run post s1)) = [] ->
  live ws s2 = true ->
  is_result_frame msg (commandIdCounter s0) ->
  snd (step (WsMessage ws (Some msg)) s2)
    = [ClearTimeout (S p); Resolve p (optprop msg "result")] /\
  map_get Z.eqb (commandIdCounter s0) (pendingCommands s3) = None /\
  map_get Nat.eqb (S p) (timers s3) = None /\
  step (TimerFires (S p)) s3 = (s3, []).
Proof.
  intros C Q s0 p s1 s2 s3 Un Lv F.
  assert (W0 : wf s0) by (apply wf_run, wf_init).
  assert (W1 : wf s1) by (apply (wf_step (SendCommand action params timeout)), W0).
  pose proof (sendCommandToSim_awaiting action params timeout s0 W0 C) as A.
  fold s1 p in A.
  destruct (run_awaiting _ _ _ _ _ post s1 W1 A Q) as [(_ & A')|(t & E & _)].
  - fold s2 in A'. unfold s3.
    rewrite (result_for_awaiting _ _ _ _ _ s2 ws msg A' Lv F). simpl.
    repeat split.
    + apply (map_get_delete_eq Z.eqb Z_eqb_reflect).
    + apply (map_get_delete_eq Nat.eqb nat_eqb_reflect).
    + now rewrite (map_get_delete_eq Nat.eqb nat_eqb_reflect).
  - rewrite E in Un. discriminate.
Qed.

(** The reply to command 0, delivered by the replaced socket 0. *)
Definition reply_0 : JsVal :=
  JObj [("type", JStr "command_result"); ("id", JInt 0);
        ("result", JObj [("success", JBool true)])]%string.

Lemma result_resolves_pending_witness :
  snd (step (WsMessage 0%nat (Some reply_0))
            (fst (run [Connection]
                      (fst (sendCommandToSim "move_base" (JObj []) 30000
                              (fst (run [Connection] init)))))))
    = [ClearTimeout 2; Resolve 1 (JObj [("success", JBool true)]%string)].
Proof.
  apply (result_resolves_pending [Connection] [Connection] "move_base" (JObj [])
           30000 0%nat reply_0); try reflexivity.
  split; [reflexivity|]. exists (JInt 0). split; reflexivity.
Defined.

(** X2: a frame that does not parse, whose type is not the string
    command_result, whose id is undefined, or whose id is not an integer
    number (a string of digits, say) changes nothing and settles
    nothing. *)
Theorem malformed_frame_ignored (s : State) (ws : nat) (data : option JsVal) :
  (data = None \/
   exists msg, data = Some msg /\
     (prop msg "type" <> Some (JStr "command_result") \/
      prop msg "id" = Some JUndefined \/
      exists id, prop msg "id" = Some id /\ as_integer id = None)) ->
  step (WsMessage ws data) s = (s, []).
Proof.
  intros H. simpl. destruct (live ws s); [|reflexivity].
  destruct H as [->|(msg & -> & H)]; [reflexivity|]. unfold on_message.
  destruct (prop msg "type") as [[| | | |ty| |]|] eqn:Ty; try reflexivity.
  destruct (prop msg "id") as [id|] eqn:Id; [|reflexivity].
  destruct (prop msg "result") as [result|]; [|reflexivity].
  destruct (String.eqb_spec ty "command_result") as [->|N]; [|reflexivity].
  destruct H as [H|[H|(id' & H1 & H2)]].
  - now contradiction H.
  - inversion H; subst. reflexivity.
  - inversion H1; subst id'. rewrite H2.
    now destruct id.
Qed.

Lemma malformed_frame_ignored_witness :
  step (WsMessage 0%nat
          (Some (JObj [("type", JStr "command_result"); ("id", JStr "0");
                       ("result", JObj [])]%string)))
       (fst (run two_pending init))
    = (fst (run two_pending init), []).
Proof.
  apply malformed_frame_ignored. right. eexists. split; [reflexivity|].
  right. right. exists (JStr "0"). split; reflexivity.
Defined.

(** X3: a new connection makes the relay connected whatever state it was
    in; the close of a live socket other than the registered one leaves
    the registered socket and the connectedness as they were; the close of
    the registered socket leaves no socket registered, so that the next
    send is rejected as not connected. *)
Theorem registration_follows_connections (s : State) :
  (connected (fst (step Connection s)) = true) /\
  (forall ws cur,
     live ws s = true -> simulationSocket s = Some cur -> cur <> ws ->
     simulationSocket (fst (step (WsClose ws) s)) = Some cur /\
     connected (fst (step (WsClose ws) s)) = connected s) /\
  (forall ws action params timeout,
     live ws s = true -> simulationSocket s = Some ws ->
     simulationSocket (fst (step (WsClose ws) s)) = None /\
     snd (sendCommandToSim action params timeout (fst (step (WsClose ws) s)))
       = [Reject (nextObject s) NOT_CONNECTED]).
Proof.
  split; [|split].
  - unfold connected, readyState. simpl.
    now rewrite (map_get_set_eq Nat.eqb nat_eqb_reflect).
  - intros ws cur Lv Reg N. simpl. rewrite Lv. unfold connected, readyState.
    simpl. rewrite Reg.
    destruct (Nat.eqb_spec cur ws); [contradiction|].
    split; [reflexivity|].
    now rewrite (map_get_set_neq Nat.eqb nat_eqb_reflect) by exact N.
  - intros ws action params timeout Lv Reg. simpl. rewrite Lv.
    unfold sendCommandToSim. simpl. rewrite Reg, Nat.eqb_refl. now split.
Qed.

Lemma registration_follows_connections_witness :
  simulationSocket (fst (step (WsClose 0%nat) replaced_relay)) = Some 1%nat /\
  connected (fst (step (WsClose 0%nat) replaced_relay)) = connected replaced_relay.
Proof.
  destruct (registration_follows_connections replaced_relay) as (_ & H & _).
  apply H; [reflexivity|reflexivity|discriminate].
Defined.

(** *** No command is lost *)

(** Commands written to the wire. *)
Definition accepted (log : Log) : nat :=
  List.length (filter (fun te => match snd te with WsSend _ _ => true | _ => false end) log).

(** Settlements of commands that had been written to the wire: every
    resolution, and every rejection other than the immediate one of a
    send that found no open socket. *)
Definition completes (e : Effect) : bool :=
  match e with
  | Resolve _ _ => true
  | Reject _ m => negb (String.eqb m NOT_CONNECTED)
  | _ => false
  end.

Definition completed (log : Log) : nat :=
  List.length (filter (fun te => completes (snd te)) log).

Lemma completed_reject_all s pending :
  completed (stamp s (reject_all pending)) = List.length pending.
Proof.
  unfold completed.
  induction pending as [|e pending IH]; simpl; [reflexivity|]. now rewrite IH.
Qed.

Lemma accepted_reject_all s pending : accepted (stamp s (reject_all pending)) = 0%nat.
Proof.
  unfold accepted. induction pending as [|e pending IH]; simpl; auto.
Qed.

Lemma step_balance e s :
  wf s ->
  (List.length (pendingCommands (fst (step e s)))
   + completed (stamp s (snd (step e s))))%nat
  = (List.length (pendingCommands s) + accepted (stamp s (snd (step e s))))%nat.
Proof.
  intros W. pose proof W as (W1 & W2 & W3).
  destruct e as [|ws data|ws|ws|ws|t|ms|action params timeout]; simpl.
  - reflexivity.
  - destruct (live ws s); [|reflexivity]. unfold on_message.
    destruct data as [msg|]; [|reflexivity].
    destruct (prop msg "type") as [[| | | |ty| |]|]; try reflexivity.
    destruct (prop msg "id") as [id|]; [|reflexivity].
    destruct (prop msg "result") as [result|]; [|reflexivity].
    destruct (_ && _); [|reflexivity].
    destruct (as_integer id) as [k|]; [|reflexivity].
    destruct (map_get Z.eqb k (pendingCommands s)) as [pc|] eqn:G; [|reflexivity].
    simpl. rewrite <- (length_map_delete_present Z.eqb Z_eqb_reflect k pc _ W3 G).
    unfold completed, accepted. simpl. lia.
  - destruct (readyState ws s) as [[]|]; reflexivity.
  - destruct (live ws s); [|reflexivity]. simpl.
    rewrite completed_reject_all, accepted_reject_all. lia.
  - reflexivity.
  - destruct (map_get Nat.eqb t (timers s)) as [cb|] eqn:G; [|reflexivity].
    destruct (cb_due cb <=? now s); [|reflexivity]. simpl.
    destruct (W2 _ _ G) as (_ & B).
    rewrite <- (length_map_delete_present Z.eqb Z_eqb_reflect _ _ _ W3 B).
    unfold completed, accepted. simpl. lia.
  - reflexivity.
  - unfold sendCommandToSim.
    destruct (simulationSocket s) as [ws|]; [|reflexivity].
    destruct (readyState ws s) as [[]|]; try reflexivity. simpl.
    rewrite (length_map_set_absent Z.eqb).
    + unfold completed, accepted. simpl. lia.
    + apply never_issued_not_pending; [exact W|lia].
Qed.

Lemma completed_app l1 l2 : completed (l1 ++ l2) = (completed l1 + completed l2)%nat.
Proof. unfold completed. now rewrite filter_app, length_app. Qed.

Lemma accepted_app l1 l2 : accepted (l1 ++ l2) = (accepted l1 + accepted l2)%nat.
Proof. unfold accepted. now rewrite filter_app, length_app. Qed.

Lemma run_balance evs : forall s,
  wf s ->
  (List.length (pendingCommands (fst (run evs s))) + completed (snd (run evs s)))%nat
  = (List.length (pendingCommands s) + accepted (snd (run evs s)))%nat.
Proof.
  induction evs as [|e evs IH]; intros s W; [reflexivity|].
  rewrite run_cons. cbn [fst snd]. rewrite completed_app, accepted_app.
  pose proof (step_balance e s W). pose proof (IH _ (wf_step e s W)). lia.
Qed.

(** X4: over any run of the relay from its initial state, the number of
    commands written to the wire equals the number of entries still in
    the pending table plus the number of settlements of such commands
    (resolutions, timeouts and disconnect rejections): what the status
    route reports as pending_commands is exactly the number of commands
    sent and not yet settled. *)
Theorem no_command_is_lost (evs : list Event) :
  (List.length (pendingCommands (fst (run evs init)))
   + completed (snd (run evs init)))%nat
  = accepted (snd (run evs init)) /\
  get "pending_commands" (status (fst (run evs init)))
  = JInt (Z.of_nat (accepted (snd (run evs init)))
          - Z.of_nat (completed (snd (run evs init)))).
Proof.
  pose proof (run_balance evs init wf_init) as B. simpl in B.
  split; [exact B|].
  unfold status. simpl. f_equal. f_equal. lia.
Qed.

(** X5: the timeout of one command leaves every other pending command
    as it was: when any timer other than its own runs, a pending command
    stays in the table with its timer armed and is not settled. *)
Theorem timeouts_are_independent
    (evs : list Event) (k : Z) (p : nat) (action : string) (timeout due : Z)
    (t : nat) :
  awaiting k p action timeout due (fst (run evs init)) ->
  t <> S p ->
  awaiting k p action timeout due (fst (step (TimerFires t) (fst (run evs init)))) /\
  filter (settles p) (snd (step (TimerFires t) (fst (run evs init)))) = [].
Proof.
  intros A N. set (s := fst (run evs init)) in *.
  assert (W : wf s) by (apply wf_run, wf_init).
  pose proof (wf_step (TimerFires t) s W) as W'.
  destruct (step_awaiting (TimerFires t) s k p action timeout due W A eq_refl)
    as [(E & A')|(_ & _ & G)]; [now split|].
  exfalso. destruct A as (A1 & A2).
  assert (T : map_get Nat.eqb (S p) (timers (fst (step (TimerFires t) s)))
              = map_get Nat.eqb (S p) (timers s)).
  { simpl. destruct (map_get Nat.eqb t (timers s)) as [cb|]; [|reflexivity].
    destruct (cb_due cb <=? now s); [|reflexivity]. simpl.
    apply (map_get_delete_neq Nat.eqb nat_eqb_reflect). congruence. }
  rewrite A2 in T. destruct W' as (_ & W2' & _).
  destruct (W2' _ _ T) as (_ & B). simpl in B.
  now apply G in B.
Qed.

Lemma timeouts_are_independent_witness :
  awaiting 1 3 "navigate_to" 60000 60000
    (fst (step (TimerFires 2%nat)
               (fst (run (two_pending ++ [Elapse 30000]) init)))) /\
  snd (step (TimerFires 2%nat) (fst (run (two_pending ++ [Elapse 30000]) init)))
    = [Reject 1 (timed_out "move_base" 30000)].
Proof.
  split; [|reflexivity].
  apply (timeouts_are_independent (two_pending ++ [Elapse 30000]) 1 3
           "navigate_to" 60000 60000 2%nat); [|discriminate].
  split; reflexivity.
Defined.

End Relay.

(** ** Tool dispatch (tool file) *)

Module Tools.

Local Open Scope string_scope.

(** Default timeout for blocking commands (ms). *)
Definition COMMAND_TIMEOUT : Z := 30000.

(** The names of [TOOL_DEFINITIONS], in order. *)
Definition TOOL_NAMES : list string :=
  ["observe_scene"; "move_base"; "move_arm"; "set_gripper"; "move_head";
   "get_robot_state"; "get_scene_objects"; "navigate_to"; "reset_robot"].

(** A thrown [Error] object. *)
Record Exn : Type := {
  name : string;
  message : string
}.

(** How a call, or an awaited promise, ends. *)
Inductive Outcome (A : Type) : Type :=
| Return (a : A)
| Throw (e : Exn).
Arguments Return {A} a.
Arguments Throw {A} e.

(** [String(err)], that is [Error.prototype.toString]. *)
Definition String_of (err : Exn) : string :=
  if String.eqb (name err) EmptyString then message err
  else if String.eqb (message err) EmptyString then name err
  else name err ++ ": " ++ message err.

(** [err.message || String(err)]. *)
Definition error_text (err : Exn) : string :=
  if String.eqb (message err) EmptyString then String_of err else message err.

(** [toolInput.sources?.f ?? dataSourceOverrides.f ?? true]. *)
Definition source (f : string) (toolInput dataSourceOverrides : JsObject) : JsVal :=
  coalesce (coalesce (optprop (get "sources" toolInput) f)
                     (get f dataSourceOverrides))
           (JBool true).

Section ExecuteTool.
Context {S : Type}.

(** The [sendCommand] argument: awaiting the promise it returns either
    gives the response object or throws, and may change the world [S]. *)
Variable sendCommand : string -> JsVal -> Z -> S -> Outcome JsObject * S.

(** The body of the [try] block: the [switch] on [toolName]. *)
Definition dispatch (toolName : string) (toolInput dataSourceOverrides : JsObject)
    (s : S) : Outcome JsObject * S :=
  if String.eqb toolName "observe_scene" then
    let sources :=
      JObj [("head_camera", source "head_camera" toolInput dataSourceOverrides);
            ("orbit_camera", source "orbit_camera" toolInput dataSourceOverrides);
            ("state_data", source "state_data" toolInput dataSourceOverrides)] in
    sendCommand "observe_scene" (JObj [("sources", sources)]) COMMAND_TIMEOUT s
  else if String.eqb toolName "move_base" then
    sendCommand "move_base"
      (JObj [("direction", get "direction" toolInput);
             ("amount", get "amount" toolInput)]) COMMAND_TIMEOUT s
  else if String.eqb toolName "move_arm" then
    sendCommand "move_arm"
      (JObj [("arm", get "arm" toolInput); ("x", get "x" toolInput);
             ("y", get "y" toolInput)]) COMMAND_TIMEOUT s
  else if String.eqb toolName "set_gripper" then
    sendCommand "set_gripper"
      (JObj [("arm", get "arm" toolInput); ("state", get "state" toolInput)])
      COMMAND_TIMEOUT s
  else if String.eqb toolName "move_head" then
    sendCommand "move_head"
      (JObj [("pan", get "pan" toolInput); ("tilt", get "tilt" toolInput)])
      COMMAND_TIMEOUT s
  else if String.eqb toolName "get_robot_state" then
    sendCommand "get_robot_state" (JObj []) COMMAND_TIMEOUT s
  else if String.eqb toolName "get_scene_objects" then
    sendCommand "get_scene_objects" (JObj []) COMMAND_TIMEOUT s
  else if String.eqb toolName "navigate_to" then
    sendCommand "navigate_to"
      (JObj [("target", get "target" toolInput);
             ("stop_distance",
              coalesce (get "stop_distance" toolInput) (JNum (3 # 10)))])
      (COMMAND_TIMEOUT * 2) s
  else if String.eqb toolName "reset_robot" then
    sendCommand "reset_robot" (JObj []) COMMAND_TIMEOUT s
  else
    (Return [("error", JStr ("Unknown tool: " ++ toolName))], s).

(** [executeTool]: the [try] block and its [catch]. *)
Definition executeTool (toolName : string) (toolInput dataSourceOverrides : JsObject)
    (s : S) : Outcome JsObject * S :=
  match dispatch toolName toolInput dataSourceOverrides s with
  | (Return result, s') => (Return result, s')
  | (Throw err, s') => (Return [("error", JStr (error_text err))], s')
  end.

End ExecuteTool.

(** The relay call a tool makes: action, params and timeout. *)
Definition RelayCall : Type := (string * JsVal * Z)%type.

(** A [sendCommand] that records its calls and answers each with [reply]. *)
Definition recording (reply : Outcome JsObject) (action : string) (params : JsVal)
    (timeout : Z) (calls : list RelayCall) : Outcome JsObject * list RelayCall :=
  (reply, (calls ++ [(action, params, timeout)])%list).

(** The [catch] clause of [executeTool]. *)
Definition caught {S : Type} (r : Outcome JsObject * S) : Outcome JsObject * S :=
  match r with
  | (Return result, s') => (Return result, s')
  | (Throw err, s') => (Return [("error", JStr (error_text err))], s')
  end.

Lemma executeTool_caught {S : Type} sendCommand toolName toolInput dso (s : S) :
  executeTool sendCommand toolName toolInput dso s
    = caught (dispatch sendCommand toolName toolInput dso s).
Proof. reflexivity. Qed.

Lemma eqb_In_TOOL_NAMES toolName n :
  String.eqb toolName n = true -> In n TOOL_NAMES -> In toolName TOOL_NAMES.
Proof. intros E I. apply String.eqb_eq in E. now subst. Qed.

(** The [switch] either makes exactly one relay call, for an action of the
    catalog, or falls to [default]. *)
Lemma dispatch_cases {S : Type} sendCommand toolName toolInput dso (s : S) :
  (In toolName TOOL_NAMES /\
   exists params timeout,
     dispatch sendCommand toolName toolInput dso s
       = sendCommand toolName params timeout s) \/
  (~ In toolName TOOL_NAMES /\
   dispatch sendCommand toolName toolInput dso s
     = (Return [("error", JStr ("Unknown tool: " ++ toolName))], s)).
Proof.
  unfold dispatch.
  repeat match goal with
  | |- context [if String.eqb toolName ?n then _ else _] =>
      destruct (String.eqb_spec toolName n) as [->|?];
      [left; split; [simpl; tauto|eauto]|]
  end.
  right. split; [|reflexivity].
  simpl. intuition congruence.
Qed.

Lemma executeTool_returns {S : Type} sendCommand toolName toolInput dso (s : S) :
  exists result,
    fst (executeTool sendCommand toolName toolInput dso s) = Return result.
Proof.
  rewrite executeTool_caught.
  destruct (dispatch sendCommand toolName toolInput dso s) as [[r|e] s'];
    simpl; eauto.
Qed.

(** C8: [executeTool] never throws: for every tool name, input and
    [sendCommand] it returns an object.  For a name that is not in the
    catalog that object is the unknown-tool error and no relay call is
    made; for a name of the catalog it makes one relay call, and if that
    call rejects with an error the rejection is caught and the result is
    the object whose error field is [err.message || String(err)], the
    message itself whenever that is not empty. *)
Theorem executeTool_never_throws {S : Type}
    (sendCommand : string -> JsVal -> Z -> S -> Outcome JsObject * S)
    (toolName : string) (toolInput dso : JsObject) (s : S) :
  (exists result,
     fst (executeTool sendCommand toolName toolInput dso s) = Return result) /\
  (~ In toolName TOOL_NAMES ->
   executeTool sendCommand toolName toolInput dso s
     = (Return [("error", JStr ("Unknown tool: " ++ toolName))], s)) /\
  (In toolName TOOL_NAMES ->
   exists params timeout,
     dispatch sendCommand toolName toolInput dso s
       = sendCommand toolName params timeout s /\
     forall err s',
       sendCommand toolName params timeout s = (Throw err, s') ->
       executeTool sendCommand toolName toolInput dso s
         = (Return [("error", JStr (error_text err))], s') /\
       (message err <> EmptyString -> error_text err = message err)).
Proof.
  rewrite executeTool_caught.
  destruct (dispatch_cases sendCommand toolName toolInput dso s)
    as [(I & params & timeout & E)|(NI & E)].
  - split; [|split].
    + rewrite <- executeTool_caught. apply executeTool_returns.
    + intros NI. contradiction.
    + intros _. exists params, timeout. split; [exact E|].
      intros err s' T. rewrite E, T. simpl. split; [reflexivity|].
      intros NE. unfold error_text.
      destruct (String.eqb_spec (message err) EmptyString); [contradiction|reflexivity].
  - split; [|split].
    + rewrite E. simpl. eauto.
    + intros _. now rewrite E.
    + intros I. contradiction.
Qed.

Lemma executeTool_never_throws_witness :
  executeTool (recording (Return [])) "fly_away" [] [] []
    = (Return [("error", JStr "Unknown tool: fly_away")], []) /\
  executeTool (recording (Throw {| name := "Error";
                                   message := Relay.DISCONNECTED |}))
              "move_base" [("direction", JStr "forward"); ("amount", JInt 1)] [] []
    = (Return [("error", JStr Relay.DISCONNECTED)],
       [("move_base",
         JObj [("direction", JStr "forward"); ("amount", JInt 1)], 30000)]).
Proof.
  split.
  - apply (executeTool_never_throws (recording (Return [])) "fly_away" [] [] []).
    simpl. intuition discriminate.
  - destruct (executeTool_never_throws
                (recording (Throw {| name := "Error";
                                     message := Relay.DISCONNECTED |}))
                "move_base" [("direction", JStr "forward"); ("amount", JInt 1)]
                [] []) as (_ & _ & H).
    destruct H as (params & timeout & E & H); [simpl; tauto|].
    injection E as <- <-.
    exact (proj1 (H {| name := "Error"; message := Relay.DISCONNECTED |}
                    [("move_base",
                      JObj [("direction", JStr "forward"); ("amount", JInt 1)],
                      30000)] eq_refl)).
Defined.

(** C6: the relay call of observe_scene carries, for each of head_camera,
    orbit_camera and state_data, the explicit value of the input if it is
    neither null nor undefined, else the session default if that is
    neither, else true.  So with no explicit sources.head_camera and a
    session default of false the call carries false, and with neither an
    explicit value nor a session default it carries true. *)
Theorem observe_scene_sources {S : Type}
    (sendCommand : string -> JsVal -> Z -> S -> Outcome JsObject * S)
    (toolInput dso : JsObject) (s : S) :
  executeTool sendCommand "observe_scene" toolInput dso s
    = caught (sendCommand "observe_scene"
                (JObj [("sources",
                        JObj [("head_camera", source "head_camera" toolInput dso);
                              ("orbit_camera", source "orbit_camera" toolInput dso);
                              ("state_data", source "state_data" toolInput dso)])])
                30000 s) /\
  (forall f,
     (nullish (optprop (get "sources" toolInput) f) = false ->
      source f toolInput dso = optprop (get "sources" toolInput) f) /\
     (nullish (optprop (get "sources" toolInput) f) = true ->
      nullish (get f dso) = false ->
      source f toolInput dso = get f dso) /\
     (nullish (optprop (get "sources" toolInput) f) = true ->
      nullish (get f dso) = true ->
      source f toolInput dso = JBool true)) /\
  (optprop (get "sources" toolInput) "head_camera" = JUndefined ->
   get "head_camera" dso = JBool false ->
   source "head_camera" toolInput dso = JBool false) /\
  (optprop (get "sources" toolInput) "head_camera" = JUndefined ->
   get "head_camera" dso = JUndefined ->
   source "head_camera" toolInput dso = JBool true).
Proof.
  split; [reflexivity|]. split; [|split].
  - intros f. unfold source, coalesce. repeat split.
    + intros E. now rewrite !E.
    + intros E1 E2. now rewrite E1, E2.
    + intros E1 E2. now rewrite E1, E2.
  - intros E1 E2. unfold source, coalesce. now rewrite E1, E2.
  - intros E1 E2. unfold source, coalesce. now rewrite E1, E2.
Qed.

Lemma observe_scene_sources_witness :
  source "head_camera" []
         [("head_camera", JBool false); ("orbit_camera", JBool true);
          ("state_data", JBool true)] = JBool false /\
  source "head_camera" [] [] = JBool true /\
  snd (executeTool (recording (Return [])) "observe_scene" []
         [("head_camera", JBool false); ("orbit_camera", JBool true);
          ("state_data", JBool true)] [])
    = [("observe_scene",
        JObj [("sources",
               JObj [("head_camera", JBool false); ("orbit_camera", JBool true);
                     ("state_data", JBool true)])], 30000)].
Proof.
  split; [|split].
  - apply (observe_scene_sources (recording (Return [])) []
             [("head_camera", JBool false); ("orbit_camera", JBool true);
              ("state_data", JBool true)] []); reflexivity.
  - apply (observe_scene_sources (recording (Return [])) [] [] []); reflexivity.
  - reflexivity.
Defined.

(** ** Further properties of tool dispatch *)

(** An entry of [TOOL_DEFINITIONS]: its name and, of its [input_schema],
    the names of the declared properties and the required ones. *)
Record ToolDefinition : Type := {
  tool_name : string;
  properties : list string;
  required : list string
}.

Definition TOOL_DEFINITIONS : list ToolDefinition :=
  [{| tool_name := "observe_scene"; properties := ["sources"]; required := [] |};
   {| tool_name := "move_base"; properties := ["direction"; "amount"];
      required := ["direction"; "amount"] |};
   {| tool_name := "move_arm"; properties := ["arm"; "x"; "y"];
      required := ["arm"; "x"; "y"] |};
   {| tool_name := "set_gripper"; properties := ["arm"; "state"];
      required := ["arm"; "state"] |};
   {| tool_name := "move_head"; properties := ["pan"; "tilt"];
      required := ["pan"; "tilt"] |};
   {| tool_name := "get_robot_state"; properties := []; required := [] |};
   {| tool_name := "get_scene_objects"; properties := []; required := [] |};
   {| tool_name := "navigate_to"; properties := ["target"; "stop_distance"];
      required := ["target"] |};
   {| tool_name := "reset_robot"; properties := []; required := [] |}].

Lemma snd_caught_recording (x : Outcome JsObject * list RelayCall) :
  snd (caught x) = snd x.
Proof. now destruct x as [[?|?] ?]. Qed.

Lemma TOOL_NAMES_are_the_catalog : TOOL_NAMES = map tool_name TOOL_DEFINITIONS.
Proof. reflexivity. Qed.

(** X6: for every entry of the catalog, executeTool makes exactly one
    relay call; its action is the name of the tool, its params are an
    object whose keys are exactly the properties the schema of the tool
    declares, in that order (fields of the input beyond them are not
    forwarded), and its timeout is 30000 ms, doubled for navigate_to.
    When the relay resolves, its response is returned unchanged. *)
Theorem catalog_call_matches_schema
    (reply : Outcome JsObject) (d : ToolDefinition) (toolInput dso : JsObject)
    (calls : list RelayCall) :
  In d TOOL_DEFINITIONS ->
  exists fields,
    snd (executeTool (recording reply) (tool_name d) toolInput dso calls)
      = (calls ++ [(tool_name d, JObj fields,
                    if String.eqb (tool_name d) "navigate_to"
                    then 60000 else 30000)])%list /\
    map fst fields = properties d /\
    (forall result, reply = Return result ->
       fst (executeTool (recording reply) (tool_name d) toolInput dso calls)
         = Return result).
Proof.
  intros I. rewrite executeTool_caught, snd_caught_recording.
  simpl in I.
  repeat (destruct I as [<-|I];
          [eexists; split; [reflexivity|];
           split; [reflexivity|intros result ->; reflexivity]|]).
  contradiction.
Qed.

Lemma catalog_call_matches_schema_witness :
  exists fields,
    snd (executeTool (recording (Return []))
           "navigate_to"
           [("target", JStr "table1"); ("stop_distance", JInt 0);
            ("speed", JInt 9)] [] [])
      = [("navigate_to", JObj fields, 60000)] /\
    map fst fields = ["target"; "stop_distance"].
Proof.
  destruct (catalog_call_matches_schema (Return [])
              {| tool_name := "navigate_to";
                 properties := ["target"; "stop_distance"];
                 required := ["target"] |}
              [("target", JStr "table1"); ("stop_distance", JInt 0);
               ("speed", JInt 9)] [] [])
    as (fields & E & K & _).
  - simpl. tauto.
  - exists fields. split; [exact E|exact K].
Defined.

(** X7: the session's data-source overrides reach the relay only through
    observe_scene: for every other tool name the outcome of executeTool
    and the relay call it makes are the same whatever the overrides
    are. *)
Theorem overrides_only_reach_observe_scene {S : Type}
    (sendCommand : string -> JsVal -> Z -> S -> Outcome JsObject * S)
    (toolName : string) (toolInput dso dso' : JsObject) (s : S) :
  toolName <> "observe_scene" ->
  executeTool sendCommand toolName toolInput dso s
    = executeTool sendCommand toolName toolInput dso' s.
Proof.
  intros N. unfold executeTool, dispatch.
  destruct (String.eqb_spec toolName "observe_scene"); [contradiction|reflexivity].
Qed.

Lemma overrides_only_reach_observe_scene_witness :
  executeTool (recording (Return [("head_camera_image", JStr "iVBOR")]))
              "move_head" [("pan", JInt 0); ("tilt", JInt 0)]
              [("head_camera", JBool false)] []
  = executeTool (recording (Return [("head_camera_image", JStr "iVBOR")]))
                "move_head" [("pan", JInt 0); ("tilt", JInt 0)] [] [].
Proof.
  apply overrides_only_reach_observe_scene. discriminate.
Defined.

End Tools.

(** ** The agent loop (controller file) and the chat route *)

Module Controller.

Import Tools.
Local Open Scope string_scope.

(** A content block of a model response; [other_block] stands for every
    block whose type is neither text nor tool_use. *)
Inductive Block : Type :=
| text_block (text : string)
| tool_use (id name : string) (input : JsObject)
| other_block.

(** The part of the response of [client.messages.create] the loop reads. *)
Record Response : Type := {
  content : list Block;
  stop_reason : string
}.

(** The text of a content item.  The two strings the runtime builds from
    an arbitrary value are kept symbolic: [Interpolated p v] is the
    template literal that puts [v] after the prefix [p], and
    [Stringified o] is [JSON.stringify(o, null, 2)]. *)
Inductive Text : Type :=
| Plain (s : string)
| Interpolated (prefix : string) (v : JsVal)
| Stringified (o : JsObject).

(** An item of a tool result: a base64 image or a text. *)
Inductive ContentItem : Type :=
| Image (media_type : string) (data : JsVal)
| TextItem (t : Text).

(** [_buildToolResultContent(toolName, result)]; the result of a tool is
    an object, as [executeTool] documents. *)
Definition _buildToolResultContent (toolName : string) (result : JsObject)
    : list ContentItem :=
  if truthy (get "error" result) then
    [TextItem (Interpolated "Error: " (get "error" result))]
  else
    let head :=
      if truthy (get "head_camera_image" result) then
        [Image "image/png" (get "head_camera_image" result);
         TextItem (Plain "[Head camera view above]")]
      else [] in
    let orbit :=
      if truthy (get "orbit_camera_image" result) then
        [Image "image/png" (get "orbit_camera_image" result);
         TextItem (Plain "[Orbit camera view above]")]
      else [] in
    let dataResult :=
      delete "orbit_camera_image" (delete "head_camera_image" result) in
    let data :=
      if (0 <? List.length dataResult)%nat
      then [TextItem (Stringified dataResult)] else [] in
    let content := (head ++ orbit ++ data)%list in
    if (List.length content =? 0)%nat
    then [TextItem (Plain "Command executed successfully.")]
    else content.

(** Conversation history. *)
Inductive Role : Type := user | assistant.

Record ToolResult : Type := {
  tool_use_id : string;
  result_content : list ContentItem
}.

Inductive MessageContent : Type :=
| UserText (s : string)
| AssistantContent (blocks : list Block)
| ToolResults (results : list ToolResult).

Record Message : Type := {
  role : Role;
  message_content : MessageContent
}.

(** What [onStream] and the chat route write to the response stream. *)
Inductive StreamEvent : Type :=
| Status (text : string)
| TextChunk (text : string)
| ToolCall (name : string) (input : JsObject)
| Done (text : string)
| Aborted (text : string)
| Error (text : string).

(** The fields of an [AIController]; [_abortController] is [null] or an
    AbortController whose signal has the given [aborted] flag. *)
Record AIController : Type := {
  conversationHistory : list Message;
  dataSourceOverrides : JsObject;
  _abortController : option bool
}.

Definition new_AIController : AIController := {|
  conversationHistory := [];
  dataSourceOverrides :=
    [("head_camera", JBool true); ("orbit_camera", JBool true);
     ("state_data", JBool true)];
  _abortController := None
|}.

Definition set_source (k : string) (v : JsVal) (o : JsObject) : JsObject :=
  match v with
  | JUndefined => o
  | _ => map_set String.eqb k v o
  end.

(** [setDataSources({ head_camera, orbit_camera, state_data })]. *)
Definition setDataSources (dataSources : JsVal) (c : AIController) : AIController :=
  {| conversationHistory := conversationHistory c;
     dataSourceOverrides :=
       set_source "state_data" (optprop dataSources "state_data")
         (set_source "orbit_camera" (optprop dataSources "orbit_camera")
            (set_source "head_camera" (optprop dataSources "head_camera")
               (dataSourceOverrides c)));
     _abortController := _abortController c |}.

(** [abort()]. *)
Definition abort (c : AIController) : AIController :=
  {| conversationHistory := conversationHistory c;
     dataSourceOverrides := dataSourceOverrides c;
     _abortController :=
       match _abortController c with
       | Some _ => Some true
       | None => None
       end |}.

(** [clearHistory()]. *)
Definition clearHistory (c : AIController) : AIController :=
  {| conversationHistory := [];
     dataSourceOverrides := dataSourceOverrides c;
     _abortController := _abortController c |}.

(** *** The world around one call

    [processMessage] is suspended at each [await]; only then can the
    route of [abort()] run.  The world says, for the n-th suspension of a
    call, how the awaited promise settles and whether [abort()] was
    invoked meanwhile.  (One call in flight at a time, as the controller
    assumes, and no [clearHistory()] or [setDataSources()] while it is: of
    what a user can do during a call, only [abort()] is modelled.) *)
Record Settled (A : Type) : Type := {
  outcome : Outcome A;
  abort_called : bool
}.
Arguments outcome {A} _.
Arguments abort_called {A} _.

Record World : Type := {
  messages_create : nat -> list Message -> Settled Response;
  sendCommand : nat -> string -> JsVal -> Z -> Settled JsObject
}.

(** The state of a call in progress: the controller, the number of
    suspensions so far, the events given to [onStream], the number of
    model turns requested and the relay calls made. *)
Record Run : Type := {
  this : AIController;
  suspensions : nat;
  stream : list StreamEvent;
  modelTurns : nat;
  relayCalls : list RelayCall
}.

Definition M (A : Type) : Type := Run -> Outcome A * Run.

Definition ret {A : Type} (a : A) : M A := fun r => (Return a, r).

Definition bind {A B : Type} (m : M A) (k : A -> M B) : M B :=
  fun r =>
    match m r with
    | (Return a, r') => k a r'
    | (Throw e, r') => (Throw e, r')
    end.

Notation "x <- m ;; k" := (bind m (fun x => k))
  (at level 61, m at next level, right associativity).
Notation "m ;; k" := (bind m (fun _ => k))
  (at level 61, right associativity).

(** [new DOMException('Aborted', 'AbortError')]. *)
Definition AbortError : Exn := {| name := "AbortError"; message := "Aborted" |}.

(** [if (signal.aborted) throw new DOMException('Aborted', 'AbortError')]. *)
Definition check_aborted : M unit :=
  fun r =>
    match _abortController (this r) with
    | Some true => (Throw AbortError, r)
    | _ => (Return tt, r)
    end.

Definition onStream (e : StreamEvent) : M unit :=
  fun r =>
    (Return tt,
     {| this := this r; suspensions := suspensions r;
        stream := (stream r ++ [e])%list;
        modelTurns := modelTurns r; relayCalls := relayCalls r |}).

(** [this.conversationHistory.push(m)]. *)
Definition push (m : Message) : M unit :=
  fun r =>
    (Return tt,
     {| this :=
          {| conversationHistory := (conversationHistory (this r) ++ [m])%list;
             dataSourceOverrides := dataSourceOverrides (this r);
             _abortController := _abortController (this r) |};
        suspensions := suspensions r; stream := stream r;
        modelTurns := modelTurns r; relayCalls := relayCalls r |}).

Definition resumed (called : bool) (c : AIController) : AIController :=
  if called then abort c else c.

Section Call.
Variable w : World.

(** [await this.client.messages.create({ ..., messages: this.conversationHistory })]. *)
Definition create : M Response :=
  fun r =>
    let st := messages_create w (suspensions r) (conversationHistory (this r)) in
    (outcome st,
     {| this := resumed (abort_called st) (this r);
        suspensions := S (suspensions r); stream := stream r;
        modelTurns := S (modelTurns r); relayCalls := relayCalls r |}).

(** [await sendCommand(action, params, timeout)]. *)
Definition send (action : string) (params : JsVal) (timeout : Z) : M JsObject :=
  fun r =>
    let st := sendCommand w (suspensions r) action params timeout in
    (outcome st,
     {| this := resumed (abort_called st) (this r);
        suspensions := S (suspensions r); stream := stream r;
        modelTurns := modelTurns r;
        relayCalls := (relayCalls r ++ [(action, params, timeout)])%list |}).

(** The [for] loop over the content blocks of a response. *)
Definition textParts (blocks : list Block) : list string :=
  flat_map (fun b => match b with text_block t => [t] | _ => [] end) blocks.

Definition toolUseBlocks (blocks : list Block) : list Block :=
  filter (fun b => match b with tool_use _ _ _ => true | _ => false end) blocks.

Definition block_events (blocks : list Block) : list StreamEvent :=
  flat_map (fun b => match b with
                     | text_block t => [TextChunk t]
                     | tool_use _ n input => [ToolCall n input]
                     | other_block => []
                     end) blocks.

Fixpoint emit (events : list StreamEvent) : M unit :=
  match events with
  | [] => ret tt
  | e :: rest => onStream e ;; emit rest
  end.

(** The [for] loop over [toolUseBlocks]. *)
Fixpoint run_tools (blocks : list Block) (toolResults : list ToolResult)
    : M (list ToolResult) :=
  match blocks with
  | [] => ret toolResults
  | tool_use id n input :: rest =>
      check_aborted ;;
      onStream (Status ("Executing: " ++ n ++ "...")) ;;
      result <- (fun r => executeTool send n input (dataSourceOverrides (this r)) r) ;;
      check_aborted ;;
      run_tools rest
        (toolResults ++ [{| tool_use_id := id;
                            result_content := _buildToolResultContent n result |}])%list
  | _ :: rest => run_tools rest toolResults
  end.

(** Safety limit for tool call loops. *)
Definition MAX_ITERATIONS : nat := 20.

(** [while (maxIterations-- > 0) { ... }], followed by [return finalText]. *)
Fixpoint agent_loop (maxIterations : nat) (finalText : string) : M string :=
  match maxIterations with
  | O => ret finalText
  | S remaining =>
      check_aborted ;;
      onStream (Status "Thinking...") ;;
      response <- create ;;
      check_aborted ;;
      push {| role := assistant;
              message_content := AssistantContent (content response) |} ;;
      emit (block_events (content response)) ;;
      let finalText := finalText ++ String.concat EmptyString (textParts (content response)) in
      if (List.length (toolUseBlocks (content response)) =? 0)%nat
         || String.eqb (stop_reason response) "end_turn"
      then ret finalText
      else
        toolResults <- run_tools (toolUseBlocks (content response)) [] ;;
        push {| role := user; message_content := ToolResults toolResults |} ;;
        agent_loop remaining finalText
  end.

(** The state in which the [try] block starts. *)
Definition start (userMessage : string) (c : AIController) : Run :=
  {| this :=
       {| conversationHistory :=
            (conversationHistory c
               ++ [{| role := user; message_content := UserText userMessage |}])%list;
          dataSourceOverrides := dataSourceOverrides c;
          _abortController := Some false |};
     suspensions := 0; stream := []; modelTurns := 0; relayCalls := [] |}.

(** The [catch] clause: on an AbortError, one stop command whose own
    failure is ignored, then the error is thrown again. *)
Definition on_error (err : Exn) : M string :=
  fun r =>
    if String.eqb (name err) "AbortError"
    then (Throw err, snd (send "stop_motors" (JObj []) 5000 r))
    else (Throw err, r).

(** The [finally] clause. *)
Definition finally (r : Run) : Run :=
  {| this :=
       {| conversationHistory := conversationHistory (this r);
          dataSourceOverrides := dataSourceOverrides (this r);
          _abortController := None |};
     suspensions := suspensions r; stream := stream r;
     modelTurns := modelTurns r; relayCalls := relayCalls r |}.

(** [processMessage(userMessage, sendCommand, onStream)]. *)
Definition processMessage (userMessage : string) (c : AIController)
    : Outcome string * Run :=
  match agent_loop MAX_ITERATIONS EmptyString (start userMessage c) with
  | (Return finalText, r) => (Return finalText, finally r)
  | (Throw err, r) =>
      let (res, r') := on_error err r in (res, finally r')
  end.

(** The reply of the chat route: a JSON body with a status, or the
    lines written to the stream. *)
Inductive HttpReply : Type :=
| Json (status : Z) (body : JsObject)
| Lines (events : list StreamEvent).

(** [app.post('/api/chat')] with request body [body]. *)
Definition chat (relay : Relay.State) (body : JsObject) (c : AIController)
    : HttpReply * AIController :=
  match get "message" body with
  | JStr message =>
      if String.eqb message EmptyString then
        (Json 400 [("error", JStr "Message is required")], c)
      else if negb (Relay.connected relay) then
        (Json 503 [("error", JStr "Simulation not connected. Please open the simulation page first.")], c)
      else
        let c :=
          if truthy (get "dataSources" body)
          then setDataSources (get "dataSources" body) c else c in
        match processMessage message c with
        | (Return finalText, r) =>
            (Lines (stream r ++ [Done finalText])%list, this r)
        | (Throw err, r) =>
            if String.eqb (name err) "AbortError"
            then (Lines (stream r ++ [Aborted "Interrupted by user"])%list, this r)
            else (Lines (stream r ++ [Error (Tools.message err)])%list, this r)
        end
  | _ => (Json 400 [("error", JStr "Message is required")], c)
  end.

(** *** What a call can add to its record *)

(** Events the loop gives to [onStream] are never terminal. *)
Definition is_progress (e : StreamEvent) : bool :=
  match e with
  | Status _ | TextChunk _ | ToolCall _ _ => true
  | Done _ | Aborted _ | Error _ => false
  end.

Definition is_aborted (e : StreamEvent) : bool :=
  match e with
  | Aborted _ => true
  | _ => false
  end.

Definition is_tool_call (c : RelayCall) : Prop := In (fst (fst c)) TOOL_NAMES.

Definition is_stop (c : RelayCall) : bool := String.eqb (fst (fst c)) "stop_motors".

(** [r'] continues [r] with at most [n] more model turns, progress events
    only and relay calls of catalog tools only. *)
Definition ext (n : nat) (r r' : Run) : Prop :=
  (modelTurns r' <= modelTurns r + n)%nat /\
  (exists evs, stream r' = (stream r ++ evs)%list /\
               forallb is_progress evs = true) /\
  (exists calls, relayCalls r' = (relayCalls r ++ calls)%list /\
                 Forall is_tool_call calls).

Definition does {A : Type} (n : nat) (m : M A) : Prop :=
  forall r, ext n r (snd (m r)).

Lemma ext_refl r : ext 0 r r.
Proof.
  split; [lia|]. split; [exists []|exists []]; rewrite app_nil_r; auto.
Qed.

Lemma ext_trans n m r1 r2 r3 : ext n r1 r2 -> ext m r2 r3 -> ext (n + m) r1 r3.
Proof.
  intros (T1 & (e1 & S1 & P1) & (c1 & R1 & C1))
         (T2 & (e2 & S2 & P2) & (c2 & R2 & C2)).
  split; [lia|]. split.
  - exists (e1 ++ e2)%list. rewrite S2, S1, app_assoc. split; [reflexivity|].
    rewrite forallb_app, P1, P2. reflexivity.
  - exists (c1 ++ c2)%list. rewrite R2, R1, app_assoc. split; [reflexivity|].
    apply Forall_app. now split.
Qed.

Lemma ext_mono n m r r' : (n <= m)%nat -> ext n r r' -> ext m r r'.
Proof. intros L (T & H). split; [lia|exact H]. Qed.

Lemma does_ret {A : Type} (a : A) : does 0 (ret a).
Proof. intros r. apply ext_refl. Qed.

Lemma does_bind {A B : Type} n n' (m : M A) (k : A -> M B) :
  does n m -> (forall a, does n' (k a)) -> does (n + n') (bind m k).
Proof.
  intros Hm Hk r. unfold bind. specialize (Hm r).
  destruct (m r) as [[a|e] r1]; simpl in *.
  - eapply ext_trans; [exact Hm|apply Hk].
  - eapply ext_mono; [|exact Hm]. lia.
Qed.

Lemma does_check_aborted : does 0 check_aborted.
Proof.
  intros r. unfold check_aborted.
  destruct (_abortController (this r)) as [[]|]; apply ext_refl.
Qed.

Lemma does_onStream e : is_progress e = true -> does 0 (onStream e).
Proof.
  intros P r. split; [simpl; lia|]. split.
  - exists [e]. simpl. now rewrite P.
  - exists []. simpl. now rewrite app_nil_r.
Qed.

Lemma does_push m : does 0 (push m).
Proof.
  intros r. split; [simpl; lia|]. split; [exists []|exists []]; simpl;
    rewrite app_nil_r; auto.
Qed.

Lemma does_create : does 1 create.
Proof.
  intros r. split; [simpl; lia|]. split; [exists []|exists []]; simpl;
    rewrite app_nil_r; auto.
Qed.

Lemma does_send action params timeout :
  In action TOOL_NAMES -> does 0 (send action params timeout).
Proof.
  intros I r. split; [simpl; lia|]. split.
  - exists []. simpl. now rewrite app_nil_r.
  - exists [(action, params, timeout)]. simpl. split; [reflexivity|].
    constructor; [exact I|constructor].
Qed.

Lemma snd_caught {S : Type} (x : Outcome JsObject * S) : snd (caught x) = snd x.
Proof. now destruct x as [[?|?] ?]. Qed.

Lemma does_executeTool n input dso : does 0 (executeTool send n input dso).
Proof.
  intros r. rewrite executeTool_caught, snd_caught.
  destruct (dispatch_cases send n input dso r) as [(I & p & t & E)|(_ & E)];
    rewrite E.
  - now apply does_send.
  - apply ext_refl.
Qed.

Lemma does_emit evs : forallb is_progress evs = true -> does 0 (emit evs).
Proof.
  induction evs as [|e evs IH]; simpl; intros P; [apply does_ret|].
  apply andb_prop in P. destruct P as (Pe & P).
  apply (does_bind 0 0); [now apply does_onStream|intros _; now apply IH].
Qed.

Lemma block_events_progress blocks : forallb is_progress (block_events blocks) = true.
Proof. induction blocks as [|[t|id n input|] blocks IH]; simpl; auto. Qed.

Lemma does_run_tools blocks : forall acc, does 0 (run_tools blocks acc).
Proof.
  induction blocks as [|[t|id n input|] blocks IH]; intros acc; simpl; auto.
  - apply does_ret.
  - apply (does_bind 0 0); [apply does_check_aborted|intros _].
    apply (does_bind 0 0); [now apply does_onStream|intros _].
    apply (does_bind 0 0).
    { intros r. apply does_executeTool. }
    intros result.
    apply (does_bind 0 0); [apply does_check_aborted|intros _]. apply IH.
Qed.

Lemma does_agent_loop n : forall finalText, does n (agent_loop n finalText).
Proof.
  induction n as [|n IH]; intros finalText; simpl; [apply does_ret|].
  apply (does_bind 0 (S n)); [apply does_check_aborted|intros _].
  apply (does_bind 0 (S n)); [now apply does_onStream|intros _].
  apply (does_bind 1 n); [apply does_create|intros response].
  apply (does_bind 0 n); [apply does_check_aborted|intros _].
  apply (does_bind 0 n); [apply does_push|intros _].
  apply (does_bind 0 n); [apply does_emit, block_events_progress|intros _].
  destruct (_ || _).
  - intros r. eapply ext_mono; [|apply ext_refl]. lia.
  - apply (does_bind 0 n); [apply does_run_tools|intros toolResults].
    apply (does_bind 0 n); [apply does_push|intros _]. apply IH.
Qed.

(** *** Cancellation is observed

    Between an [await] and what follows it the loop tests the abort flag:
    the loop cannot return normally once the flag is set, and what it
    throws is either the AbortError or what the model request threw. *)

Definition in_flight (r : Run) : Prop :=
  exists b, _abortController (this r) = Some b.

Definition unset (r : Run) : Prop := _abortController (this r) = Some false.

Definition from_model (e : Exn) : Prop :=
  exists n h, outcome (messages_create w n h) = Throw e.

Definition checked {A : Type} (P : Run -> Prop) (m : M A) (Q : Run -> Prop) : Prop :=
  forall r, P r ->
    match fst (m r) with
    | Return _ => Q (snd (m r))
    | Throw e => e = AbortError \/ from_model e
    end.

Lemma unset_in_flight r : unset r -> in_flight r.
Proof. intros U. now exists false. Qed.

Lemma checked_bind {A B : Type} P R Q (m : M A) (k : A -> M B) :
  checked P m R -> (forall a, checked R (k a) Q) -> checked P (bind m k) Q.
Proof.
  intros Hm Hk r Pr. unfold bind. specialize (Hm r Pr).
  destruct (m r) as [[a|e] r1]; simpl in *; [now apply Hk|exact Hm].
Qed.

Lemma checked_ret {A : Type} P (a : A) : checked P (ret a) P.
Proof. intros r Pr. exact Pr. Qed.

Lemma checked_check_aborted : checked in_flight check_aborted unset.
Proof.
  intros r (b & E). unfold check_aborted, unset. rewrite E.
  destruct b; simpl; auto.
Qed.

Lemma checked_check_unset : checked unset check_aborted unset.
Proof. intros r U. apply checked_check_aborted. now apply unset_in_flight. Qed.

Lemma checked_onStream e : checked unset (onStream e) unset.
Proof. intros r U. exact U. Qed.

Lemma checked_push m : checked unset (push m) unset.
Proof. intros r U. exact U. Qed.

Lemma checked_emit evs : checked unset (emit evs) unset.
Proof.
  induction evs as [|e evs IH]; [apply checked_ret|].
  simpl. eapply checked_bind; [apply checked_onStream|intros _; exact IH].
Qed.

Lemma resumed_in_flight called c b :
  _abortController c = Some b ->
  exists b', _abortController (resumed called c) = Some b'.
Proof.
  intros E. destruct called; simpl; [|eauto]. rewrite E. eauto.
Qed.

Lemma checked_create : checked unset create in_flight.
Proof.
  intros r U. unfold create. simpl.
  destruct (outcome (messages_create w (suspensions r) (conversationHistory (this r))))
    as [resp|e] eqn:O.
  - unfold in_flight. simpl. eapply resumed_in_flight. exact U.
  - right. now exists (suspensions r), (conversationHistory (this r)).
Qed.

Lemma checked_executeTool n input dso :
  checked unset (executeTool send n input dso) in_flight.
Proof.
  intros r U.
  destruct (executeTool_returns send n input dso r) as (result & E). rewrite E.
  rewrite executeTool_caught, snd_caught.
  destruct (dispatch_cases send n input dso r) as [(_ & p & t & D)|(_ & D)];
    rewrite D; simpl.
  - eapply resumed_in_flight. exact U.
  - now apply unset_in_flight.
Qed.

Lemma checked_run_tools blocks : forall acc, checked unset (run_tools blocks acc) unset.
Proof.
  induction blocks as [|[t|id n input|] blocks IH]; intros acc;
    [apply checked_ret|apply IH| |apply IH].
  change (run_tools (tool_use id n input :: blocks) acc) with
    (check_aborted ;;
     onStream (Status ("Executing: " ++ n ++ "...")) ;;
     result <- (fun r => executeTool send n input (dataSourceOverrides (this r)) r) ;;
     check_aborted ;;
     run_tools blocks
       (acc ++ [{| tool_use_id := id;
                   result_content := _buildToolResultContent n result |}])%list).
  eapply checked_bind; [apply checked_check_unset|intros _].
  eapply checked_bind; [apply checked_onStream|intros _].
  eapply checked_bind; [intros r U; now apply checked_executeTool|intros result].
  eapply checked_bind; [apply checked_check_aborted|intros _]. apply IH.
Qed.

Lemma checked_agent_loop n : forall finalText,
  checked unset (agent_loop n finalText) unset.
Proof.
  induction n as [|n IH]; intros finalText; [apply checked_ret|].
  cbn [agent_loop].
  eapply checked_bind; [apply checked_check_unset|intros _].
  eapply checked_bind; [apply checked_onStream|intros _].
  eapply checked_bind; [apply checked_create|intros response].
  eapply checked_bind; [apply checked_check_aborted|intros _].
  eapply checked_bind; [apply checked_push|intros _].
  eapply checked_bind; [apply checked_emit|intros _].
  destruct (_ || _); [apply checked_ret|].
  eapply checked_bind; [apply checked_run_tools|intros toolResults].
  eapply checked_bind; [apply checked_push|intros _]. apply IH.
Qed.

(** *** The chat route around [processMessage] *)

Definition session (body : JsObject) (c : AIController) : AIController :=
  if truthy (get "dataSources" body)
  then setDataSources (get "dataSources" body) c else c.

Lemma chat_processMessage relay body c userMessage :
  get "message" body = JStr userMessage -> userMessage <> EmptyString ->
  Relay.connected relay = true ->
  fst (chat relay body c) =
    match processMessage userMessage (session body c) with
    | (Return finalText, r) => Lines (stream r ++ [Done finalText])%list
    | (Throw err, r) =>
        if String.eqb (name err) "AbortError"
        then Lines (stream r ++ [Aborted "Interrupted by user"])%list
        else Lines (stream r ++ [Error (message err)])%list
    end.
Proof.
  intros G NE C. unfold chat. rewrite G, C.
  destruct (String.eqb_spec userMessage EmptyString); [contradiction|]. simpl.
  fold (session body c).
  destruct (processMessage userMessage (session body c)) as [[finalText|err] r];
    [reflexivity|].
  now destruct (String.eqb (name err) "AbortError").
Qed.

Lemma tool_call_not_stop calls :
  Forall is_tool_call calls -> filter is_stop calls = [].
Proof.
  induction 1 as [|[[a p] t'] calls I F IH]; simpl; [reflexivity|].
  unfold is_tool_call in I. simpl in I. unfold is_stop at 1. simpl.
  destruct (String.eqb_spec a "stop_motors") as [->|N]; [|exact IH].
  exfalso. simpl in I. intuition discriminate.
Qed.

(** C7, amended: a call during which abort() was invoked, so that its
    abort flag is set when the loop ends, never returns: its loop raises
    either the AbortError of a cancellation checkpoint or the error with
    which one of its model requests failed.  Whenever the loop raises an
    error named AbortError, however many relay calls the tools of the call
    have made, processMessage sends exactly one stop command, stop_motors
    with the 5000 ms timeout, after them; whether that command resolves or
    rejects, processMessage throws the same error to its caller and clears
    the abort controller; and the chat route then ends the stream with
    exactly one aborted event, every event before it being a progress
    event.  Whenever the loop raises an error with another name, the
    error of a failed model request even if abort() was invoked during
    that request, no stop command is sent and the chat route ends the
    stream with an error event and no aborted event. *)
Theorem cancelled_call_stops_once (userMessage : string) (c : AIController) :
  (_abortController
     (this (snd (agent_loop MAX_ITERATIONS EmptyString (start userMessage c))))
     = Some true ->
   exists err,
     fst (agent_loop MAX_ITERATIONS EmptyString (start userMessage c))
       = Throw err /\
     (err = AbortError \/
      exists n h, outcome (messages_create w n h) = Throw err)) /\
  (forall err r,
     agent_loop MAX_ITERATIONS EmptyString (start userMessage c) = (Throw err, r) ->
     name err = "AbortError" ->
     relayCalls (snd (processMessage userMessage c))
       = (relayCalls r ++ [("stop_motors", JObj [], 5000)])%list /\
     filter is_stop (relayCalls (snd (processMessage userMessage c)))
       = [("stop_motors", JObj [], 5000)] /\
     fst (processMessage userMessage c) = Throw err /\
     _abortController (this (snd (processMessage userMessage c))) = None /\
     (forall relay body c0,
        get "message" body = JStr userMessage -> userMessage <> EmptyString ->
        Relay.connected relay = true -> session body c0 = c ->
        fst (chat relay body c0)
          = Lines (stream r ++ [Aborted "Interrupted by user"])%list /\
        forallb is_progress (stream r) = true /\
        filter is_aborted (stream r ++ [Aborted "Interrupted by user"])%list
          = [Aborted "Interrupted by user"])) /\
  (forall err r,
     agent_loop MAX_ITERATIONS EmptyString (start userMessage c) = (Throw err, r) ->
     name err <> "AbortError" ->
     processMessage userMessage c = (Throw err, finally r) /\
     filter is_stop (relayCalls (snd (processMessage userMessage c))) = [] /\
     (forall relay body c0,
        get "message" body = JStr userMessage -> userMessage <> EmptyString ->
        Relay.connected relay = true -> session body c0 = c ->
        fst (chat relay body c0) = Lines (stream r ++ [Error (message err)])%list /\
        filter is_aborted (stream r ++ [Error (message err)])%list = [])).
Proof.
  assert (NoAborted : forall evs, forallb is_progress evs = true ->
                                  filter is_aborted evs = []).
  { induction evs as [|[] evs IH]; simpl; auto; discriminate. }
  split; [|split].
  - intros F.
    pose proof (checked_agent_loop MAX_ITERATIONS EmptyString
                  (start userMessage c) eq_refl) as H.
    destruct (fst (agent_loop MAX_ITERATIONS EmptyString (start userMessage c)))
      as [finalText|e].
    + unfold unset in H. congruence.
    + exists e. split; [reflexivity|].
      destruct H as [->|(n & h & O)]; [now left|right; now exists n, h].
  - intros err r L N.
    pose proof (does_agent_loop MAX_ITERATIONS EmptyString (start userMessage c)) as D.
    rewrite L in D. destruct D as (_ & (evs & Sr & P) & (calls & Cr & T)).
    simpl in Sr, Cr.
    assert (PM : processMessage userMessage c
                 = (Throw err, finally (snd (send "stop_motors" (JObj []) 5000 r)))).
    { unfold processMessage. rewrite L. unfold on_error. now rewrite N. }
    rewrite PM. simpl. repeat split.
    + rewrite filter_app, Cr, (tool_call_not_stop calls T). reflexivity.
    + rewrite (chat_processMessage relay body c0 userMessage) by assumption.
      rewrite H2, PM, N. reflexivity.
    + now rewrite Sr.
    + rewrite filter_app, Sr. simpl.
      assert (E : filter is_aborted evs = []).
      { clear -P. induction evs as [|[] evs IH]; simpl in *; auto; discriminate. }
      now rewrite E.
  - intros err r L N.
    assert (NE : String.eqb (name err) "AbortError" = false)
      by now apply String.eqb_neq.
    pose proof (does_agent_loop MAX_ITERATIONS EmptyString (start userMessage c)) as D.
    rewrite L in D. destruct D as (_ & (evs & Sr & P) & (calls & Cr & T)).
    simpl in Sr, Cr.
    assert (PM : processMessage userMessage c = (Throw err, finally r)).
    { unfold processMessage. rewrite L. unfold on_error. now rewrite NE. }
    split; [exact PM|]. split.
    + rewrite PM. simpl. rewrite Cr. now apply tool_call_not_stop.
    + intros relay body c0 G NM C S. split.
      * rewrite (chat_processMessage relay body c0 userMessage G NM C).
        now rewrite S, PM, NE.
      * rewrite filter_app, Sr. simpl. now rewrite (NoAborted evs P).
Qed.

(** *** The iteration cap *)

Definition texts (events : list StreamEvent) : list string :=
  flat_map (fun e => match e with TextChunk t => [t] | _ => [] end) events.

Lemma append_nil_r s : s ++ EmptyString = s.
Proof. induction s as [|a s IH]; simpl; congruence. Qed.

Lemma append_assoc s1 s2 s3 : (s1 ++ s2) ++ s3 = s1 ++ (s2 ++ s3).
Proof. induction s1 as [|a s1 IH]; simpl; congruence. Qed.

Lemma join_cons x xs :
  String.concat EmptyString (x :: xs) = x ++ String.concat EmptyString xs.
Proof. destruct xs; simpl; [now rewrite append_nil_r|reflexivity]. Qed.

Lemma join_app l1 l2 :
  String.concat EmptyString (l1 ++ l2)
    = String.concat EmptyString l1 ++ String.concat EmptyString l2.
Proof.
  induction l1 as [|x l1 IH]; [reflexivity|].
  rewrite <- app_comm_cons, !join_cons, IH. now rewrite append_assoc.
Qed.

Lemma texts_app l1 l2 : texts (l1 ++ l2) = (texts l1 ++ texts l2)%list.
Proof. unfold texts. apply flat_map_app. Qed.

Lemma texts_block_events blocks : texts (block_events blocks) = textParts blocks.
Proof.
  induction blocks as [|[t|id n input|] blocks IH]; simpl; auto.
  now rewrite IH.
Qed.

Lemma emit_spec evs : forall r,
  emit evs r =
    (Return tt,
     {| this := this r; suspensions := suspensions r;
        stream := (stream r ++ evs)%list;
        modelTurns := modelTurns r; relayCalls := relayCalls r |}).
Proof.
  induction evs as [|e evs IH]; intros r; simpl.
  - unfold ret. rewrite app_nil_r. now destruct r.
  - unfold bind, onStream. rewrite IH. simpl. now rewrite <- app_assoc.
Qed.



Section Uncancelled.

Hypothesis model_never_aborted :
  forall n h, abort_called (messages_create w n h) = false.
Hypothesis relay_never_aborted :
  forall n a p t, abort_called (sendCommand w n a p t) = false.
Hypothesis always_requests_tools :
  forall n h, exists response,
    outcome (messages_create w n h) = Return response /\
    toolUseBlocks (content response) <> [] /\
    stop_reason response <> "end_turn".

Lemma run_tools_cons id n input rest acc :
  run_tools (tool_use id n input :: rest) acc =
    (check_aborted ;;
     onStream (Status ("Executing: " ++ n ++ "...")) ;;
     result <- (fun r => executeTool send n input (dataSourceOverrides (this r)) r) ;;
     check_aborted ;;
     run_tools rest
       (acc ++ [{| tool_use_id := id;
                   result_content := _buildToolResultContent n result |}])%list).
Proof. reflexivity. Qed.

Lemma agent_loop_S n finalText :
  agent_loop (S n) finalText =
    (check_aborted ;;
     onStream (Status "Thinking...") ;;
     response <- create ;;
     check_aborted ;;
     push {| role := assistant;
             message_content := AssistantContent (content response) |} ;;
     emit (block_events (content response)) ;;
     if (List.length (toolUseBlocks (content response)) =? 0)%nat
        || String.eqb (stop_reason response) "end_turn"
     then ret (finalText ++ String.concat EmptyString (textParts (content response)))
     else
       toolResults <- run_tools (toolUseBlocks (content response)) [] ;;
       push {| role := user; message_content := ToolResults toolResults |} ;;
       agent_loop n (finalText ++ String.concat EmptyString (textParts (content response)))).
Proof. reflexivity. Qed.





End Uncancelled.

(** *** The shape of the conversation a call leaves behind *)

(** The ids of the tool_use blocks of a response, in order. *)
Definition tool_ids (blocks : list Block) : list string :=
  flat_map (fun b => match b with tool_use id _ _ => [id] | _ => [] end) blocks.

(** What a call appends after its user message: assistant turns, each
    followed by one user message that answers its tool_use blocks, id by
    id and in order, except possibly the last assistant turn. *)
Inductive paired : list Message -> Prop :=
| paired_nil : paired []
| paired_open blocks :
    paired [{| role := assistant; message_content := AssistantContent blocks |}]
| paired_turn blocks results rest :
    map tool_use_id results = tool_ids blocks ->
    paired rest ->
    paired ({| role := assistant; message_content := AssistantContent blocks |}
              :: {| role := user; message_content := ToolResults results |}
              :: rest).

(** What the tools of a turn leave untouched. *)
Definition talk_kept (r r' : Run) : Prop :=
  conversationHistory (this r') = conversationHistory (this r) /\
  dataSourceOverrides (this r') = dataSourceOverrides (this r) /\
  texts (stream r') = texts (stream r).

Definition keeps {A : Type} (m : M A) : Prop := forall r, talk_kept r (snd (m r)).

Definition returns {A : Type} (m : M A) (Q : A -> Prop) : Prop :=
  forall r a r', m r = (Return a, r') -> Q a.

Lemma talk_kept_refl r : talk_kept r r.
Proof. now repeat split. Qed.

Lemma talk_kept_trans r1 r2 r3 : talk_kept r1 r2 -> talk_kept r2 r3 -> talk_kept r1 r3.
Proof.
  intros (A1 & A2 & A3) (B1 & B2 & B3). repeat split; congruence.
Qed.

Lemma keeps_bind {A B : Type} (m : M A) (k : A -> M B) :
  keeps m -> (forall a, keeps (k a)) -> keeps (bind m k).
Proof.
  intros Hm Hk r. unfold bind. specialize (Hm r).
  destruct (m r) as [[a|e] r1]; simpl in *; [|exact Hm].
  eapply talk_kept_trans; [exact Hm|apply Hk].
Qed.

Lemma returns_bind {A B : Type} (m : M A) (k : A -> M B) Q :
  (forall a, returns (k a) Q) -> returns (bind m k) Q.
Proof.
  intros Hk r b r' E. unfold bind in E.
  destruct (m r) as [[a|e] r1]; [|discriminate]. eapply Hk; exact E.
Qed.

Lemma resumed_history called c :
  conversationHistory (resumed called c) = conversationHistory c.
Proof. now destruct called. Qed.

Lemma resumed_overrides called c :
  dataSourceOverrides (resumed called c) = dataSourceOverrides c.
Proof. now destruct called. Qed.

Lemma keeps_check_aborted : keeps check_aborted.
Proof.
  intros r. unfold check_aborted.
  destruct (_abortController (this r)) as [[]|]; apply talk_kept_refl.
Qed.

Lemma keeps_status text : keeps (onStream (Status text)).
Proof.
  intros r. unfold talk_kept. simpl. rewrite texts_app. simpl.
  now rewrite app_nil_r.
Qed.

Lemma keeps_send action params timeout : keeps (send action params timeout).
Proof.
  intros r. unfold talk_kept, send. simpl.
  now rewrite resumed_history, resumed_overrides.
Qed.

Lemma keeps_executeTool n input dso : keeps (executeTool send n input dso).
Proof.
  intros r. rewrite executeTool_caught, snd_caught.
  destruct (dispatch_cases send n input dso r) as [(_ & p & t & E)|(_ & E)];
    rewrite E; [apply keeps_send|apply talk_kept_refl].
Qed.

Lemma keeps_run_tools blocks : forall acc, keeps (run_tools blocks acc).
Proof.
  induction blocks as [|[t|id n input|] blocks IH]; intros acc;
    [intros r; apply talk_kept_refl|apply IH| |apply IH].
  rewrite run_tools_cons.
  apply keeps_bind; [apply keeps_check_aborted|intros _].
  apply keeps_bind; [apply keeps_status|intros _].
  apply keeps_bind; [intros r; apply keeps_executeTool|intros result].
  apply keeps_bind; [apply keeps_check_aborted|intros _]. apply IH.
Qed.

Lemma returns_run_tools blocks : forall acc,
  returns (run_tools blocks acc)
          (fun results =>
             map tool_use_id results
               = (map tool_use_id acc ++ tool_ids blocks)%list).
Proof.
  induction blocks as [|[t|id n input|] blocks IH]; intros acc;
    [|apply IH| |apply IH].
  - intros r a r' E. inversion E; subst. simpl. now rewrite app_nil_r.
  - rewrite run_tools_cons.
    apply returns_bind; intros _. apply returns_bind; intros _.
    apply returns_bind; intros result. apply returns_bind; intros _.
    intros r a r' E. apply IH in E. rewrite E, map_app. simpl.
    now rewrite <- app_assoc.
Qed.

Lemma tool_ids_toolUseBlocks blocks : tool_ids (toolUseBlocks blocks) = tool_ids blocks.
Proof.
  induction blocks as [|[t|id n input|] blocks IH]; simpl; auto.
  now rewrite IH.
Qed.

Lemma check_cases r :
  check_aborted r = (Return tt, r) \/ check_aborted r = (Throw AbortError, r).
Proof.
  unfold check_aborted. destruct (_abortController (this r)) as [[]|]; auto.
Qed.

(** What [agent_loop] does to the history, the overrides and the
    streamed text, however it ends. *)
Definition loop_shape (finalText : string) (r : Run) (x : Outcome string * Run)
    : Prop :=
  dataSourceOverrides (this (snd x)) = dataSourceOverrides (this r) /\
  (exists tail,
     conversationHistory (this (snd x))
       = (conversationHistory (this r) ++ tail)%list /\
     paired tail) /\
  (forall t, fst x = Return t ->
     exists new,
       texts (stream (snd x)) = (texts (stream r) ++ new)%list /\
       t = finalText ++ String.concat EmptyString new).

Lemma loop_shape_stop finalText r r' e :
  talk_kept r r' -> loop_shape finalText r (Throw e, r').
Proof.
  intros (H & D & T). split; [exact D|]. split.
  - exists []. rewrite app_nil_r. split; [exact H|constructor].
  - intros t E. discriminate.
Qed.

Lemma agent_loop_shape n : forall finalText r,
  loop_shape finalText r (agent_loop n finalText r).
Proof.
  induction n as [|n IH]; intros finalText r.
  - simpl. unfold ret. split; [reflexivity|]. split.
    + exists []. rewrite app_nil_r. split; [reflexivity|constructor].
    + intros t E. inversion E; subst. exists [].
      now rewrite app_nil_r, append_nil_r.
  - rewrite agent_loop_S. unfold bind at 1.
    destruct (check_cases r) as [E|E]; rewrite E;
      [|apply loop_shape_stop, talk_kept_refl].
    unfold bind at 1. unfold onStream at 1.
    unfold bind at 1. unfold create at 1.
    cbn [this suspensions stream modelTurns relayCalls].
    set (st := messages_create w (suspensions r) (conversationHistory (this r))).
    set (thinking := (stream r ++ [Status "Thinking..."])%list).
    assert (Th : texts thinking = texts (stream r)).
    { unfold thinking. rewrite texts_app. simpl. now rewrite app_nil_r. }
    destruct (outcome st) as [response|e].
    2:{ apply loop_shape_stop. unfold talk_kept. simpl.
        now rewrite resumed_history, resumed_overrides. }
    unfold bind at 1.
    match goal with
    | |- context [check_aborted ?r2] =>
        destruct (check_cases r2) as [E2|E2]; rewrite E2
    end.
    2:{ apply loop_shape_stop. unfold talk_kept. simpl.
        now rewrite resumed_history, resumed_overrides. }
    unfold bind at 1. unfold push at 1.
    unfold bind at 1. rewrite emit_spec.
    cbn [this suspensions stream modelTurns relayCalls
         conversationHistory dataSourceOverrides _abortController].
    rewrite resumed_history, resumed_overrides.
    set (turn := {| role := assistant;
                    message_content := AssistantContent (content response) |}).
    destruct (_ || _).
    + unfold ret. split; [reflexivity|]. split.
      * exists [turn]. split; [reflexivity|constructor].
      * intros t E'. inversion E'; subst. exists (textParts (content response)).
        simpl. rewrite texts_app, Th, texts_block_events. now split.
    + match goal with
      | |- context [bind (run_tools ?bs ?acc) ?k ?r4] =>
          pose proof (keeps_run_tools bs acc r4) as (K1 & K2 & K3);
          pose proof (returns_run_tools bs acc r4) as Ids;
          unfold bind at 1;
          destruct (run_tools bs acc r4) as [[results|e] r5]
      end; simpl in K1, K2, K3.
      2:{ split; [simpl; congruence|]. split.
          - exists [turn]. simpl. rewrite K1. split; [reflexivity|constructor].
          - intros t E'. discriminate. }
      specialize (Ids results r5 eq_refl). simpl in Ids.
      rewrite tool_ids_toolUseBlocks in Ids.
      unfold bind at 1. unfold push at 1.
      match goal with
      | |- context [agent_loop n ?ft ?r6] =>
          destruct (IH ft r6) as (D & (tail & H & P) & T);
          cbn [this conversationHistory dataSourceOverrides stream] in D, H, T
      end.
      split; [congruence|]. split.
      * exists (turn :: {| role := user; message_content := ToolResults results |}
                     :: tail).
        rewrite H, K1, <- !app_assoc. split; [reflexivity|].
        now constructor.
      * intros t E'. destruct (T t E') as (new & T1 & T2).
        exists (textParts (content response) ++ new)%list.
        rewrite T1, K3, texts_app, Th, texts_block_events, <- app_assoc.
        split; [reflexivity|].
        now rewrite T2, join_app, append_assoc.
Qed.

Lemma on_error_kept err r : talk_kept r (snd (on_error err r)).
Proof.
  unfold on_error. destruct (String.eqb (name err) "AbortError"); simpl;
    [apply keeps_send|apply talk_kept_refl].
Qed.

(** X8: whatever the model and the relay answer and whenever abort() is
    invoked, a call of processMessage during which the history is not
    cleared only appends to the conversation history: after the history
    it found comes the user message and then assistant turns, each
    followed by one user message holding a result for each of its tool_use
    blocks, with the ids of those blocks in their order; only the last
    assistant turn can lack its results (the final answer, or a call that
    failed or was cancelled before all tools of the turn had run). *)
Theorem history_is_paired (userMessage : string) (c : AIController) :
  exists tail,
    conversationHistory (this (snd (processMessage userMessage c)))
      = (conversationHistory c
           ++ {| role := user; message_content := UserText userMessage |}
           :: tail)%list /\
    paired tail.
Proof.
  destruct (agent_loop_shape MAX_ITERATIONS EmptyString (start userMessage c))
    as (_ & (tail & H & P) & _).
  exists tail. split; [|exact P]. unfold processMessage.
  destruct (agent_loop MAX_ITERATIONS EmptyString (start userMessage c))
    as [[t|err] r]; simpl in H |- *.
  - now rewrite H, <- app_assoc.
  - pose proof (on_error_kept err r) as (K & _).
    destruct (on_error err r) as [res r']. simpl in *.
    now rewrite K, H, <- app_assoc.
Qed.

(** X9: when processMessage returns, what it returns (and the chat route
    sends as the text of the done event) is exactly the concatenation, in
    order, of the text chunks it has streamed. *)
Theorem returned_text_is_streamed_text
    (userMessage : string) (c : AIController) (finalText : string) :
  fst (processMessage userMessage c) = Return finalText ->
  finalText
    = String.concat EmptyString
        (texts (stream (snd (processMessage userMessage c)))).
Proof.
  unfold processMessage.
  destruct (agent_loop_shape MAX_ITERATIONS EmptyString (start userMessage c))
    as (_ & _ & T).
  destruct (agent_loop MAX_ITERATIONS EmptyString (start userMessage c))
    as [[t|err] r]; simpl.
  - intros E. inversion E; subst.
    destruct (T finalText eq_refl) as (new & T1 & T2). simpl in T1.
    now rewrite T1.
  - destruct (on_error err r) as [res r'] eqn:X. simpl. intros E. subst.
    unfold on_error in X.
    destruct (String.eqb (name err) "AbortError"); discriminate.
Qed.

Lemma abort_idle c : _abortController c = None -> abort c = c.
Proof.
  destruct c as [h d a]. unfold abort. simpl. now intros ->.
Qed.

(** X10: however a call of processMessage ends, it leaves the controller
    with no abort controller and with the data-source overrides it found,
    so that abort() afterwards changes nothing; abort() on a controller
    with no call in flight is always without effect, and a second abort()
    adds nothing to the first. *)
Theorem abort_outside_a_call_is_a_noop (userMessage : string) (c : AIController) :
  _abortController (this (snd (processMessage userMessage c))) = None /\
  dataSourceOverrides (this (snd (processMessage userMessage c)))
    = dataSourceOverrides c /\
  abort (this (snd (processMessage userMessage c)))
    = this (snd (processMessage userMessage c)) /\
  (_abortController c = None -> abort c = c) /\
  abort (abort c) = abort c.
Proof.
  assert (A : _abortController (this (snd (processMessage userMessage c))) = None
              /\ dataSourceOverrides (this (snd (processMessage userMessage c)))
                 = dataSourceOverrides c).
  { unfold processMessage.
    destruct (agent_loop_shape MAX_ITERATIONS EmptyString (start userMessage c))
      as (D & _ & _).
    destruct (agent_loop MAX_ITERATIONS EmptyString (start userMessage c))
      as [[t|err] r]; simpl in D |- *; [now split|].
    pose proof (on_error_kept err r) as (_ & K & _).
    destruct (on_error err r) as [res r']. simpl in *. split; congruence. }
  destruct A as (A1 & A2). split; [exact A1|]. split; [exact A2|].
  split; [|split].
  - now apply abort_idle.
  - apply abort_idle.
  - unfold abort. simpl. now destruct (_abortController c).
Qed.

(** *** The replies of the chat route *)

Lemma processMessage_stream userMessage c :
  forallb is_progress (stream (snd (processMessage userMessage c))) = true.
Proof.
  pose proof (does_agent_loop MAX_ITERATIONS EmptyString (start userMessage c))
    as (_ & (evs & Sr & P) & _).
  unfold processMessage.
  destruct (agent_loop MAX_ITERATIONS EmptyString (start userMessage c))
    as [[t|err] r]; simpl in Sr |- *; [now rewrite Sr|].
  unfold on_error. destruct (String.eqb (name err) "AbortError"); simpl;
    now rewrite Sr.
Qed.

(** X11: the chat route answers a body whose message is missing, not a
    string or empty with status 400, and otherwise a disconnected relay
    with status 503, in both cases without touching the controller (the
    dataSources of the body are not applied); for a non-empty message and
    a connected relay it applies the dataSources, runs processMessage and
    writes the progress events of the call followed by exactly one
    terminal event: done, aborted or error. *)
Theorem chat_reply_shape (relay : Relay.State) (body : JsObject) (c : AIController) :
  ((forall m, get "message" body = JStr m -> m = EmptyString) ->
   chat relay body c
     = (Json 400 [("error", JStr "Message is required")], c)) /\
  (forall m,
     get "message" body = JStr m -> m <> EmptyString ->
     Relay.connected relay = false ->
     chat relay body c
       = (Json 503
            [("error",
              JStr "Simulation not connected. Please open the simulation page first.")],
          c)) /\
  (forall m,
     get "message" body = JStr m -> m <> EmptyString ->
     Relay.connected relay = true ->
     snd (chat relay body c) = this (snd (processMessage m (session body c))) /\
     exists evs last,
       fst (chat relay body c) = Lines (evs ++ [last])%list /\
       forallb is_progress evs = true /\ is_progress last = false).
Proof.
  split; [|split].
  - intros H. unfold chat.
    destruct (get "message" body) as [| | | |m| |]; try reflexivity.
    now rewrite (H m eq_refl).
  - intros m G NE C. unfold chat. rewrite G, C.
    now destruct (String.eqb_spec m EmptyString).
  - intros m G NE C. split.
    + unfold chat. rewrite G, C.
      destruct (String.eqb_spec m EmptyString); [contradiction|]. simpl.
      fold (session body c).
      destruct (processMessage m (session body c)) as [[t|err] r]; [reflexivity|].
      now destruct (String.eqb (name err) "AbortError").
    + rewrite (chat_processMessage relay body c m G NE C).
      pose proof (processMessage_stream m (session body c)) as P.
      destruct (processMessage m (session body c)) as [[t|err] r]; simpl in P.
      * now exists (stream r), (Done t).
      * destruct (String.eqb (name err) "AbortError").
        -- now exists (stream r), (Aborted "Interrupted by user").
        -- now exists (stream r), (Error (message err)).
Qed.

(** *** Natural completion and failures *)

Lemma first_turn userMessage c :
  agent_loop MAX_ITERATIONS EmptyString (start userMessage c)
  = (response <- create ;;
     check_aborted ;;
     push {| role := assistant;
             message_content := AssistantContent (content response) |} ;;
     emit (block_events (content response)) ;;
     if (List.length (toolUseBlocks (content response)) =? 0)%nat
        || String.eqb (stop_reason response) "end_turn"
     then ret (EmptyString ++ String.concat EmptyString (textParts (content response)))
     else
       toolResults <- run_tools (toolUseBlocks (content response)) [] ;;
       push {| role := user; message_content := ToolResults toolResults |} ;;
       agent_loop 19 (EmptyString ++ String.concat EmptyString (textParts (content response))))
      {| this := this (start userMessage c); suspensions := 0;
         stream := [Status "Thinking..."]; modelTurns := 0; relayCalls := [] |}.
Proof. reflexivity. Qed.

(** X12: if the model answers the first request of a call, which carries
    the previous history followed by the new user message, with a
    response that has no tool_use block or whose stop reason is end_turn,
    and abort() is not invoked meanwhile, the call ends after that one
    model turn without any relay call: it returns the text blocks of the
    response concatenated in order, has streamed the thinking status and
    then one event per text or tool_use block, and has appended the user
    message and the assistant turn to the history.  (Tools announced in a
    response whose stop reason is end_turn are streamed but not run.) *)
Theorem natural_completion
    (userMessage : string) (c : AIController) (response : Response) :
  messages_create w 0
    (conversationHistory c
       ++ [{| role := user; message_content := UserText userMessage |}])%list
    = {| outcome := Return response; abort_called := false |} ->
  (toolUseBlocks (content response) = [] \/ stop_reason response = "end_turn") ->
  processMessage userMessage c
    = (Return (String.concat EmptyString (textParts (content response))),
       {| this :=
            {| conversationHistory :=
                 (conversationHistory c
                    ++ [{| role := user; message_content := UserText userMessage |};
                        {| role := assistant;
                           message_content := AssistantContent (content response) |}])%list;
               dataSourceOverrides := dataSourceOverrides c;
               _abortController := None |};
          suspensions := 1;
          stream := Status "Thinking..." :: block_events (content response);
          modelTurns := 1;
          relayCalls := [] |}).
Proof.
  intros H D. unfold processMessage. rewrite first_turn.
  unfold bind at 1. unfold create at 1.
  cbn [this suspensions stream modelTurns relayCalls start conversationHistory].
  rewrite H. cbn [outcome abort_called resumed].
  unfold bind at 1.
  change (check_aborted _) with
    (Return tt,
     {| this :=
          {| conversationHistory :=
               (conversationHistory c
                  ++ [{| role := user; message_content := UserText userMessage |}])%list;
             dataSourceOverrides := dataSourceOverrides c;
             _abortController := Some false |};
        suspensions := 1; stream := [Status "Thinking..."];
        modelTurns := 1; relayCalls := [] |}).
  unfold bind at 1. unfold push at 1.
  unfold bind at 1. rewrite emit_spec.
  assert (B : ((List.length (toolUseBlocks (content response)) =? 0)%nat
               || String.eqb (stop_reason response) "end_turn") = true).
  { destruct D as [->| ->]; [reflexivity|]. apply orb_true_r. }
  rewrite B. unfold ret, finally. simpl. now rewrite <- app_assoc.
Qed.

(** X13: an error other than the AbortError that ends the loop of a call
    (a failed model request, say) is thrown on by processMessage as it
    is: no stop command is sent, the relay calls made are those of the
    tools, and the chat route ends the stream with one error event
    carrying the message of the error.  If the first model request
    fails, its error is what the call throws, even if abort() was invoked
    during that request. *)
Theorem failure_sends_no_stop (userMessage : string) (c : AIController) :
  (forall err r,
     agent_loop MAX_ITERATIONS EmptyString (start userMessage c) = (Throw err, r) ->
     name err <> "AbortError" ->
     processMessage userMessage c = (Throw err, finally r) /\
     filter is_stop (relayCalls (snd (processMessage userMessage c))) = [] /\
     (forall relay body c0,
        get "message" body = JStr userMessage -> userMessage <> EmptyString ->
        Relay.connected relay = true -> session body c0 = c ->
        fst (chat relay body c0) = Lines (stream r ++ [Error (message err)])%list)) /\
  (forall err,
     outcome (messages_create w 0
                (conversationHistory c
                   ++ [{| role := user; message_content := UserText userMessage |}])%list)
       = Throw err ->
     fst (agent_loop MAX_ITERATIONS EmptyString (start userMessage c)) = Throw err /\
     relayCalls (snd (agent_loop MAX_ITERATIONS EmptyString (start userMessage c)))
       = []).
Proof.
  split.
  - intros err r L N.
    assert (NE : String.eqb (name err) "AbortError" = false)
      by now apply String.eqb_neq.
    assert (PM : processMessage userMessage c = (Throw err, finally r)).
    { unfold processMessage. rewrite L. unfold on_error. now rewrite NE. }
    split; [exact PM|]. split.
    + pose proof (does_agent_loop MAX_ITERATIONS EmptyString (start userMessage c))
        as D.
      rewrite L in D. destruct D as (_ & _ & (calls & Cr & T)). simpl in Cr.
      rewrite PM. simpl. rewrite Cr. now apply tool_call_not_stop.
    + intros relay body c0 G NM C S.
      rewrite (chat_processMessage relay body c0 userMessage G NM C).
      now rewrite S, PM, NE.
  - intros err O. rewrite first_turn.
    unfold bind at 1. unfold create at 1.
    cbn [this suspensions stream modelTurns relayCalls start conversationHistory].
    rewrite O. unfold bind at 1. unfold create at 1.
    cbn [this suspensions stream modelTurns relayCalls start conversationHistory].
    rewrite O. now split.
Qed.

(** *** The turns of a call that reaches the cap *)










Section Capped.

Hypothesis model_never_aborted :
  forall n h, abort_called (messages_create w n h) = false.
Hypothesis relay_never_aborted :
  forall n a p t, abort_called (sendCommand w n a p t) = false.
Hypothesis always_requests_tools :
  forall n h, exists response,
    outcome (messages_create w n h) = Return response /\
    toolUseBlocks (content response) <> [] /\
    stop_reason response <> "end_turn".


End Capped.


End Call.

(** *** Two worlds *)

Definition moving : Response :=
  {| content := [text_block "On my way. ";
                 tool_use "toolu_1" "move_base"
                   [("direction", JStr "forward"); ("amount", JInt 1)]];
     stop_reason := "tool_use" |}.


(** The same, but [abort()] is invoked while the second relay call is in
    flight, and every later relay call (the stop command) is rejected. *)
Definition interrupted : World :=
  {| messages_create := fun _ _ =>
       {| outcome := Return moving; abort_called := false |};
     sendCommand := fun n _ _ _ =>
       {| outcome :=
            if (n <=? 3)%nat then Return [("success", JBool true)]
            else Throw {| name := "Error"; message := Relay.NOT_CONNECTED |};
          abort_called := Nat.eqb n 3 |} |}.

(** A user who invokes [abort()] while the first model request is in
    flight; the request then rejects, with an error that is not named
    AbortError. *)
Definition cut_off : World :=
  {| messages_create := fun _ _ =>
       {| outcome := Throw {| name := "Error"; message := "Request was aborted." |};
          abort_called := true |};
     sendCommand := fun _ _ _ _ =>
       {| outcome := Return [("success", JBool true)]; abort_called := false |} |}.



Lemma cancelled_call_stops_once_witness :
  relayCalls (snd (processMessage interrupted "go" new_AIController))
    = [("move_base", JObj [("direction", JStr "forward"); ("amount", JInt 1)], 30000);
       ("move_base", JObj [("direction", JStr "forward"); ("amount", JInt 1)], 30000);
       ("stop_motors", JObj [], 5000)] /\
  fst (processMessage interrupted "go" new_AIController) = Throw AbortError.
Proof.
  destruct (cancelled_call_stops_once interrupted "go" new_AIController)
    as (Raised & Handled & _).
  assert (F : fst (agent_loop interrupted MAX_ITERATIONS EmptyString
                     (start "go" new_AIController)) = Throw AbortError).
  { destruct Raised as (err & F & [->|(n & h & O)]);
      [vm_compute; reflexivity|exact F|simpl in O; discriminate]. }
  assert (L : agent_loop interrupted MAX_ITERATIONS EmptyString
                (start "go" new_AIController)
              = (Throw AbortError,
                 snd (agent_loop interrupted MAX_ITERATIONS EmptyString
                        (start "go" new_AIController)))).
  { destruct (agent_loop interrupted MAX_ITERATIONS EmptyString
                (start "go" new_AIController)) as [o r].
    simpl in F. simpl. now rewrite F. }
  destruct (Handled AbortError _ L eq_refl) as (A & _ & B & _).
  split; [rewrite A; vm_compute; reflexivity|exact B].
Defined.

(** C7 fails as stated: abort() is invoked during the first model
    request of the call, so the call is cancelled, but the request
    rejects with an error that is not named AbortError; the call throws
    that error, no stop command is attempted through the relay, and the
    chat route ends the stream with an error event and no aborted
    event. *)
Lemma cancelled_request_sends_no_stop :
  _abortController
    (this (snd (agent_loop cut_off MAX_ITERATIONS EmptyString
                  (start "go" new_AIController)))) = Some true /\
  fst (processMessage cut_off "go" new_AIController)
    = Throw {| name := "Error"; message := "Request was aborted." |} /\
  relayCalls (snd (processMessage cut_off "go" new_AIController)) = [] /\
  fst (chat cut_off (fst (Relay.run [Relay.Connection] Relay.init))
         [("message", JStr "go")] new_AIController)
    = Lines [Status "Thinking..."; Error "Request was aborted."].
Proof. repeat split; vm_compute; reflexivity. Qed.

(** *** Tool results *)

(** C4 fails as stated: a result that carries an error field whose value
    is falsy (here the empty string) is not reduced to one error text, and
    a camera-image field whose value is falsy yields no image item (and is
    dropped from the serialized fields). *)
Lemma falsy_fields_are_not_recognized :
  has "error" [("error", JStr EmptyString); ("head_camera_image", JStr "iVBOR")]
    = true /\
  _buildToolResultContent "observe_scene"
    [("error", JStr EmptyString); ("head_camera_image", JStr "iVBOR")]
    = [Image "image/png" (JStr "iVBOR");
       TextItem (Plain "[Head camera view above]");
       TextItem (Stringified [("error", JStr EmptyString)])] /\
  has "orbit_camera_image"
      [("orbit_camera_image", JStr EmptyString); ("success", JBool true)] = true /\
  _buildToolResultContent "observe_scene"
    [("orbit_camera_image", JStr EmptyString); ("success", JBool true)]
    = [TextItem (Stringified [("success", JBool true)])].
Proof. repeat split; reflexivity. Qed.

Definition camera_items (f caption : string) (result : JsObject) : list ContentItem :=
  if truthy (get f result)
  then [Image "image/png" (get f result); TextItem (Plain caption)]
  else [].

(** The fields of a result other than the two camera images. *)
Definition other_fields (result : JsObject) : JsObject :=
  filter (fun kv => negb (String.eqb "head_camera_image" (fst kv))
                    && negb (String.eqb "orbit_camera_image" (fst kv))) result.

Lemma filter_twice {A : Type} (f g : A -> bool) (l : list A) :
  filter g (filter f l) = filter (fun x => f x && g x) l.
Proof.
  induction l as [|a l IH]; simpl; [reflexivity|].
  destruct (f a); simpl; [|exact IH].
  destruct (g a); now rewrite IH.
Qed.

Lemma delete_cameras result :
  delete "orbit_camera_image" (delete "head_camera_image" result)
    = other_fields result.
Proof. unfold delete, other_fields. apply filter_twice. Qed.

(** C4, amended: if the error field of the result is truthy, the content
    is the single text made of the error; otherwise it is, in this order,
    an image item followed by its caption for the head camera image if
    that field is truthy, the same for the orbit camera image, and one
    text serializing all fields other than the two camera images if there
    is any such field; if that leaves nothing, the content is the single
    default text.  The content is never empty. *)
Theorem tool_result_content (toolName : string) (result : JsObject) :
  (truthy (get "error" result) = true ->
   _buildToolResultContent toolName result
     = [TextItem (Interpolated "Error: " (get "error" result))]) /\
  (truthy (get "error" result) = false ->
   forall items,
     items = (camera_items "head_camera_image" "[Head camera view above]" result
              ++ camera_items "orbit_camera_image" "[Orbit camera view above]" result
              ++ match other_fields result with
                 | [] => []
                 | _ :: _ => [TextItem (Stringified (other_fields result))]
                 end)%list ->
     (items <> [] -> _buildToolResultContent toolName result = items) /\
     (items = [] ->
      _buildToolResultContent toolName result
        = [TextItem (Plain "Command executed successfully.")])) /\
  _buildToolResultContent toolName result <> [].
Proof.
  unfold _buildToolResultContent. rewrite delete_cameras.
  fold (camera_items "head_camera_image" "[Head camera view above]" result).
  fold (camera_items "orbit_camera_image" "[Orbit camera view above]" result).
  destruct (truthy (get "error" result)).
  - repeat split; try discriminate.
  - assert (D : (if (0 <? List.length (other_fields result))%nat
                 then [TextItem (Stringified (other_fields result))] else [])
                = match other_fields result with
                  | [] => []
                  | _ :: _ => [TextItem (Stringified (other_fields result))]
                  end) by (destruct (other_fields result); reflexivity).
    rewrite D. split; [discriminate|]. split.
    + intros _ items ->.
      destruct (_ ++ _ ++ _)%list as [|i items]; simpl; split; congruence.
    + destruct (_ ++ _ ++ _)%list as [|i items]; simpl; discriminate.
Qed.

Lemma tool_result_content_witness :
  _buildToolResultContent "move_head"
    [("success", JBool true); ("head_camera_image", JStr "iVBOR")]
    = [Image "image/png" (JStr "iVBOR");
       TextItem (Plain "[Head camera view above]");
       TextItem (Stringified [("success", JBool true)])] /\
  _buildToolResultContent "move_base" [("error", JStr "Simulation disconnected")]
    = [TextItem (Interpolated "Error: " (JStr "Simulation disconnected"))].
Proof.
  split.
  - destruct (tool_result_content "move_head"
                [("success", JBool true); ("head_camera_image", JStr "iVBOR")])
      as (_ & H & _).
    destruct (H eq_refl _ eq_refl) as (H1 & _). apply H1. discriminate.
  - destruct (tool_result_content "move_base"
                [("error", JStr "Simulation disconnected")]) as (H & _).
    apply H. reflexivity.
Defined.

(** *** Worlds for the properties above *)

Definition greeting : Response :=
  {| content := [text_block "Hello. "; text_block "Ready."];
     stop_reason := "end_turn" |}.

(** A model that just answers. *)
Definition chatty : World :=
  {| messages_create := fun _ _ =>
       {| outcome := Return greeting; abort_called := false |};
     sendCommand := fun _ _ _ _ =>
       {| outcome := Return []; abort_called := false |} |}.

(** A model that cannot be reached. *)
Definition offline : World :=
  {| messages_create := fun _ _ =>
       {| outcome := Throw {| name := "APIConnectionError";
                              message := "Connection error." |};
          abort_called := true |};
     sendCommand := fun _ _ _ _ =>
       {| outcome := Return []; abort_called := false |} |}.

Lemma returned_text_is_streamed_text_witness :
  "Hello. Ready."
  = String.concat EmptyString
      (texts (stream (snd (processMessage chatty "hi" new_AIController)))).
Proof.
  apply (returned_text_is_streamed_text chatty "hi" new_AIController).
  vm_compute. reflexivity.
Defined.

Lemma abort_outside_a_call_is_a_noop_witness :
  abort (this (snd (processMessage interrupted "go" new_AIController)))
    = this (snd (processMessage interrupted "go" new_AIController)) /\
  abort new_AIController = new_AIController.
Proof.
  destruct (abort_outside_a_call_is_a_noop interrupted "go" new_AIController)
    as (_ & _ & A & B & _).
  split; [exact A|]. apply B. reflexivity.
Defined.

Lemma chat_reply_shape_witness :
  chat chatty Relay.init [("message", JStr "hi");
                          ("dataSources", JObj [("head_camera", JBool false)])]
       new_AIController
    = (Json 503
         [("error",
           JStr "Simulation not connected. Please open the simulation page first.")],
       new_AIController) /\
  chat chatty Relay.init [("message", JInt 7)] new_AIController
    = (Json 400 [("error", JStr "Message is required")], new_AIController).
Proof.
  split.
  - apply (chat_reply_shape chatty Relay.init _ new_AIController) with (m := "hi");
      [reflexivity|discriminate|reflexivity].
  - apply (chat_reply_shape chatty Relay.init _ new_AIController).
    intros m H. discriminate.
Defined.

Lemma natural_completion_witness :
  fst (processMessage chatty "hi" new_AIController) = Return "Hello. Ready." /\
  stream (snd (processMessage chatty "hi" new_AIController))
    = [Status "Thinking..."; TextChunk "Hello. "; TextChunk "Ready."].
Proof.
  rewrite (natural_completion chatty "hi" new_AIController greeting);
    [split; reflexivity|reflexivity|right; reflexivity].
Defined.

Lemma failure_sends_no_stop_witness :
  processMessage offline "hi" new_AIController
    = (Throw {| name := "APIConnectionError"; message := "Connection error." |},
       finally (snd (agent_loop offline MAX_ITERATIONS EmptyString
                       (start "hi" new_AIController)))) /\
  relayCalls (snd (processMessage offline "hi" new_AIController)) = [].
Proof.
  destruct (failure_sends_no_stop offline "hi" new_AIController) as (H & F).
  destruct (F {| name := "APIConnectionError"; message := "Connection error." |}
              eq_refl) as (F1 & F2).
  destruct (H {| name := "APIConnectionError"; message := "Connection error." |}
              (snd (agent_loop offline MAX_ITERATIONS EmptyString
                      (start "hi" new_AIController)))) as (P & _).
  - destruct (agent_loop offline MAX_ITERATIONS EmptyString
                (start "hi" new_AIController)) as [o r].
    simpl in F1. simpl. now rewrite F1.
  - discriminate.
  - split; [exact P|]. rewrite P. simpl. exact F2.
Defined.

(** *** Data-source toggles *)

Definition SOURCES : list string := ["head_camera"; "orbit_camera"; "state_data"].

Lemma get_map_set_eq k v (o : JsObject) : get k (map_set String.eqb k v o) = v.
Proof.
  induction o as [|[k' v'] o IH]; simpl.
  - now rewrite String.eqb_refl.
  - destruct (String.eqb k k') eqn:E; simpl.
    + now rewrite String.eqb_refl.
    + now rewrite E.
Qed.

Lemma get_map_set_neq k k' v (o : JsObject) :
  k' <> k -> get k' (map_set String.eqb k v o) = get k' o.
Proof.
  intros N. induction o as [|[k0 v0] o IH]; simpl.
  - destruct (String.eqb_spec k' k); [contradiction|reflexivity].
  - destruct (String.eqb_spec k k0) as [->|N0]; simpl.
    + destruct (String.eqb_spec k' k0); [contradiction|reflexivity].
    + destruct (String.eqb k' k0); [reflexivity|exact IH].
Qed.

Lemma get_set_source k k' v o :
  get k' (set_source k v o)
  = if String.eqb k' k
    then match v with JUndefined => get k o | _ => v end
    else get k' o.
Proof.
  destruct (String.eqb_spec k' k) as [->|N].
  - destruct v; simpl; try apply get_map_set_eq. reflexivity.
  - destruct v; simpl; try (now apply get_map_set_neq). reflexivity.
Qed.

(** X14: called with an argument that is neither null nor undefined
    (the chat route calls it with a truthy one; the parameter pattern
    throws on the other two), setDataSources changes nothing but the
    overrides, and of those only head_camera, orbit_camera and state_data:
    each takes the value of the property of that name of the argument
    unless that is undefined, in which case it keeps its value.  An
    override set to false is what the next observe_scene without an
    explicit value for that source carries; an override set to null makes
    such a call carry true. *)
Theorem setDataSources_sets_toggles (dataSources : JsVal) (c : AIController) :
  nullish dataSources = false ->
  conversationHistory (setDataSources dataSources c) = conversationHistory c /\
  _abortController (setDataSources dataSources c) = _abortController c /\
  (forall f, In f SOURCES ->
     get f (dataSourceOverrides (setDataSources dataSources c))
     = match optprop dataSources f with
       | JUndefined => get f (dataSourceOverrides c)
       | v => v
       end) /\
  (forall k, ~ In k SOURCES ->
     get k (dataSourceOverrides (setDataSources dataSources c))
     = get k (dataSourceOverrides c)) /\
  (forall f toolInput, In f SOURCES ->
     nullish (optprop (get "sources" toolInput) f) = true ->
     (optprop dataSources f = JBool false ->
      source f toolInput (dataSourceOverrides (setDataSources dataSources c))
        = JBool false) /\
     (optprop dataSources f = JNull ->
      source f toolInput (dataSourceOverrides (setDataSources dataSources c))
        = JBool true)).
Proof.
  intros _.
  assert (G : forall f, In f SOURCES ->
            get f (dataSourceOverrides (setDataSources dataSources c))
            = match optprop dataSources f with
              | JUndefined => get f (dataSourceOverrides c)
              | v => v
              end).
  { intros f I. unfold setDataSources. simpl. rewrite !get_set_source.
    simpl in I. destruct I as [<-|[<-|[<-|[]]]]; simpl;
      destruct (optprop dataSources _); reflexivity. }
  split; [reflexivity|]. split; [reflexivity|]. split; [exact G|]. split.
  - intros k NI. unfold setDataSources. simpl. rewrite !get_set_source.
    simpl in NI.
    destruct (String.eqb_spec k "state_data");
      [exfalso; apply NI; subst; auto 6|].
    destruct (String.eqb_spec k "orbit_camera");
      [exfalso; apply NI; subst; auto 6|].
    destruct (String.eqb_spec k "head_camera");
      [exfalso; apply NI; subst; auto 6|]. reflexivity.
  - intros f toolInput I N. unfold source, coalesce. rewrite N, (G f I).
    split; intros ->; reflexivity.
Qed.

Lemma setDataSources_sets_toggles_witness :
  source "head_camera" []
    (dataSourceOverrides
       (setDataSources (JObj [("head_camera", JBool false)]) new_AIController))
    = JBool false /\
  get "orbit_camera"
    (dataSourceOverrides
       (setDataSources (JObj [("head_camera", JBool false)]) new_AIController))
    = JBool true.
Proof.
  destruct (setDataSources_sets_toggles (JObj [("head_camera", JBool false)])
              new_AIController eq_refl) as (_ & _ & G & _ & S).
  split.
  - apply (S "head_camera" []); [simpl; tauto|reflexivity|reflexivity].
  - rewrite (G "orbit_camera"); [reflexivity|simpl; tauto].
Defined.

(** *** What is serialized into a tool result *)

Definition is_image (i : ContentItem) : bool :=
  match i with
  | Image _ _ => true
  | TextItem _ => false
  end.

Lemma get_delete k k' (o : JsObject) :
  get k (delete k' o) = if String.eqb k k' then JUndefined else get k o.
Proof.
  unfold delete. induction o as [|[k0 v0] o IH]; simpl.
  - now destruct (String.eqb k k').
  - destruct (String.eqb_spec k' k0) as [->|N0]; simpl.
    + rewrite IH. destruct (String.eqb k k0); reflexivity.
    + destruct (String.eqb_spec k k0) as [->|N1]; [|exact IH].
      destruct (String.eqb_spec k0 k'); [congruence|reflexivity].
Qed.

(** X15: the object serialized into the text of a tool result never
    holds a camera image: it has neither the head_camera_image nor the
    orbit_camera_image property, agrees with the result on every other
    property, and appears only when the error of the result is falsy; and
    a tool result holds at most two images. *)
Theorem serialized_fields_exclude_images
    (toolName : string) (result o : JsObject) :
  (In (TextItem (Stringified o)) (_buildToolResultContent toolName result) ->
   truthy (get "error" result) = false /\
   get "head_camera_image" o = JUndefined /\
   get "orbit_camera_image" o = JUndefined /\
   forall k, k <> "head_camera_image" -> k <> "orbit_camera_image" ->
             get k o = get k result) /\
  (List.length (filter is_image (_buildToolResultContent toolName result)) <= 2)%nat.
Proof.
  unfold _buildToolResultContent. split.
  - destruct (truthy (get "error" result)).
    { intros [H|[]]. discriminate. }
    intros I.
    assert (E : o = delete "orbit_camera_image" (delete "head_camera_image" result)).
    { destruct (truthy (get "head_camera_image" result));
        destruct (truthy (get "orbit_camera_image" result));
        destruct (0 <? List.length _)%nat; simpl in I;
        repeat (destruct I as [I|I]; try discriminate; try contradiction);
        congruence. }
    subst o. split; [reflexivity|]. split; [|split].
    + rewrite !get_delete. reflexivity.
    + rewrite get_delete. reflexivity.
    + intros k N1 N2. rewrite !get_delete.
      destruct (String.eqb_spec k "orbit_camera_image"); [contradiction|].
      destruct (String.eqb_spec k "head_camera_image");
        [contradiction|reflexivity].
  - destruct (truthy (get "error" result)); [simpl; lia|].
    destruct (truthy (get "head_camera_image" result));
      destruct (truthy (get "orbit_camera_image" result));
      destruct (0 <? List.length _)%nat; simpl; lia.
Qed.

Lemma serialized_fields_exclude_images_witness :
  get "head_camera_image" [("success", JBool true)] = JUndefined /\
  _buildToolResultContent "move_head"
    [("success", JBool true); ("head_camera_image", JStr "iVBOR")]
    = [Image "image/png" (JStr "iVBOR");
       TextItem (Plain "[Head camera view above]");
       TextItem (Stringified [("success", JBool true)])].
Proof.
  split; [|reflexivity].
  destruct (serialized_fields_exclude_images "move_head"
              [("success", JBool true); ("head_camera_image", JStr "iVBOR")]
              [("success", JBool true)]) as (H & _).
  destruct H as (_ & H & _); [simpl; tauto|exact H].
Defined.

End Controller.

(** * The simulation page: [SimulationAPI] and [WebSocketClient] *)

Module Browser.
Import Tools.
Local Open Scope string_scope.

(** ** JSON on the wire *)

(** [JSON.parse(JSON.stringify(v))] on the values of [JsVal]: an object
    loses the properties whose value is [undefined], an [undefined]
    element of an array becomes [null]. *)
Fixpoint wire (v : JsVal) : JsVal :=
  match v with
  | JArr items =>
      JArr (map (fun x => match x with JUndefined => JNull | _ => wire x end) items)
  | JObj fields =>
      JObj ((fix over (fs : list (string * JsVal)) : list (string * JsVal) :=
               match fs with
               | [] => []
               | (k, x) :: rest =>
                   match x with
                   | JUndefined => over rest
                   | _ => (k, wire x) :: over rest
                   end
               end) fields)
  | _ => v
  end.

(** The properties of an object after the round trip. *)
Definition wire_fields (fs : JsObject) : JsObject :=
  match wire (JObj fs) with
  | JObj fields => fields
  | _ => fs
  end.

(** ** What the engine and the simulation decide *)

(** Texts of the JavaScript engine: the decimal form of a number, and the
    [TypeError] of reading property [k] of [v], which is [null] or
    [undefined]. *)
Record Engine : Type := {
  number_text : Q -> string;
  type_error : JsVal -> string -> Exn
}.

(** What [_observeScene] reads from the page during one call; each read
    returns or throws.  [robot_yaw] is
    [Math.round(this._getRobotYaw() * 100) / 100]. *)
Record Scene : Type := {
  capture : Outcome JsVal;
  _captureOrbitCamera : Outcome JsVal;
  _getRobotBasePos : Outcome JsVal;
  robot_yaw : Outcome JsVal;
  _getSceneObjectsList : Outcome JsVal
}.

(** The other commands drive the physics engine: what each returns or
    throws is a parameter.  The promise of an [async] one with a polling
    loop may stay pending for ever ([None]). *)
Record SimulationAPI : Type := {
  scene : Scene;
  _moveBase : JsVal -> option (Outcome JsVal);
  _moveArm : JsVal -> Outcome JsVal;
  _setGripper : JsVal -> Outcome JsVal;
  _moveHead : JsVal -> option (Outcome JsVal);
  _getRobotState : Outcome JsVal;
  _getSceneObjects : Outcome JsVal;
  _navigateTo : JsVal -> option (Outcome JsVal);
  _resetRobot : Outcome JsVal;
  _stopMotors : Outcome JsVal
}.

Definition andThen {A B : Type} (o : Outcome A) (k : A -> Outcome B) : Outcome B :=
  match o with
  | Return a => k a
  | Throw e => Throw e
  end.

(** [v !== false]. *)
Definition not_false (v : JsVal) : bool :=
  match v with
  | JBool false => false
  | _ => true
  end.

(** [String(v)], as a template literal has it. *)
Fixpoint String_ (number : Q -> string) (v : JsVal) : string :=
  match v with
  | JUndefined => "undefined"
  | JNull => "null"
  | JBool true => "true"
  | JBool false => "false"
  | JNum q => number q
  | JStr s => s
  | JArr items =>
      String.concat ","
        (map (fun x => match x with
                       | JUndefined | JNull => EmptyString
                       | _ => String_ number x
                       end) items)
  | JObj _ => "[object Object]"
  end.

Section Page.
Variable engine : Engine.

(** [_observeScene(params)]. *)
Definition _observeScene (sim : Scene) (params : JsVal) : Outcome JsObject :=
  match prop params "sources" with
  | None => Throw (type_error engine params "sources")
  | Some given =>
      let sources := if truthy given then given else JObj [] in
      andThen
        (if not_false (optprop sources "head_camera") then
           andThen (capture sim) (fun img =>
             Return (if truthy img then [("head_camera_image", img)] else []))
         else Return [])
        (fun head =>
      andThen
        (if not_false (optprop sources "orbit_camera") then
           andThen (_captureOrbitCamera sim) (fun img =>
             Return [("orbit_camera_image", img)])
         else Return [])
        (fun orbit =>
      andThen
        (if not_false (optprop sources "state_data") then
           andThen (_getRobotBasePos sim) (fun position =>
           andThen (robot_yaw sim) (fun yaw =>
           andThen (_getSceneObjectsList sim) (fun objects =>
             Return [("robot_position", position); ("robot_yaw", yaw);
                     ("objects", objects)])))
         else Return [])
        (fun state => Return (head ++ orbit ++ state)%list)))
  end.

Definition as_value (o : Outcome JsObject) : Outcome JsVal :=
  andThen o (fun result => Return (JObj result)).

(** [executeCommand(action, params)]: how the promise it returns
    settles. *)
Definition executeCommand (api : SimulationAPI) (action params : JsVal)
    : option (Outcome JsVal) :=
  match action with
  | JStr a =>
      if String.eqb a "observe_scene" then
        Some (as_value (_observeScene (scene api) params))
      else if String.eqb a "move_base" then _moveBase api params
      else if String.eqb a "move_arm" then Some (_moveArm api params)
      else if String.eqb a "set_gripper" then Some (_setGripper api params)
      else if String.eqb a "move_head" then _moveHead api params
      else if String.eqb a "get_robot_state" then Some (_getRobotState api)
      else if String.eqb a "get_scene_objects" then Some (_getSceneObjects api)
      else if String.eqb a "navigate_to" then _navigateTo api params
      else if String.eqb a "reset_robot" then Some (_resetRobot api)
      else if String.eqb a "stop_motors" then Some (_stopMotors api)
      else Some (Return (JObj [("error", JStr ("Unknown action: " ++ a))]))
  | _ =>
      Some (Return (JObj [("error",
                           JStr ("Unknown action: "
                                 ++ String_ (number_text engine) action))]))
  end.

(** The client: its socket, and the flag and the timer of its reconnect
    logic. *)
Record WebSocketClient : Type := {
  ws : option nat;
  connected : bool;
  reconnectTimer : option nat
}.

(** [{ error: err.message || String(err) }], or the result. *)
Definition result_of (o : Outcome JsVal) : JsVal :=
  match o with
  | Return result => result
  | Throw err => JObj [("error", JStr (error_text err))]
  end.

(** [ws.onmessage] on the parsed data ([None]: [JSON.parse] throws): the
    calls of [this.ws.send], each with the socket it is made on and the
    frame that is serialized.  [c] is the client when the command has
    settled. *)
Definition onmessage (api : SimulationAPI) (data : option JsVal)
    (c : WebSocketClient) : list (nat * JsObject) :=
  match data with
  | None => []
  | Some msg =>
      match prop msg "type" with
      | None => []
      | Some (JStr ty) =>
          if String.eqb ty "command" then
            match executeCommand api (optprop msg "action") (optprop msg "params") with
            | None => []
            | Some settled =>
                match ws c with
                | None => []
                | Some socket =>
                    [(socket,
                      [("type", JStr "command_result");
                       ("id", optprop msg "id");
                       ("result", result_of settled)])]
                end
            end
          else []
      | Some _ => []
      end
  end.

End Page.

(** ** The wire keeps what the protocol reads *)

Lemma wire_fields_nil : wire_fields [] = [].
Proof. reflexivity. Qed.

Lemma wire_fields_cons k v fs :
  wire_fields ((k, v) :: fs)
  = match v with
    | JUndefined => wire_fields fs
    | _ => (k, wire v) :: wire_fields fs
    end.
Proof. destruct v; reflexivity. Qed.

Lemma wire_JObj fs : wire (JObj fs) = JObj (wire_fields fs).
Proof. reflexivity. Qed.

Lemma wire_fields_keys k fs :
  In k (map fst (wire_fields fs)) -> In k (map fst fs).
Proof.
  induction fs as [|[k' v] fs IH]; [now rewrite wire_fields_nil|].
  rewrite wire_fields_cons. simpl.
  destruct v; simpl; intuition.
Qed.

Lemma get_absent k (o : JsObject) : ~ In k (map fst o) -> get k o = JUndefined.
Proof.
  induction o as [|[k' v] o IH]; simpl; [reflexivity|].
  intros N. destruct (String.eqb_spec k k') as [->|_]; [tauto|].
  apply IH. tauto.
Qed.

Lemma wire_false v : wire v = JBool false -> v = JBool false.
Proof. destruct v; simpl; congruence. Qed.

Lemma not_false_wire v : not_false (wire v) = not_false v.
Proof. destruct v as [| |[|]| | | |]; reflexivity. Qed.

Lemma truthy_wire v : truthy (wire v) = truthy v.
Proof. destruct v; reflexivity. Qed.

Lemma wire_defined v : v <> JUndefined -> wire v <> JUndefined.
Proof. destruct v; simpl; congruence. Qed.

(** ** A command and its answer *)

Lemma frame_on_the_wire id action params :
  wire (JObj (Relay.command_frame id action params))
  = JObj ([("type", JStr "command"); ("id", JInt id); ("action", JStr action)]
          ++ match params with
             | JUndefined => []
             | _ => [("params", wire params)]
             end)%list.
Proof. destruct params; reflexivity. Qed.

Lemma onmessage_command engine api id action params c socket settled :
  ws c = Some socket ->
  executeCommand engine api (JStr action) (wire params) = Some settled ->
  onmessage engine api
    (Some (wire (JObj (Relay.command_frame id action params)))) c
  = [(socket,
      [("type", JStr "command_result"); ("id", JInt id);
       ("result", result_of settled)])].
Proof.
  intros W E. rewrite frame_on_the_wire.
  assert (P : optprop
                (JObj ([("type", JStr "command"); ("id", JInt id);
                        ("action", JStr action)]
                       ++ match params with
                          | JUndefined => []
                          | _ => [("params", wire params)]
                          end)%list) "params" = wire params)
    by (destruct params; reflexivity).
  unfold onmessage.
  change (prop (JObj _) "type") with (Some (JStr "command")).
  change (String.eqb "command" "command") with true. cbv iota.
  rewrite P.
  change (optprop (JObj _) "action") with (JStr action).
  change (optprop (JObj _) "id") with (JInt id).
  now rewrite E, W.
Qed.

Lemma reply_on_the_wire id result :
  Relay.is_result_frame
    (wire (JObj [("type", JStr "command_result"); ("id", JInt id);
                 ("result", result)])) id /\
  optprop (wire (JObj [("type", JStr "command_result"); ("id", JInt id);
                       ("result", result)])) "result" = wire result.
Proof.
  split.
  - split; [now destruct result|].
    exists (JInt id). split; [now destruct result|apply Relay.as_integer_JInt].
  - now destruct result.
Qed.

(** X16: a command travels to the simulation page and back.  For a
    command sent while connected, the client answers the frame the relay
    wrote with one command_result frame carrying the same id, and when
    that frame reaches the relay from a live socket, before any close or
    timeout, the promise of the command is resolved with the value
    executeCommand returned, as JSON carries it.  A command that throws in
    the page resolves the promise too, with an object whose error is the
    text of the exception: the page never makes the relay reject. *)
Theorem command_round_trip
    (engine : Engine) (api : SimulationAPI) (c : WebSocketClient)
    (pre post : list Relay.Event) (action : string) (params : JsVal)
    (timeout : Z) (socket from : nat) (settled : Outcome JsVal) :
  let s0 := fst (Relay.run pre Relay.init) in
  let id := Relay.commandIdCounter s0 in
  let p := Relay.nextObject s0 in
  let s1 := fst (Relay.sendCommandToSim action params timeout s0) in
  let s2 := fst (Relay.run post s1) in
  Relay.connected s0 = true ->
  forallb (Relay.quiet id) post = true ->
  Relay.settlements p (snd (Relay.run post s1)) = [] ->
  Relay.live from s2 = true ->
  ws c = Some socket ->
  executeCommand engine api (JStr action) (wire params) = Some settled ->
  exists to reply,
    snd (Relay.sendCommandToSim action params timeout s0)
      = [Relay.SetTimeout (S p) timeout;
         Relay.WsSend to (Relay.command_frame id action params)] /\
    onmessage engine api
      (Some (wire (JObj (Relay.command_frame id action params)))) c
      = [(socket, reply)] /\
    get "id" reply = JInt id /\
    snd (Relay.step (Relay.WsMessage from (Some (wire (JObj reply)))) s2)
      = [Relay.ClearTimeout (S p);
         Relay.Resolve p (wire (result_of settled))] /\
    (forall err, settled = Throw err ->
       wire (result_of settled) = JObj [("error", JStr (error_text err))]).
Proof.
  intros s0 id p s1 s2 C Q Un Lv W E.
  assert (W0 : Relay.wf s0) by (apply Relay.wf_run, Relay.wf_init).
  assert (W1 : Relay.wf s1)
    by (apply (Relay.wf_step (Relay.SendCommand action params timeout)), W0).
  pose proof (Relay.sendCommandToSim_awaiting action params timeout s0 W0 C) as A.
  fold s1 p id in A.
  assert (Sent : exists to,
            snd (Relay.sendCommandToSim action params timeout s0)
            = [Relay.SetTimeout (S p) timeout;
               Relay.WsSend to (Relay.command_frame id action params)]).
  { unfold Relay.connected in C. unfold Relay.sendCommandToSim.
    destruct (Relay.simulationSocket s0) as [to|]; [|discriminate].
    destruct (Relay.readyState to s0) as [[]|]; try discriminate.
    exists to. reflexivity. }
  destruct Sent as (to & Sent).
  exists to. eexists. split; [exact Sent|].
  split; [apply (onmessage_command engine api id action params c socket settled W E)|].
  split; [reflexivity|].
  destruct (reply_on_the_wire id (result_of settled)) as (F & R).
  destruct (Relay.run_awaiting _ _ _ _ _ post s1 W1 A Q) as [(_ & A')|(t & E' & _)].
  - fold s2 in A'. split.
    + rewrite (Relay.result_for_awaiting _ _ _ _ _ s2 from _ A' Lv F).
      cbn [snd]. now rewrite R.
    + intros err ->. reflexivity.
  - rewrite E' in Un. discriminate.
Qed.

(** ** observe_scene, from the tool to its result *)

Lemma source_defined f toolInput dso : nullish (source f toolInput dso) = false.
Proof.
  unfold source. generalize (coalesce (optprop (get "sources" toolInput) f)
                                      (get f dso)).
  intros a. unfold coalesce. destruct (nullish a) eqn:A; [reflexivity|exact A].
Qed.

Lemma sources_on_the_wire a b c :
  nullish a = false -> nullish b = false -> nullish c = false ->
  wire (JObj [("sources",
               JObj [("head_camera", a); ("orbit_camera", b);
                     ("state_data", c)])])
  = JObj [("sources",
           JObj [("head_camera", wire a); ("orbit_camera", wire b);
                 ("state_data", wire c)])].
Proof.
  intros A B C.
  destruct a; try discriminate; destruct b; try discriminate;
    destruct c; try discriminate; reflexivity.
Qed.

(** The three parts of the result of [_observeScene]. *)
Definition head_part (sim : Scene) (on : JsVal) : Outcome JsObject :=
  if not_false on then
    andThen (capture sim) (fun img =>
      Return (if truthy img then [("head_camera_image", img)] else []))
  else Return [].

Definition orbit_part (sim : Scene) (on : JsVal) : Outcome JsObject :=
  if not_false on then
    andThen (_captureOrbitCamera sim) (fun img =>
      Return [("orbit_camera_image", img)])
  else Return [].

Definition state_part (sim : Scene) (on : JsVal) : Outcome JsObject :=
  if not_false on then
    andThen (_getRobotBasePos sim) (fun position =>
    andThen (robot_yaw sim) (fun yaw =>
    andThen (_getSceneObjectsList sim) (fun objects =>
      Return [("robot_position", position); ("robot_yaw", yaw);
              ("objects", objects)])))
  else Return [].

Lemma _observeScene_parts engine sim a b c :
  _observeScene engine sim
    (JObj [("sources",
            JObj [("head_camera", a); ("orbit_camera", b); ("state_data", c)])])
  = andThen (head_part sim a) (fun head =>
    andThen (orbit_part sim b) (fun orbit =>
    andThen (state_part sim c) (fun state =>
      Return (head ++ orbit ++ state)%list))).
Proof. reflexivity. Qed.

Lemma andThen_Return {A B : Type} (o : Outcome A) (k : A -> Outcome B) b :
  andThen o k = Return b -> exists a, o = Return a /\ k a = Return b.
Proof. destruct o as [a|e]; simpl; [eauto|discriminate]. Qed.

Lemma head_part_keys sim on head :
  head_part sim on = Return head ->
  (on = JBool false -> head = []) /\
  (forall k, In k (map fst head) -> k = "head_camera_image") /\
  (forall img, on <> JBool false -> capture sim = Return img ->
     truthy img = true -> head = [("head_camera_image", img)]).
Proof.
  unfold head_part. intros H. split; [|split].
  - intros ->. simpl in H. congruence.
  - destruct (not_false on); [|injection H as <-; simpl; tauto].
    apply andThen_Return in H. destruct H as (img & _ & H).
    injection H as <-. destruct (truthy img); simpl; intuition.
  - intros img N C T.
    assert (E : not_false on = true)
      by (destruct on as [| |[|]| | | |]; try reflexivity; congruence).
    rewrite E, C in H. simpl in H. rewrite T in H. congruence.
Qed.

Lemma orbit_part_keys sim on orbit :
  orbit_part sim on = Return orbit ->
  (on = JBool false -> orbit = []) /\
  (forall k, In k (map fst orbit) -> k = "orbit_camera_image") /\
  (forall img, on <> JBool false -> _captureOrbitCamera sim = Return img ->
     orbit = [("orbit_camera_image", img)]).
Proof.
  unfold orbit_part. intros H. split; [|split].
  - intros ->. simpl in H. congruence.
  - destruct (not_false on); [|injection H as <-; simpl; tauto].
    apply andThen_Return in H. destruct H as (img & _ & H).
    injection H as <-. simpl. intuition.
  - intros img N C.
    assert (E : not_false on = true)
      by (destruct on as [| |[|]| | | |]; try reflexivity; congruence).
    rewrite E, C in H. simpl in H. congruence.
Qed.

Lemma state_part_keys sim on state :
  state_part sim on = Return state ->
  (on = JBool false -> state = []) /\
  (forall k, In k (map fst state) ->
     In k ["robot_position"; "robot_yaw"; "objects"]).
Proof.
  unfold state_part. intros H. split.
  - intros ->. simpl in H. congruence.
  - destruct (not_false on); [|injection H as <-; simpl; tauto].
    apply andThen_Return in H. destruct H as (p & _ & H).
    apply andThen_Return in H. destruct H as (y & _ & H).
    apply andThen_Return in H. destruct H as (o & _ & H).
    injection H as <-. simpl. tauto.
Qed.

Definition head_caption : Controller.ContentItem :=
  Controller.TextItem (Controller.Plain "[Head camera view above]").

Definition orbit_caption : Controller.ContentItem :=
  Controller.TextItem (Controller.Plain "[Orbit camera view above]").

Lemma caption_needs_image (caption : Controller.ContentItem) toolName result :
  In caption (Controller._buildToolResultContent toolName result) ->
  (caption = head_caption /\ truthy (get "head_camera_image" result) = true) \/
  (caption = orbit_caption /\ truthy (get "orbit_camera_image" result) = true) \/
  (caption <> head_caption /\ caption <> orbit_caption).
Proof.
  unfold Controller._buildToolResultContent, head_caption, orbit_caption.
  destruct (truthy (get "error" result)).
  { intros [<-|[]]. right. right. split; discriminate. }
  destruct (truthy (get "head_camera_image" result));
    destruct (truthy (get "orbit_camera_image" result));
    destruct (0 <? List.length _)%nat; simpl;
    intros I;
    repeat (destruct I as [<-|I];
            [first [left; split; reflexivity
                   |right; left; split; reflexivity
                   |right; right; split; discriminate]|]);
    contradiction.
Qed.

(** X17: a data source that is switched off is not read.  When the
    value observe_scene sends for a source is exactly false, whether it
    comes from the call or from the session's overrides, the page's
    result has no field of that source, and the tool result built from it
    has no caption of that camera; with all three sources off the result
    is the empty object and the tool result is the default text.  Any
    other value, 0 and the empty string included, switches the source on:
    a head camera that delivers an image then puts it in the result. *)
Theorem disabled_source_is_not_captured
    (engine : Engine) (sim : Scene) (toolInput dso : JsObject)
    (reply : Outcome JsObject) (params : JsVal) (result : JsObject) :
  snd (executeTool (recording reply) "observe_scene" toolInput dso [])
    = [("observe_scene", params, COMMAND_TIMEOUT)] ->
  _observeScene engine sim (wire params) = Return result ->
  let content :=
    Controller._buildToolResultContent "observe_scene" (wire_fields result) in
  (source "head_camera" toolInput dso = JBool false ->
     ~ In "head_camera_image" (map fst result) /\ ~ In head_caption content) /\
  (source "orbit_camera" toolInput dso = JBool false ->
     ~ In "orbit_camera_image" (map fst result) /\ ~ In orbit_caption content) /\
  (source "state_data" toolInput dso = JBool false ->
     forall k, In k ["robot_position"; "robot_yaw"; "objects"] ->
               ~ In k (map fst result)) /\
  (source "head_camera" toolInput dso = JBool false ->
   source "orbit_camera" toolInput dso = JBool false ->
   source "state_data" toolInput dso = JBool false ->
     result = [] /\
     content = [Controller.TextItem
                  (Controller.Plain "Command executed successfully.")]) /\
  (forall img,
     source "head_camera" toolInput dso <> JBool false ->
     capture sim = Return img -> truthy img = true ->
     get "head_camera_image" result = img /\
     In (Controller.Image "image/png" (wire img)) content).
Proof.
  intros Call Obs content.
  assert (P : params
              = JObj [("sources",
                       JObj [("head_camera", source "head_camera" toolInput dso);
                             ("orbit_camera", source "orbit_camera" toolInput dso);
                             ("state_data", source "state_data" toolInput dso)])])
    by (rewrite executeTool_caught, snd_caught_recording in Call;
        injection Call as Call; symmetry; exact Call).
  subst params.
  rewrite sources_on_the_wire in Obs by apply source_defined.
  rewrite _observeScene_parts in Obs.
  apply andThen_Return in Obs. destruct Obs as (head & Hh & Obs).
  apply andThen_Return in Obs. destruct Obs as (orbit & Ho & Obs).
  apply andThen_Return in Obs. destruct Obs as (state & Hs & Obs).
  injection Obs as <-.
  apply head_part_keys in Hh. destruct Hh as (Hh0 & Hhk & Hhi).
  apply orbit_part_keys in Ho. destruct Ho as (Ho0 & Hok & _).
  apply state_part_keys in Hs. destruct Hs as (Hs0 & Hsk).
  assert (K : forall k, In k (map fst (head ++ orbit ++ state)%list) ->
                (In k (map fst head) \/ In k (map fst orbit)) \/
                In k (map fst state)).
  { intros k I. rewrite !map_app, !in_app_iff in I. tauto. }
  assert (Cap : forall k caption,
            ~ In k (map fst (head ++ orbit ++ state)%list) ->
            (caption = head_caption -> k = "head_camera_image") ->
            (caption = orbit_caption -> k = "orbit_camera_image") ->
            (caption = head_caption \/ caption = orbit_caption) ->
            ~ In caption content).
  { intros k caption N Eh Eo E I.
    assert (G : get k (wire_fields (head ++ orbit ++ state)%list) = JUndefined)
      by (apply get_absent; intros I'; apply N, wire_fields_keys, I').
    apply caption_needs_image in I.
    destruct I as [(-> & T)|[(-> & T)|(N1 & N2)]].
    - rewrite <- (Eh eq_refl), G in T. discriminate.
    - rewrite <- (Eo eq_refl), G in T. discriminate.
    - destruct E; contradiction. }
  split; [|split; [|split; [|split]]].
  - intros F.
    assert (N : ~ In "head_camera_image" (map fst (head ++ orbit ++ state)%list)).
    { pose proof (Hh0 (f_equal wire F)) as Z0. subst head.
      intros I. apply K in I.
      destruct I as [[[]|I]|I].
      - apply Hok in I. discriminate.
      - apply Hsk in I. simpl in I.
        destruct I as [I|[I|[I|[]]]]; discriminate. }
    split; [exact N|].
    apply (Cap "head_camera_image" head_caption N); auto; discriminate.
  - intros F.
    assert (N : ~ In "orbit_camera_image" (map fst (head ++ orbit ++ state)%list)).
    { pose proof (Ho0 (f_equal wire F)) as Z0. subst orbit.
      intros I. apply K in I.
      destruct I as [[I|[]]|I].
      - apply Hhk in I. discriminate.
      - apply Hsk in I. simpl in I.
        destruct I as [I|[I|[I|[]]]]; discriminate. }
    split; [exact N|].
    apply (Cap "orbit_camera_image" orbit_caption N); auto; discriminate.
  - intros F k Ik I. pose proof (Hs0 (f_equal wire F)) as Z0. subst state.
    apply K in I.
    destruct I as [[I|I]|[]].
    + apply Hhk in I. subst k. simpl in Ik.
      destruct Ik as [Ik|[Ik|[Ik|[]]]]; discriminate.
    + apply Hok in I. subst k. simpl in Ik.
      destruct Ik as [Ik|[Ik|[Ik|[]]]]; discriminate.
  - intros F1 F2 F3. subst content.
    rewrite (Hh0 (f_equal wire F1)), (Ho0 (f_equal wire F2)),
            (Hs0 (f_equal wire F3)).
    split; reflexivity.
  - intros img N C T.
    assert (N' : wire (source "head_camera" toolInput dso) <> JBool false)
      by (intros F; apply N, wire_false, F).
    subst content. rewrite (Hhi img N' C T).
    split; [reflexivity|]. cbn [app].
    assert (D : img <> JUndefined) by (intros ->; discriminate).
    rewrite wire_fields_cons.
    assert (E : match img with
                | JUndefined => wire_fields (orbit ++ state)%list
                | _ => ("head_camera_image", wire img)
                         :: wire_fields (orbit ++ state)%list
                end = ("head_camera_image", wire img)
                        :: wire_fields (orbit ++ state)%list)
      by (destruct img; congruence).
    rewrite E.
    assert (Er : get "error" (wire_fields (orbit ++ state)%list) = JUndefined).
    { apply get_absent. intros I. apply wire_fields_keys in I.
      rewrite map_app, in_app_iff in I. destruct I as [I|I].
      - apply Hok in I. discriminate.
      - apply Hsk in I. simpl in I.
        destruct I as [I|[I|[I|[]]]]; discriminate. }
    unfold Controller._buildToolResultContent.
    change (get "error" (("head_camera_image", wire img) :: ?r))
      with (get "error" r).
    rewrite Er.
    change (truthy JUndefined) with false. cbv iota.
    change (get "head_camera_image" (("head_camera_image", wire img) :: ?r))
      with (wire img).
    rewrite truthy_wire, T.
    destruct (List.length _ =? 0)%nat eqn:L.
    + apply Nat.eqb_eq in L. simpl in L. discriminate.
    + simpl. tauto.
Qed.

(** ** A page *)

Definition an_engine : Engine :=
  {| number_text := fun q => decimal (Qnum q / Zpos (Qden q));
     type_error := fun _ k =>
       {| name := "TypeError";
          message := "Cannot read properties of undefined (reading '"
                     ++ k ++ "')" |} |}.

(** A page whose head camera delivers an image and whose model is not
    loaded yet. *)
Definition a_page : SimulationAPI :=
  let not_loaded :=
    Throw {| name := "TypeError"; message := "model is null" |} in
  {| scene :=
       {| capture := Return (JStr "iVBOR");
          _captureOrbitCamera := Return (JStr "AAAA");
          _getRobotBasePos := not_loaded;
          robot_yaw := not_loaded;
          _getSceneObjectsList := not_loaded |};
     _moveBase := fun _ => None;
     _moveArm := fun _ => not_loaded;
     _setGripper := fun _ => Return (JObj [("success", JBool true)]);
     _moveHead := fun _ => Some not_loaded;
     _getRobotState := not_loaded;
     _getSceneObjects := not_loaded;
     _navigateTo := fun _ => None;
     _resetRobot := not_loaded;
     _stopMotors := Return (JObj [("success", JBool true)]) |}.

Definition a_client : WebSocketClient :=
  {| ws := Some 0%nat; connected := true; reconnectTimer := None |}.

Lemma command_round_trip_witness :
  exists reply,
    onmessage an_engine a_page
      (Some (wire (JObj (Relay.command_frame 0 "get_robot_state" (JObj [])))))
      a_client
    = [(0%nat, reply)] /\
    snd (Relay.step (Relay.WsMessage 0%nat (Some (wire (JObj reply))))
           (fst (Relay.sendCommandToSim "get_robot_state" (JObj []) 30000
                   (fst (Relay.run [Relay.Connection] Relay.init)))))
    = [Relay.ClearTimeout 2;
       Relay.Resolve 1 (JObj [("error", JStr "model is null")])].
Proof.
  pose proof (command_round_trip an_engine a_page a_client [Relay.Connection] []
                "get_robot_state" (JObj []) 30000 0%nat 0%nat
                (Throw {| name := "TypeError"; message := "model is null" |}))
    as H.
  cbv zeta in H.
  destruct H as (to & reply & _ & A & _ & B & _); try reflexivity.
  exists reply. split; [exact A|exact B].
Defined.

Lemma disabled_source_is_not_captured_witness :
  ~ In head_caption
      (Controller._buildToolResultContent "observe_scene"
         (wire_fields [("orbit_camera_image", JStr "AAAA")])) /\
  _observeScene an_engine (scene a_page)
    (wire (JObj [("sources",
                  JObj [("head_camera", JBool false);
                        ("orbit_camera", JInt 0);
                        ("state_data", JBool false)])]))
  = Return [("orbit_camera_image", JStr "AAAA")].
Proof.
  split; [|reflexivity].
  destruct (disabled_source_is_not_captured an_engine (scene a_page)
              [("sources", JObj [("orbit_camera", JInt 0)])]
              [("head_camera", JBool false); ("state_data", JBool false)]
              (Return [])
              (JObj [("sources",
                      JObj [("head_camera", JBool false);
                            ("orbit_camera", JInt 0);
                            ("state_data", JBool false)])])
              [("orbit_camera_image", JStr "AAAA")])
    as (H & _); [reflexivity|reflexivity|].
  apply H. reflexivity.
Defined.

(** ** Reconnecting *)

(** The client in its page: the reconnect timers that are armed and not
    yet run, and how many sockets and timers have been made, which gives
    the next ones their handles.  The handle of a timer is a positive
    integer, so a stored handle is truthy: timers are numbered from 1. *)
Record Tab : Type := {
  client : WebSocketClient;
  armed : list nat;
  sockets_made : nat;
  timers_made : nat
}.

(** After [new WebSocketClient(simApi)]. *)
Definition new_Tab : Tab :=
  {| client := {| ws := None; connected := false; reconnectTimer := None |};
     armed := []; sockets_made := 0; timers_made := 0 |}.

Definition clearTimeout (handle : nat) (timers : list nat) : list nat :=
  filter (fun h => negb (Nat.eqb h handle)) timers.

(** [connect()]: a new socket, with its handlers. *)
Definition connect (t : Tab) : Tab :=
  {| client := {| ws := Some (sockets_made t);
                  connected := connected (client t);
                  reconnectTimer := reconnectTimer (client t) |};
     armed := armed t;
     sockets_made := S (sockets_made t);
     timers_made := timers_made t |}.

(** [ws.onopen]. *)
Definition onopen (t : Tab) : Tab :=
  match reconnectTimer (client t) with
  | Some handle =>
      {| client := {| ws := ws (client t); connected := true;
                      reconnectTimer := None |};
         armed := clearTimeout handle (armed t);
         sockets_made := sockets_made t;
         timers_made := timers_made t |}
  | None =>
      {| client := {| ws := ws (client t); connected := true;
                      reconnectTimer := None |};
         armed := armed t;
         sockets_made := sockets_made t;
         timers_made := timers_made t |}
  end.

(** [_scheduleReconnect()]. *)
Definition _scheduleReconnect (t : Tab) : Tab :=
  match reconnectTimer (client t) with
  | Some _ => t
  | None =>
      {| client := {| ws := ws (client t); connected := connected (client t);
                      reconnectTimer := Some (S (timers_made t)) |};
         armed := (armed t ++ [S (timers_made t)])%list;
         sockets_made := sockets_made t;
         timers_made := S (timers_made t) |}
  end.

(** [ws.onclose]. *)
Definition onclose (t : Tab) : Tab :=
  _scheduleReconnect
    {| client := {| ws := ws (client t); connected := false;
                    reconnectTimer := reconnectTimer (client t) |};
       armed := armed t;
       sockets_made := sockets_made t;
       timers_made := timers_made t |}.

(** The callback given to [setTimeout] by [_scheduleReconnect]. *)
Definition on_reconnect (t : Tab) : Tab :=
  let t' :=
    {| client := {| ws := ws (client t); connected := connected (client t);
                    reconnectTimer := None |};
       armed := armed t;
       sockets_made := sockets_made t;
       timers_made := timers_made t |} in
  if connected (client t) then t' else connect t'.

(** [disconnect()]. *)
Definition disconnect (t : Tab) : Tab :=
  {| client := {| ws := None; connected := false; reconnectTimer := None |};
     armed := match reconnectTimer (client t) with
              | Some handle => clearTimeout handle (armed t)
              | None => armed t
              end;
     sockets_made := sockets_made t;
     timers_made := timers_made t |}.

(** What happens in the page: calls of the two methods, the open and
    close events of a socket, and a timer that runs. *)
Inductive PageEvent : Type :=
| Connect
| Disconnect
| Opened (socket : nat)
| Closed (socket : nat)
| TimerRuns (handle : nat).

(** Only a socket that was made has handlers, and only an armed timer
    runs, once. *)
Definition page_step (e : PageEvent) (t : Tab) : Tab :=
  match e with
  | Connect => connect t
  | Disconnect => disconnect t
  | Opened socket => if (socket <? sockets_made t)%nat then onopen t else t
  | Closed socket => if (socket <? sockets_made t)%nat then onclose t else t
  | TimerRuns handle =>
      if existsb (Nat.eqb handle) (armed t) then
        on_reconnect
          {| client := client t;
             armed := clearTimeout handle (armed t);
             sockets_made := sockets_made t;
             timers_made := timers_made t |}
      else t
  end.

Definition page_run (events : list PageEvent) (t : Tab) : Tab :=
  fold_left (fun t e => page_step e t) events t.

(** The armed timers are the one the client remembers, if any. *)
Definition tidy (t : Tab) : Prop :=
  armed t = match reconnectTimer (client t) with
            | Some handle => [handle]
            | None => []
            end.

Lemma clearTimeout_one handle : clearTimeout handle [handle] = [].
Proof. unfold clearTimeout. simpl. now rewrite Nat.eqb_refl. Qed.

Lemma tidy_step e t : tidy t -> tidy (page_step e t).
Proof.
  unfold tidy. intros T. destruct e as [| |socket|socket|handle]; simpl.
  - exact T.
  - rewrite T. destruct (reconnectTimer (client t));
      [apply clearTimeout_one|reflexivity].
  - destruct (socket <? sockets_made t)%nat; [|exact T].
    unfold onopen. rewrite T.
    destruct (reconnectTimer (client t)); simpl;
      [apply clearTimeout_one|reflexivity].
  - destruct (socket <? sockets_made t)%nat; [|exact T].
    unfold onclose, _scheduleReconnect. simpl. rewrite T.
    destruct (reconnectTimer (client t)); reflexivity.
  - destruct (existsb (Nat.eqb handle) (armed t)) eqn:E; [|exact T].
    rewrite T in E |- *.
    destruct (reconnectTimer (client t)) as [h|]; [|discriminate].
    simpl in E. rewrite Bool.orb_false_r in E. apply Nat.eqb_eq in E. subst h.
    unfold on_reconnect. simpl.
    destruct (connected (client t)); simpl; apply clearTimeout_one.
Qed.

Lemma tidy_run events : forall t, tidy t -> tidy (page_run events t).
Proof.
  induction events as [|e events IH]; intros t T; [exact T|].
  apply IH, tidy_step, T.
Qed.

Lemma armed_is_held t handle :
  tidy t -> In handle (armed t) ->
  reconnectTimer (client t) = Some handle /\ armed t = [handle].
Proof.
  unfold tidy. intros T I. rewrite T in I |- *.
  destruct (reconnectTimer (client t)) as [h|]; [|contradiction].
  destruct I as [->|[]]. now split.
Qed.

(** X18: the client never has two reconnect attempts pending.  After any
    calls and events the timers that are armed are exactly the one whose
    handle the client holds, none if it holds none.  When that timer
    runs, no timer is left; if the client is connected no socket is made,
    and if it is not exactly one is made, which becomes the client's. *)
Theorem one_reconnect_timer (events : list PageEvent) :
  let t := page_run events new_Tab in
  tidy t /\ (List.length (armed t) <= 1)%nat /\
  forall handle, In handle (armed t) ->
    let t' := page_step (TimerRuns handle) t in
    armed t' = [] /\ reconnectTimer (client t') = None /\
    (connected (client t) = true ->
       sockets_made t' = sockets_made t /\ ws (client t') = ws (client t)) /\
    (connected (client t) = false ->
       sockets_made t' = S (sockets_made t) /\
       ws (client t') = Some (sockets_made t)).
Proof.
  intros t. assert (T : tidy t) by (apply tidy_run; reflexivity).
  split; [exact T|]. split.
  - rewrite T. destruct (reconnectTimer (client t)); simpl; lia.
  - intros handle I t'. subst t'.
    destruct (armed_is_held t handle T I) as (_ & A).
    unfold page_step. rewrite A. cbn [existsb]. rewrite Nat.eqb_refl.
    cbn [orb]. rewrite clearTimeout_one. unfold on_reconnect. cbn [client].
    destruct (connected (client t)); simpl;
      repeat split; try reflexivity; discriminate.
Qed.

(** X19: disconnect() does not switch reconnection off.  It cancels the
    pending attempt and drops the socket, but the handlers of the sockets
    that were made stay: when the close event of any of them arrives
    afterwards, a reconnect timer is armed again, and when it runs the
    client makes a new socket. *)
Theorem disconnect_is_undone_by_close (events : list PageEvent) (socket : nat) :
  let t := page_run events new_Tab in
  (socket < sockets_made t)%nat ->
  let t1 := page_step Disconnect t in
  let t2 := page_step (Closed socket) t1 in
  let t3 := page_step (TimerRuns (S (timers_made t))) t2 in
  (ws (client t1) = None /\ armed t1 = [] /\ sockets_made t1 = sockets_made t) /\
  (ws (client t2) = None /\ armed t2 = [S (timers_made t)]) /\
  (ws (client t3) = Some (sockets_made t) /\
   sockets_made t3 = S (sockets_made t)).
Proof.
  intros t L t1 t2 t3.
  assert (T : tidy t) by (apply tidy_run; reflexivity).
  assert (A1 : armed t1 = []).
  { subst t1. simpl. rewrite T.
    destruct (reconnectTimer (client t)); [apply clearTimeout_one|reflexivity]. }
  apply Nat.ltb_lt in L.
  assert (E2 : t2 = {| client := {| ws := None; connected := false;
                                    reconnectTimer := Some (S (timers_made t)) |};
                       armed := [S (timers_made t)];
                       sockets_made := sockets_made t;
                       timers_made := S (timers_made t) |}).
  { subst t2. unfold page_step at 1. change (sockets_made t1) with (sockets_made t).
    rewrite L. unfold onclose, _scheduleReconnect. cbn [client reconnectTimer].
    change (reconnectTimer (client t1)) with (@None nat). cbv iota.
    rewrite A1. reflexivity. }
  split; [repeat split; [exact A1]|]. split; [now rewrite E2|].
  subst t3. rewrite E2. unfold page_step. cbn [armed existsb].
  rewrite Nat.eqb_refl. cbn [orb]. now rewrite clearTimeout_one.
Qed.

Definition a_session : list PageEvent := [Connect; Opened 0%nat].

Lemma one_reconnect_timer_witness :
  ws (client (page_step (TimerRuns 1%nat)
                (page_run (a_session ++ [Closed 0%nat]) new_Tab)))
  = Some 1%nat.
Proof.
  destruct (one_reconnect_timer (a_session ++ [Closed 0%nat]))
    as (_ & _ & H).
  destruct (H 1%nat) as (_ & _ & _ & G); [simpl; tauto|].
  destruct G as (_ & G); [reflexivity|exact G].
Defined.

Lemma disconnect_is_undone_by_close_witness :
  ws (client (page_run (a_session ++ [Disconnect; Closed 0%nat; TimerRuns 1%nat])
                new_Tab))
  = Some 1%nat.
Proof.
  pose proof (disconnect_is_undone_by_close a_session 0%nat) as H.
  cbv zeta in H. destruct H as (_ & _ & H & _); [simpl; lia|exact H].
Defined.

End Browser.

(** * The chat panel: reading the reply of the chat route *)

Module Panel.
Import Tools.
Local Open Scope string_scope.

Definition newline : ascii := ascii_of_nat 10.

(** [s.split('\n')]. *)
Fixpoint split (s : string) : list string :=
  match s with
  | EmptyString => [EmptyString]
  | String ch rest =>
      if Ascii.eqb ch newline then EmptyString :: split rest
      else
        match split rest with
        | first :: others => String ch first :: others
        | [] => [String ch EmptyString]
        end
  end.

(** The characters [trim] removes, among those below 256. *)
Definition is_space (ch : ascii) : bool :=
  existsb (Nat.eqb (nat_of_ascii ch)) [9; 10; 11; 12; 13; 32; 160]%nat.

(** [!line.trim()]. *)
Definition blank (line : string) : bool :=
  forallb is_space (list_ascii_of_string line).

(** The text given to [_addMessage]: a literal, a value of the update,
    or [`${name}(${JSON.stringify(input)})`]. *)
Inductive Text : Type :=
| Literal (s : string)
| Value (v : JsVal)
| Invocation (name input : JsVal).

(** The calls that change what the panel shows. *)
Inductive Shown : Type :=
| AddMessage (type : string) (text : Text)
| SetStatus (text : JsVal).

(** The variables of the read loop of [_onSend], and the calls made. *)
Record Reading : Type := {
  buffer : string;
  assistantText : string;
  shown : list Shown
}.

Definition opened : Reading :=
  {| buffer := EmptyString; assistantText := EmptyString; shown := [] |}.

Section Stream.
(** [JSON.parse] ([None]: it throws) and the decimal form of a number. *)
Variable parse : string -> option JsVal.
Variable number : Q -> string.

(** The body of [for (const line of lines)]. *)
Definition on_line (st : string * list Shown) (line : string)
    : string * list Shown :=
  if blank line then st
  else
    match parse line with
    | None => st
    | Some update =>
        match prop update "type" with
        | Some (JStr ty) =>
            if String.eqb ty "text" then
              (fst st ++ Browser.String_ number (optprop update "text"), snd st)
            else if String.eqb ty "tool_call" then
              (fst st,
               (snd st ++ [AddMessage "tool-call"
                             (Invocation (optprop update "name")
                                         (optprop update "input"))])%list)
            else if String.eqb ty "status" then
              (fst st, (snd st ++ [SetStatus (optprop update "text")])%list)
            else if String.eqb ty "error" then
              (fst st,
               (snd st ++ [AddMessage "error" (Value (optprop update "text"))])%list)
            else if String.eqb ty "aborted" then
              (fst st,
               (snd st ++ [AddMessage "status" (Literal "Interrupted by user")])%list)
            else st
        | _ => st
        end
    end.

(** One turn of [while (true)] for a chunk that was read. *)
Definition read (st : Reading) (chunk : string) : Reading :=
  let lines := split (buffer st ++ chunk) in
  let after := fold_left on_line (removelast lines) (assistantText st, shown st) in
  {| buffer := last lines EmptyString;
     assistantText := fst after;
     shown := snd after |}.

(** The loop over the chunks of the body, then the assistant message and
    the [finally] clause. *)
Definition read_response (chunks : list string) : list Shown :=
  let st := fold_left read chunks opened in
  ((if String.eqb (assistantText st) EmptyString then shown st
    else shown st ++ [AddMessage "assistant" (Literal (assistantText st))])
   ++ [SetStatus (JStr EmptyString)])%list.

(** The newline-terminated lines of a text, and what follows them. *)
Definition lines_of (text : string) : list string := removelast (split text).

Definition rest_of (text : string) : string := last (split text) EmptyString.

End Stream.

Lemma split_nonempty s : split s <> [].
Proof.
  destruct s as [|ch s]; simpl; [discriminate|].
  destruct (Ascii.eqb ch newline); [discriminate|].
  destruct (split s); discriminate.
Qed.

Lemma last_app_nonempty {A : Type} (l l' : list A) d :
  l' <> [] -> last (l ++ l') d = last l' d.
Proof.
  intros N. induction l as [|x l IH]; [reflexivity|].
  simpl. rewrite IH. destruct (l ++ l')%list eqn:E; [|reflexivity].
  apply app_eq_nil in E. destruct E as (_ & E). contradiction.
Qed.

(** Splitting a text that grows: the lines already complete stay, the
    rest is split together with what arrives. *)
Lemma split_app a b :
  split (a ++ b) = (lines_of a ++ split (rest_of a ++ b))%list.
Proof.
  unfold lines_of, rest_of.
  induction a as [|ch a IH]; [reflexivity|].
  simpl. destruct (Ascii.eqb ch newline) eqn:N.
  - rewrite IH. pose proof (split_nonempty a) as NE.
    destruct (split a) as [|f o]; [contradiction|]. reflexivity.
  - rewrite IH. pose proof (split_nonempty a) as NE.
    destruct (split a) as [|f [|g o]]; [contradiction| |reflexivity].
    simpl. now rewrite N.
Qed.

Lemma lines_of_app a b :
  lines_of (a ++ b) = (lines_of a ++ lines_of (rest_of a ++ b))%list.
Proof.
  unfold lines_of at 1. rewrite split_app.
  apply removelast_app, split_nonempty.
Qed.

Lemma rest_of_app a b : rest_of (a ++ b) = rest_of (rest_of a ++ b).
Proof.
  unfold rest_of at 1. rewrite split_app.
  apply last_app_nonempty, split_nonempty.
Qed.

Lemma read_all parse number chunks : forall text st,
  buffer st = rest_of text ->
  (assistantText st, shown st)
    = fold_left (on_line parse number) (lines_of text) (EmptyString, []) ->
  let st' := fold_left (read parse number) chunks st in
  buffer st' = rest_of (text ++ String.concat EmptyString chunks) /\
  (assistantText st', shown st')
    = fold_left (on_line parse number)
        (lines_of (text ++ String.concat EmptyString chunks)) (EmptyString, []).
Proof.
  induction chunks as [|chunk chunks IH]; intros text st B L.
  - simpl. now rewrite Controller.append_nil_r.
  - rewrite Controller.join_cons, <- Controller.append_assoc.
    cbn [fold_left]. apply IH.
    + simpl. rewrite B. symmetry. apply rest_of_app.
    + simpl. rewrite <- surjective_pairing.
      rewrite lines_of_app, fold_left_app, <- L, B. reflexivity.
Qed.

(** A line with the newline that ends it. *)
Definition terminated (line : string) : string :=
  line ++ String newline EmptyString.

Definition no_newline (line : string) : Prop :=
  ~ In newline (list_ascii_of_string line).

Lemma split_last text : split text = (lines_of text ++ [rest_of text])%list.
Proof. apply app_removelast_last, split_nonempty. Qed.

Lemma split_no_newline text : Forall no_newline (split text).
Proof.
  induction text as [|ch text IH]; simpl.
  - constructor; [|constructor]. intros [].
  - destruct (Ascii.eqb_spec ch newline) as [->|N].
    + constructor; [|exact IH]. intros [].
    + pose proof (split_nonempty text) as NE.
      destruct (split text) as [|f o]; [contradiction|].
      inversion IH as [|? ? F1 F2]; subst.
      constructor; [|exact F2].
      intros [E|I]; [congruence|exact (F1 I)].
Qed.

Lemma join_terminated ls rest :
  String.concat EmptyString (map terminated ls) ++ rest
  = String.concat (String newline EmptyString) (ls ++ [rest])%list.
Proof.
  induction ls as [|l ls IH]; [reflexivity|].
  cbn [map]. rewrite Controller.join_cons, Controller.append_assoc, IH.
  unfold terminated. rewrite Controller.append_assoc.
  destruct ls; reflexivity.
Qed.

Lemma concat_cons sep x y l :
  String.concat sep (x :: y :: l) = x ++ sep ++ String.concat sep (y :: l).
Proof. reflexivity. Qed.

Lemma join_split text :
  String.concat (String newline EmptyString) (split text) = text.
Proof.
  induction text as [|ch text IH]; [reflexivity|].
  cbn [split]. pose proof (split_nonempty text) as NE.
  destruct (Ascii.eqb_spec ch newline) as [->|N].
  - destruct (split text) as [|f o]; [contradiction|].
    rewrite concat_cons, IH. reflexivity.
  - destruct (split text) as [|f [|g o]]; [contradiction| |].
    + simpl in *. now rewrite IH.
    + rewrite concat_cons in *. rewrite <- IH. reflexivity.
Qed.

Lemma read_chunks parse number chunks :
  let text := String.concat EmptyString chunks in
  let st := fold_left (read parse number) chunks opened in
  buffer st = rest_of text /\
  (assistantText st, shown st)
    = fold_left (on_line parse number) (lines_of text) (EmptyString, []).
Proof. now apply (read_all parse number chunks EmptyString opened). Qed.

(** X20: the panel reads the reply by lines, however the network cuts
    it into chunks.  After any chunks, the lines handled are exactly the
    newline-terminated lines of the text received so far, in order, a
    line cut across chunks being put together again, and the buffer is
    the text after the last newline, which is never handled unless a
    newline follows.  So two sequences of chunks of the same text show
    the same messages. *)
Theorem stream_is_read_by_lines
    (parse : string -> option JsVal) (number : Q -> string)
    (chunks : list string) :
  let text := String.concat EmptyString chunks in
  let st := fold_left (read parse number) chunks opened in
  (buffer st = rest_of text /\
   (assistantText st, shown st)
     = fold_left (on_line parse number) (lines_of text) (EmptyString, [])) /\
  (text = String.concat EmptyString (map terminated (lines_of text))
          ++ rest_of text /\
   Forall no_newline (lines_of text) /\ no_newline (rest_of text)) /\
  (forall chunks',
     String.concat EmptyString chunks' = text ->
     read_response parse number chunks' = read_response parse number chunks).
Proof.
  intros text st. split; [apply read_chunks|]. split.
  - pose proof (split_no_newline text) as F.
    rewrite split_last in F. apply Forall_app in F. destruct F as (F1 & F2).
    split; [|split; [exact F1|now inversion F2]].
    now rewrite join_terminated, <- split_last, join_split.
  - intros chunks' E. unfold read_response.
    destruct (read_chunks parse number chunks') as (_ & A').
    destruct (read_chunks parse number chunks) as (_ & A).
    fold text in A. rewrite E, <- A in A'.
    injection A' as -> ->. reflexivity.
Qed.

(** ** From the chat route to the panel *)

(** The object literals the server gives to [JSON.stringify]. *)
Definition to_json (e : Controller.StreamEvent) : JsObject :=
  match e with
  | Controller.Status t => [("type", JStr "status"); ("text", JStr t)]
  | Controller.TextChunk t => [("type", JStr "text"); ("text", JStr t)]
  | Controller.ToolCall n input =>
      [("type", JStr "tool_call"); ("name", JStr n); ("input", JObj input)]
  | Controller.Done t => [("type", JStr "done"); ("text", JStr t)]
  | Controller.Aborted t => [("type", JStr "aborted"); ("text", JStr t)]
  | Controller.Error t => [("type", JStr "error"); ("text", JStr t)]
  end.

(** [line] is [JSON.stringify] of the event: it has no newline, it is not
    blank, and parsing it gives the object back. *)
Definition written (parse : string -> option JsVal) (line : string)
    (e : Controller.StreamEvent) : Prop :=
  no_newline line /\ blank line = false /\
  parse line = Some (Browser.wire (JObj (to_json e))).

(** What the panel shows for an event. *)
Definition show (e : Controller.StreamEvent) : list Shown :=
  match e with
  | Controller.Status t => [SetStatus (JStr t)]
  | Controller.TextChunk _ => []
  | Controller.ToolCall n input =>
      [AddMessage "tool-call"
         (Invocation (JStr n) (Browser.wire (JObj input)))]
  | Controller.Done _ => []
  | Controller.Aborted _ => [AddMessage "status" (Literal "Interrupted by user")]
  | Controller.Error t => [AddMessage "error" (Value (JStr t))]
  end.

Lemma on_line_written parse number line e st :
  written parse line e ->
  on_line parse number st line
  = (fst st ++ String.concat EmptyString (Controller.texts [e]),
     (snd st ++ show e)%list).
Proof.
  intros (_ & B & P). unfold on_line. rewrite B, P.
  destruct st as [text messages].
  destruct e; cbn; rewrite ?Controller.append_nil_r, ?app_nil_r; reflexivity.
Qed.

Lemma fold_written parse number lines events :
  Forall2 (written parse) lines events -> forall st,
  fold_left (on_line parse number) lines st
  = (fst st ++ String.concat EmptyString (Controller.texts events),
     (snd st ++ flat_map show events)%list).
Proof.
  induction 1 as [|line e lines events W F IH]; intros st.
  - simpl. rewrite Controller.append_nil_r, app_nil_r. now destruct st.
  - cbn [fold_left]. rewrite IH, (on_line_written _ _ _ _ _ W). cbn [fst snd].
    change (e :: events) with ([e] ++ events)%list.
    rewrite Controller.texts_app, Controller.join_app, flat_map_app.
    f_equal; [apply Controller.append_assoc|].
    rewrite <- app_assoc. cbn [flat_map]. now rewrite app_nil_r.
Qed.

Lemma split_terminated line text :
  no_newline line -> split (terminated line ++ text) = line :: split text.
Proof.
  unfold terminated, no_newline.
  induction line as [|ch line IH]; intros N.
  - reflexivity.
  - simpl in *. destruct (Ascii.eqb_spec ch newline) as [->|_]; [tauto|].
    rewrite IH by tauto. reflexivity.
Qed.

Lemma split_lines lines :
  Forall no_newline lines ->
  split (String.concat EmptyString (map terminated lines))
  = (lines ++ [EmptyString])%list.
Proof.
  induction 1 as [|line lines N F IH]; [reflexivity|].
  cbn [map]. rewrite Controller.join_cons, split_terminated, IH by exact N.
  reflexivity.
Qed.

Lemma read_lines parse number lines events chunks :
  Forall2 (written parse) lines events ->
  String.concat EmptyString chunks
    = String.concat EmptyString (map terminated lines) ->
  read_response parse number chunks
  = (flat_map show events
     ++ (if String.eqb (String.concat EmptyString (Controller.texts events))
                       EmptyString
         then []
         else [AddMessage "assistant"
                 (Literal (String.concat EmptyString (Controller.texts events)))])
     ++ [SetStatus (JStr EmptyString)])%list.
Proof.
  intros W E. unfold read_response.
  destruct (read_chunks parse number chunks) as (_ & A).
  assert (N : Forall no_newline lines).
  { clear E A. induction W as [|? ? ? ? (N & _) ? IH]; constructor; auto. }
  unfold lines_of in A. rewrite E, split_lines in A by exact N.
  rewrite removelast_last, (fold_written _ _ _ _ W) in A. simpl in A.
  injection A as -> ->.
  destruct (String.eqb _ EmptyString); [reflexivity|].
  now rewrite <- app_assoc.
Qed.

(** What the chat route writes for a call. *)
Lemma chat_lines w relay body c events :
  fst (Controller.chat w relay body c) = Controller.Lines events ->
  exists message last,
    events = (Controller.stream
                (snd (Controller.processMessage w message
                        (Controller.session body c))) ++ [last])%list /\
    match fst (Controller.processMessage w message (Controller.session body c))
    with
    | Return finalText => last = Controller.Done finalText
    | Throw _ => forall t, last <> Controller.Done t
    end.
Proof.
  unfold Controller.chat.
  destruct (get "message" body) as [| | | |message| |]; try discriminate.
  destruct (String.eqb message EmptyString); [discriminate|].
  destruct (negb (Relay.connected relay)); [discriminate|].
  fold (Controller.session body c).
  destruct (Controller.processMessage w message (Controller.session body c))
    as [[finalText|err] r] eqn:PM; simpl.
  - intros E. injection E as <-.
    exists message, (Controller.Done finalText). now rewrite PM.
  - destruct (String.eqb (name err) "AbortError"); simpl; intros E;
      injection E as <-; eexists message, _; rewrite PM;
      (split; [reflexivity|]); discriminate.
Qed.

Lemma returned_text w message c finalText :
  fst (Controller.processMessage w message c) = Return finalText ->
  finalText
  = String.concat EmptyString
      (Controller.texts
         (Controller.stream (snd (Controller.processMessage w message c)))).
Proof.
  unfold Controller.processMessage.
  destruct (Controller.agent_loop_shape w Controller.MAX_ITERATIONS EmptyString
              (Controller.start message c)) as (_ & _ & T).
  destruct (Controller.agent_loop w Controller.MAX_ITERATIONS EmptyString
              (Controller.start message c)) as [[t|err] r]; simpl.
  - intros E. inversion E; subst.
    destruct (T finalText eq_refl) as (new & T1 & T2). simpl in T1.
    now rewrite T1.
  - destruct (Controller.on_error w err r) as [res r'] eqn:X. simpl.
    intros E. subst. unfold Controller.on_error in X.
    destruct (String.eqb (name err) "AbortError"); discriminate.
Qed.

(** X21: what the user sees is what the server computed.  When the chat
    route streams the events of a call and the panel reads them, in any
    chunks, the panel shows one entry per status, tool call, error and
    aborted event, in their order, and then, if the text chunks are not
    all empty, one assistant message holding their concatenation.  For a
    call that completed, that message is exactly the text of the done
    event, the value processMessage returned; the panel never reads the
    text of the done event itself. *)
Theorem panel_shows_the_answer
    (parse : string -> option JsVal) (number : Q -> string)
    (w : Controller.World) (relay : Relay.State) (body : JsObject)
    (c : Controller.AIController) (events : list Controller.StreamEvent)
    (lines chunks : list string) :
  fst (Controller.chat w relay body c) = Controller.Lines events ->
  Forall2 (written parse) lines events ->
  String.concat EmptyString chunks
    = String.concat EmptyString (map terminated lines) ->
  let answer := String.concat EmptyString (Controller.texts events) in
  read_response parse number chunks
    = (flat_map show events
       ++ (if String.eqb answer EmptyString then []
           else [AddMessage "assistant" (Literal answer)])
       ++ [SetStatus (JStr EmptyString)])%list /\
  (forall finalText, In (Controller.Done finalText) events ->
     answer = finalText).
Proof.
  intros Ch W E answer. split; [now apply (read_lines _ _ lines)|].
  intros finalText I.
  destruct (chat_lines _ _ _ _ _ Ch) as (message & last & Ev & L).
  pose proof (Controller.processMessage_stream w message
                (Controller.session body c)) as P.
  pose proof (returned_text w message (Controller.session body c)) as R.
  subst answer events.
  rewrite Controller.texts_app, Controller.join_app.
  apply in_app_or in I. destruct I as [I|[I|[]]].
  - rewrite forallb_forall in P. apply P in I. discriminate.
  - subst last.
    destruct (fst (Controller.processMessage w message
                     (Controller.session body c))) as [t|err].
    + injection L as L. subst t. rewrite <- (R finalText eq_refl). simpl.
      apply Controller.append_nil_r.
    + now destruct (L finalText).
Qed.

(** ** A reply *)

Definition quoted (s : string) : string := dquote ++ s ++ dquote.

Definition line_of (type text : string) : string :=
  "{" ++ quoted "type" ++ ":" ++ quoted type ++ ","
      ++ quoted "text" ++ ":" ++ quoted text ++ "}".

Definition a_reply : list Controller.StreamEvent :=
  [Controller.Status "Thinking..."; Controller.TextChunk "Hello. ";
   Controller.TextChunk "Ready."; Controller.Done "Hello. Ready."].

Definition its_lines : list string :=
  [line_of "status" "Thinking..."; line_of "text" "Hello. ";
   line_of "text" "Ready."; line_of "done" "Hello. Ready."].

(** [JSON.parse] on the lines of the reply. *)
Definition parse_reply (line : string) : option JsVal :=
  match
    find (fun le => String.eqb line (fst le)) (combine its_lines a_reply)
  with
  | Some (_, e) => Some (JObj (to_json e))
  | None => None
  end.

Definition digits (q : Q) : string := decimal (Qnum q / Zpos (Qden q)).

(** The reply cut in the middle of its second and of its last line. *)
Definition its_chunks : list string :=
  [terminated (line_of "status" "Thinking...") ++ "{";
   quoted "type" ++ ":" ++ quoted "text" ++ ","
     ++ quoted "text" ++ ":" ++ quoted "Hello. " ++ "}"
     ++ String newline EmptyString
     ++ terminated (line_of "text" "Ready.") ++ "{" ++ quoted "type";
   ":" ++ quoted "done" ++ "," ++ quoted "text" ++ ":"
     ++ quoted "Hello. Ready." ++ "}" ++ String newline EmptyString].

Lemma stream_is_read_by_lines_witness :
  read_response parse_reply digits its_chunks
  = read_response parse_reply digits
      [String.concat EmptyString (map terminated its_lines)].
Proof.
  destruct (stream_is_read_by_lines parse_reply digits
              [String.concat EmptyString (map terminated its_lines)])
    as (_ & _ & H).
  apply (H its_chunks). reflexivity.
Defined.

Lemma its_lines_written : Forall2 (written parse_reply) its_lines a_reply.
Proof.
  repeat constructor; try reflexivity;
    intros I; vm_compute in I;
    repeat (destruct I as [I|I]; [discriminate|]); exact I.
Qed.

Lemma panel_shows_the_answer_witness :
  read_response parse_reply digits its_chunks
  = [SetStatus (JStr "Thinking...");
     AddMessage "assistant" (Literal "Hello. Ready.");
     SetStatus (JStr EmptyString)].
Proof.
  destruct (panel_shows_the_answer parse_reply digits Controller.chatty
              (fst (Relay.run [Relay.Connection] Relay.init))
              [("message", JStr "hi")] Controller.new_AIController
              a_reply its_lines its_chunks) as (H & _).
  - vm_compute. reflexivity.
  - exact its_lines_written.
  - reflexivity.
  - exact H.
Defined.

End Panel.
